(** * MueLu MatvecKernelDriver: a shallow embedding

    The development follows
    [packages/muelu/test/scaling/MatvecKernelDriver.cpp].  Part I holds the
    model, one module per component:

    - [PerfReport]     the analytic cost reporter [report_performance_models];
    - [ContiguousMaps] the contiguous-map builder [MakeContiguousMaps];
    - [Driver]         backend selection and the randomized experiment loop
                       of [main_];
    - [Views]          the support routines [copy_view_n] and [copy_view];
    - [ReportTable]    the table of timers that ends the report;
    - [SpmvPack]       the constructors of [Petsc_SpmV_Pack] and
                       [HYPRE_SpmV_Pack], which call the map builder;
    - [Doubles], [Selection]  notions used in the statements.

    Part II holds the properties, in the same order.

    Machine integers are [Z] with the wrap-around written out (LP64: [int]
    is 32 bits, [size_t] and [long unsigned int] are 64 bits); a [double] is
    an IEEE-754 binary64 value, i.e. a primitive float. *)

From Stdlib Require Import ZArith Lia PrimFloat SpecFloat FloatOps FloatAxioms.
From Stdlib Require Import String.
From stdpp Require Import base decidable option list numbers gmap strings.

Local Open Scope Z_scope.

(** * Part I: the model *)

(** ** Machine numbers *)

Definition to_int (z : Z) : Z := (z + 2 ^ 31) mod 2 ^ 32 - 2 ^ 31.

Definition to_size_t (z : Z) : Z := z mod 2 ^ 64.

Definition size_t_add (a b : Z) : Z := to_size_t (a + b).

Definition size_t_mul (a b : Z) : Z := to_size_t (a * b).

Definition double : Type := float.

(** Conversion of an integer to [double]: round to nearest, ties to even. *)
Definition double_of_Z (z : Z) : double :=
  SF2Prim (binary_normalize prec emax z 0 false).

#[global] Instance double_inhabited : Inhabited double := populate 0%float.

(** The integer a [double] stands for, when it stands for one. *)
Definition Z_of_double (x : double) : option Z :=
  match Prim2SF x with
  | S754_zero _ => Some 0
  | S754_finite s mant e =>
      let v := if (0 <=? e) then Some (Zpos mant * 2 ^ e)
               else if (Zpos mant mod 2 ^ (- e) =? 0)
                    then Some (Zpos mant / 2 ^ (- e)) else None in
      (if s then Z.opp else id) <$> v
  | _ => None
  end.

(** [shl p k] is the mantissa [p] moved up by [k] bits, and [canon s p] the
    binary64 representation of the integer [p] when [p < 2^53]. *)
Definition shl (p : positive) (k : nat) : positive := Nat.iter k xO p.

Definition digits (p : positive) : nat := Pos.to_nat (digits2_pos p).

Definition canon (s : bool) (p : positive) : spec_float :=
  S754_finite s (shl p (53 - digits p)) (- Z.of_nat (53 - digits p)).

(** ** Errors raised by the Teuchos smart pointers and views *)

Inductive error : Set :=
| NullReference   (* [RCP::operator->] on a null pointer *)
| OutOfRange.     (* [ArrayView::operator[]] past the end *)

Inductive result (A : Type) : Type :=
| Ok (a : A)
| Err (e : error).
Arguments Ok {A} a.
Arguments Err {A} e.

#[global] Instance result_ret : MRet result := fun A a => Ok a.

#[global] Instance result_bind : MBind result := fun A B k r =>
  match r with
  | Ok a => k a
  | Err e => Err e
  end.

(** ** The analytic cost reporter *)

Module PerfReport.

(** *** What the reporter reads from the matrix *)

Record Distributor : Type := {
  getLengthsFrom : list Z;   (* receive lengths, one per peer *)
  getLengthsTo : list Z      (* send lengths, one per peer *)
}.

Record Importer : Type := {
  getRemoteLIDs_size : Z;
  getExportLIDs_size : Z;
  getNumSameIDs : Z;
  getNumPermuteIDs : Z;
  getNumExportIDs : Z;
  getNumRemoteIDs : Z;
  (* the Tpetra distributor, when the dynamic cast to [TpetraImport] works *)
  getTpetra_Import : option Distributor
}.

(** [getImporter] returns an [RCP]; [None] is the null pointer. *)
Record CrsGraph : Type := {
  getImporter : option Importer
}.

(** [getCrsGraph] is [Some] exactly when [hasCrsGraph()] holds. *)
Record Matrix : Type := {
  getLocalNumRows : Z;
  getColMap_getLocalNumElements : Z;
  graph_entries_extent : Z;
  getCrsGraph : option CrsGraph
}.

(** [MueLu::PerfModels] after its tables are built: only the lookups the
    reporter calls.  Each takes the value of the expression written at the
    call site. *)
Record PerfModels : Type := {
  stream_vector_lookup : Z -> double;
  latency_corrected_stream_vector_lookup : Z -> double;
  launch_latency_lookup : double;
  pingpong_device_lookup : Z -> double;
  halopong_device_lookup : double -> double
}.

(** The table-building calls made on the [PerfModels] object. *)
Inductive PMCall : Set :=
| stream_vector_make_table (nrepeat log_max : Z)
| pingpong_make_table (nrepeat log_max : Z)
| halopong_make_table (nrepeat log_max : Z).

(** One process of the communicator: its local matrix and its tables. *)
Record Rank : Type := {
  A : Matrix;
  PM : PerfModels
}.

(** Template parameters, platform and build options. *)
Record Config : Type := {
  sizeof_SC : Z;
  sizeof_LO : Z;
  (* [ceil(log(x) / log(2)) + 1] as the C library evaluates it *)
  log_max : Z -> Z;
  HAVE_MUELU_TPETRA : bool
}.

Definition sizeof_rowptr_type : Z := 8.   (* hardwired to [size_t] *)

Definition GB : double := (1024 * 1024 * 1024)%float.

Definition convert_time_to_bandwidth_gbs
    (time : double) (num_calls : Z) (memory_per_call_bytes : double) : double :=
  let time_per_call := (time / double_of_Z num_calls)%float in
  (memory_per_call_bytes / GB / time_per_call)%float.

(** [Teuchos::reduceAll] with [REDUCE_SUM] and [REDUCE_MAX] over the
    contributions of all ranks, in rank order. *)
Definition reduceAll_SUM (contrib : list double) : double :=
  match contrib with
  | [] => 0%float
  | v :: vs => foldl PrimFloat.add v vs
  end.

Definition reduceAll_MAX (contrib : list Z) (mine : Z) : Z :=
  foldr Z.max mine contrib.

Definition nproc (W : list Rank) : Z := Z.of_nat (length W).

(** The pattern [if (nproc > 1) { reduceAll(SUM); avg /= nproc; }]. *)
Definition rank_average (W : list Rank) (rk : Rank) (f : Rank -> double)
    : double :=
  if decide (nproc W > 1)
  then (reduceAll_SUM (f <$> W) / double_of_Z (nproc W))%float
  else f rk.

Definition NUM_TIMERS : nat := 6.

Definition m (M : Matrix) : Z := to_int (getLocalNumRows M).

Definition n (M : Matrix) : Z := to_int (getColMap_getLocalNumElements M).

Definition nnz (M : Matrix) : Z := to_int (graph_entries_extent M).

(** *** Lookup tables *)

Definition local_log_max (cfg : Config) (imp : Importer) : Z :=
  let recv_size := size_t_mul (getRemoteLIDs_size imp) (sizeof_SC cfg) in
  let send_size := size_t_mul (getExportLIDs_size imp) (sizeof_SC cfg) in
  log_max cfg (Z.max send_size recv_size).

(** Lines 169-177: the importer is used without a null test. *)
Definition halo_local_log_max (cfg : Config) (M : Matrix)
    : result (option Z) :=
  match getCrsGraph M with
  | None => Ok None
  | Some g =>
      match getImporter g with
      | None => Err NullReference
      | Some importer => Ok (Some (local_log_max cfg importer))
      end
  end.

Definition others_log_max (cfg : Config) (W : list Rank) : list Z :=
  omap (fun r => match halo_local_log_max cfg (A r) with
                 | Ok (Some l) => Some l
                 | _ => None
                 end) W.

Definition make_tables (cfg : Config) (W : list Rank) (rk : Rank)
    (nrepeat : Z) : result (list PMCall) :=
  let v_log_max := log_max cfg (nnz (A rk)) in
  let m_log_max := 15 in
  let calls := [stream_vector_make_table nrepeat v_log_max;
                pingpong_make_table nrepeat m_log_max] in
  l ← halo_local_log_max cfg (A rk);
  match l with
  | None => Ok calls
  | Some local =>
      let global_log_max := reduceAll_MAX (others_log_max cfg W) local in
      Ok (calls ++ [halopong_make_table nrepeat global_log_max])
  end.

(** *** Local time model *)

Definition SPMV_num_objects (cfg : Config) (M : Matrix) : list Z :=
  let v0 := replicate NUM_TIMERS 0 in
  let v1 := <[0%nat := nnz M]> v0 in                    (* colind *)
  let v2 := <[1%nat := to_int (m M + 1)]> v1 in         (* rowptr *)
  let v3 := <[2%nat := nnz M]> v2 in                    (* vals *)
  let v4 := <[3%nat := n M]> v3 in                      (* x *)
  let v5 := <[4%nat := m M]> v4 in                      (* y *)
  <[5%nat := to_int
      (size_t_add
        (size_t_add
          (size_t_add
            (size_t_add
              (size_t_mul (to_size_t (to_int (m M + 1))) sizeof_rowptr_type)
              (size_t_mul (to_size_t (nnz M)) (sizeof_LO cfg)))
            (size_t_mul (to_size_t (nnz M)) (sizeof_SC cfg)))
          (size_t_mul (to_size_t (n M)) (sizeof_SC cfg)))
        (size_t_mul (to_size_t (m M)) (sizeof_SC cfg)))]> v5.

Definition SPMV_object_size (cfg : Config) : list Z :=
  let v0 := replicate NUM_TIMERS 0 in
  let v1 := <[0%nat := to_int (sizeof_LO cfg)]> v0 in
  let v2 := <[1%nat := to_int sizeof_rowptr_type]> v1 in
  let v3 := <[2%nat := to_int (sizeof_SC cfg)]> v2 in
  let v4 := <[3%nat := to_int (sizeof_SC cfg)]> v3 in
  let v5 := <[4%nat := to_int (sizeof_SC cfg)]> v4 in
  <[5%nat := 1]> v5.

Definition SPMV_corrected : list Z :=
  let v0 := replicate NUM_TIMERS 0 in
  let v1 := <[0%nat := 1]> v0 in
  let v2 := <[1%nat := 1]> v1 in
  let v3 := <[2%nat := 1]> v2 in
  let v4 := <[3%nat := 1]> v3 in
  let v5 := <[4%nat := 1]> v4 in
  <[5%nat := 0]> v5.

Definition size_in_bytes (cfg : Config) (M : Matrix) (i : nat) : Z :=
  to_int (SPMV_object_size cfg !!! i * SPMV_num_objects cfg M !!! i).

Definition avg_time (cfg : Config) (rk : Rank) (i : nat) : double :=
  if decide (SPMV_corrected !!! i = 1)
  then latency_corrected_stream_vector_lookup (PM rk)
         (size_in_bytes cfg (A rk) i)
  else stream_vector_lookup (PM rk) (size_in_bytes cfg (A rk) i).

Definition avg_distributed (cfg : Config) (W : list Rank) (rk : Rank)
    (i : nat) : double :=
  rank_average W rk (fun r => avg_time cfg r i).

Definition memory_traffic (cfg : Config) (M : Matrix) (i : nat) : double :=
  (double_of_Z (SPMV_object_size cfg !!! i)
   * double_of_Z (SPMV_num_objects cfg M !!! i))%float.

Definition gb_per_sec (cfg : Config) (W : list Rank) (rk : Rank)
    : list double :=
  foldl (fun gb i =>
           <[i := convert_time_to_bandwidth_gbs
                    (avg_distributed cfg W rk i) 1
                    (memory_traffic cfg (A rk) i)]> gb)
        (replicate NUM_TIMERS 0%float) (seq 0 NUM_TIMERS).

Definition avg_latency (W : list Rank) (rk : Rank) : double :=
  rank_average W rk (fun r => launch_latency_lookup (PM r)).

(** *** Minimum SpMV time *)

Definition spmv_memory_bytes (cfg : Config) (M : Matrix) : list Z :=
  let init :=
    [ size_t_mul (to_size_t (to_int (m M + 1))) sizeof_rowptr_type; (* rowptr *)
      size_t_mul (to_size_t (nnz M)) (sizeof_LO cfg);               (* colind *)
      size_t_mul (to_size_t (nnz M)) (sizeof_SC cfg);               (* values *)
      size_t_mul (to_size_t (n M)) (sizeof_SC cfg);                 (* x *)
      size_t_mul (to_size_t (m M)) (sizeof_SC cfg);                 (* y *)
      0 ] in
  foldl (fun b i =>
           <[(NUM_TIMERS - 1)%nat :=
               size_t_add (b !!! (NUM_TIMERS - 1)%nat) (b !!! i)]> b)
        init (seq 0 (NUM_TIMERS - 1)).

(** [spmv_memory_bytes[i] / (GB * gb_per_sec[i])] *)
Definition time_of_slot (cfg : Config) (W : list Rank) (rk : Rank) (i : nat)
    : double :=
  (double_of_Z (spmv_memory_bytes cfg (A rk) !!! i)
   / (GB * gb_per_sec cfg W rk !!! i))%float.

Definition minimum_local_composite_time (cfg : Config) (W : list Rank)
    (rk : Rank) : double :=
  foldl (fun t i => (t + time_of_slot cfg W rk i)%float)
        (avg_latency W rk) (seq 0 (NUM_TIMERS - 1)).

Definition minimum_local_all_time (cfg : Config) (W : list Rank) (rk : Rank)
    : double :=
  time_of_slot cfg W rk (NUM_TIMERS - 1).

(** *** Remote part of the SpMV *)

Definition two : double := 2%float.

(** The loop over [send_lengths]: the total is assigned on every turn. *)
Definition send_loop (cfg : Config) (P : PerfModels) (send_lengths : list Z)
    : double * Z :=
  foldl (fun '(send_time, _) s =>
           ((send_time
             + pingpong_device_lookup P (size_t_mul s (sizeof_SC cfg)))%float,
            size_t_mul s (sizeof_SC cfg)))
        (0%float, 0) send_lengths.

(** The loop over [recv_lengths], [i] being the loop counter: the total is
    read from [send_lengths[i]]. *)
Fixpoint recv_loop (cfg : Config) (P : PerfModels)
    (send_lengths recv_lengths : list Z)
    (i : nat) (recv_time : double) (total_recv_length : Z)
    : result (double * Z) :=
  match recv_lengths with
  | [] => Ok (recv_time, total_recv_length)
  | r :: rest =>
      let recv_time' :=
        (recv_time
         + pingpong_device_lookup P (size_t_mul r (sizeof_SC cfg)))%float in
      match send_lengths !! i with
      | None => Err OutOfRange
      | Some s =>
          recv_loop cfg P send_lengths rest (S i) recv_time'
            (size_t_mul s (sizeof_SC cfg))
      end
  end.

Record MessageTimes : Type := {
  send_time : double;
  recv_time : double;
  halo_time : double;
  total_send_length : Z;
  total_recv_length : Z;
  avg_size_per_msg : double;
  (* the arguments [halopong_device_lookup] was called with *)
  halopong_lookups : list double
}.

Definition no_messages : MessageTimes :=
  {| send_time := 0%float; recv_time := 0%float; halo_time := 0%float;
     total_send_length := 0; total_recv_length := 0;
     avg_size_per_msg := 0%float; halopong_lookups := [] |}.

Definition message_times (cfg : Config) (P : PerfModels) (importer : Importer)
    : result MessageTimes :=
  if HAVE_MUELU_TPETRA cfg then
    match getTpetra_Import importer with
    | None => Ok no_messages
    | Some distor =>
        let recv_lengths := getLengthsFrom distor in
        let send_lengths := getLengthsTo distor in
        let '(st, tsl) := send_loop cfg P send_lengths in
        '(rt, trl) ← recv_loop cfg P send_lengths recv_lengths 0 0%float 0;
        let avg :=
          (double_of_Z tsl
           / (two * double_of_Z (Z.of_nat (length send_lengths)))
           + double_of_Z trl
             / (two * double_of_Z (Z.of_nat (length recv_lengths))))%float in
        Ok {| send_time := st; recv_time := rt;
              halo_time := halopong_device_lookup P avg;
              total_send_length := tsl; total_recv_length := trl;
              avg_size_per_msg := avg; halopong_lookups := [avg] |}
    end
  else Ok no_messages.

Definition fmax (a b : double) : double :=   (* [std::max] *)
  if (a <? b)%float then b else a.

Record RemoteTimes : Type := {
  time_pack_unpack_outofplace : double;
  time_pack_unpack_inplace : double;
  time_communicate_ping : double;
  time_communicate_halo : double
}.

Definition no_remote : RemoteTimes :=
  {| time_pack_unpack_outofplace := 0%float;
     time_pack_unpack_inplace := 0%float;
     time_communicate_ping := 0%float;
     time_communicate_halo := 0%float |}.

Definition remote_times (cfg : Config) (W : list Rank) (rk : Rank)
    : result RemoteTimes :=
  match getCrsGraph (A rk) with
  | None => Ok no_remote
  | Some g =>
      match getImporter g with
      | None => Ok no_remote
      | Some importer =>
          let P := PM rk in
          let lc := latency_corrected_stream_vector_lookup P in
          let lat := avg_latency W rk in
          let SC := sizeof_SC cfg in
          let LO := sizeof_LO cfg in
          let num_sames := getNumSameIDs importer in
          let same_time :=
            if decide (num_sames = 0) then 0%float
            else (two * lc (size_t_mul num_sames SC) + lat)%float in
          let num_permutes := getNumPermuteIDs importer in
          let permute_time :=
            if decide (num_permutes = 0) then 0%float
            else (two * lc (size_t_mul num_permutes LO)
                  + two * lc (size_t_mul num_permutes SC) + lat)%float in
          let num_exports := getNumExportIDs importer in
          let export_time :=
            if decide (num_exports = 0) then 0%float
            else (lc (size_t_mul num_exports LO)
                  + two * lc (size_t_mul num_exports SC) + lat)%float in
          let num_remotes := getNumRemoteIDs importer in
          let remote_time :=
            if decide (num_remotes = 0) then 0%float
            else (lc (size_t_mul num_remotes LO)
                  + two * lc (size_t_mul num_remotes SC) + lat)%float in
          mt ← message_times cfg P importer;
          Ok {| time_pack_unpack_outofplace :=
                  (same_time + permute_time + export_time + remote_time)%float;
                time_pack_unpack_inplace := (permute_time + export_time)%float;
                time_communicate_ping := fmax (send_time mt) (recv_time mt);
                time_communicate_halo := halo_time mt |}
      end
  end.

(** *** The whole report *)

Record Report : Type := {
  pm_calls : list PMCall;
  minimum_time_composite : double;
  minimum_time_all : double;
  remote : RemoteTimes
}.

Definition report_performance_models (cfg : Config)
    (W : list Rank) (rk : Rank) (nrepeat : Z) : result Report :=
  calls ← make_tables cfg W rk nrepeat;
  rem ← remote_times cfg W rk;
  Ok {| pm_calls := calls;
        minimum_time_composite := minimum_local_composite_time cfg W rk;
        minimum_time_all := minimum_local_all_time cfg W rk;
        remote := rem |}.

(** *** Byte volumes of the five objects, as exact integers *)

Definition rowptr_bytes (M : Matrix) : Z := (m M + 1) * sizeof_rowptr_type.

Definition colind_bytes (cfg : Config) (M : Matrix) : Z :=
  nnz M * sizeof_LO cfg.

Definition values_bytes (cfg : Config) (M : Matrix) : Z :=
  nnz M * sizeof_SC cfg.

Definition x_bytes (cfg : Config) (M : Matrix) : Z := n M * sizeof_SC cfg.

Definition y_bytes (cfg : Config) (M : Matrix) : Z := m M * sizeof_SC cfg.

Definition all_bytes (cfg : Config) (M : Matrix) : Z :=
  rowptr_bytes M + colind_bytes cfg M + values_bytes cfg M
  + x_bytes cfg M + y_bytes cfg M.

(** The element sizes are those of real types, and the local byte volume
    fits the [int] the lookups are called with. *)
Definition sizes_fit (cfg : Config) : Prop :=
  0 < sizeof_SC cfg < 2 ^ 31 /\ 0 < sizeof_LO cfg < 2 ^ 31.

Definition volumes_fit (cfg : Config) (M : Matrix) : Prop :=
  0 <= m M /\ 0 <= n M /\ 0 <= nnz M /\ all_bytes cfg M < 2 ^ 31.

(** The factors of timer [i]: object size and number of objects. *)
Definition timer_factors (cfg : Config) (M : Matrix) : list (Z * Z) :=
  [ (to_int (sizeof_LO cfg), nnz M);
    (to_int sizeof_rowptr_type, to_int (m M + 1));
    (to_int (sizeof_SC cfg), nnz M);
    (to_int (sizeof_SC cfg), n M);
    (to_int (sizeof_SC cfg), m M);
    (1, SPMV_num_objects cfg M !!! 5%nat) ].

(** The term of one correctly paired object: its byte volume over the
    bandwidth found at its own size. *)
Definition object_term (W : list Rank) (rk : Rank) (bytes : Matrix -> Z)
    : double :=
  let t := rank_average W rk
             (fun r => latency_corrected_stream_vector_lookup (PM r)
                         (bytes (A r))) in
  let b := double_of_Z (bytes (A rk)) in
  (b / (GB * convert_time_to_bandwidth_gbs t 1 b))%float.

(** *** The two models as the specification words them *)

(** One object of [bytes] bytes: its byte volume divided by the bandwidth
    obtained from the latency-corrected lookup at that same size. *)
Definition claimed_object_time (rk : Rank) (bytes : Z) : double :=
  let t := latency_corrected_stream_vector_lookup (PM rk) bytes in
  let bw := convert_time_to_bandwidth_gbs t 1 (double_of_Z bytes) in
  (double_of_Z bytes / (GB * bw))%float.

Definition five_objects (cfg : Config) (M : Matrix) : list Z :=
  [ rowptr_bytes M; colind_bytes cfg M; values_bytes cfg M;
    x_bytes cfg M; y_bytes cfg M ].

(** The sum over the five objects, with a latency term per object read
    ([per_object = true]) or, read the other way, with one latency term in
    all. *)
Definition composite_time_claimed (cfg : Config) (rk : Rank)
    (per_object : bool) : double :=
  let lat := launch_latency_lookup (PM rk) in
  if per_object
  then foldl (fun t b => (t + (lat + claimed_object_time rk b))%float)
             0%float (five_objects cfg (A rk))
  else foldl (fun t b => (t + claimed_object_time rk b)%float)
             lat (five_objects cfg (A rk)).

(** One lookup in the uncorrected table at the sum of all touched bytes. *)
Definition all_time_claimed (cfg : Config) (rk : Rank) : double :=
  let bytes := all_bytes cfg (A rk) in
  let t := stream_vector_lookup (PM rk) bytes in
  let bw := convert_time_to_bandwidth_gbs t 1 (double_of_Z bytes) in
  (double_of_Z bytes / (GB * bw))%float.

(** *** Sample inputs *)

(** [(int)(ceil(log(x) / log(2)) + 1)] as the C library of an x86-64 GNU
    system evaluates it, for arguments up to 2^32.  The logarithm of zero is
    an infinity and that of a negative number a NaN, and the conversion of
    either to [int] gives [INT_MIN].  The quotient of the two rounded
    logarithms is the exact exponent at every power of two but 2^29 and 2^31,
    where it lies just above it and [ceil] adds one; between the powers of
    two it lies strictly between the exponents. *)
Definition glibc_log_max (x : Z) : Z :=
  if decide (x <= 0) then - 2 ^ 31
  else if decide (x = 2 ^ 29 \/ x = 2 ^ 31) then Z.log2_up x + 2
  else Z.log2_up x + 1.

Definition double_int_config : Config :=
  {| sizeof_SC := 8; sizeof_LO := 4;
     log_max := glibc_log_max;
     HAVE_MUELU_TPETRA := true |}.

(** Tables whose time grows faster than the size, in nanoseconds. *)
Definition sample_tables : PerfModels :=
  {| stream_vector_lookup := fun s => double_of_Z (s * s + 1000);
     latency_corrected_stream_vector_lookup := fun s => double_of_Z (s * s + 10);
     launch_latency_lookup := 5%float;
     pingpong_device_lookup := fun s => double_of_Z (s + 100);
     halopong_device_lookup := fun a => a |}.

Definition small_matrix : Matrix :=
  {| getLocalNumRows := 3; getColMap_getLocalNumElements := 3;
     graph_entries_extent := 10; getCrsGraph := None |}.

Definition small_rank : Rank := {| A := small_matrix; PM := sample_tables |}.

(** 2^28 local nonzeros: 3 GiB of indices and values. *)
Definition large_matrix : Matrix :=
  {| getLocalNumRows := 0; getColMap_getLocalNumElements := 0;
     graph_entries_extent := 2 ^ 28; getCrsGraph := None |}.

Definition large_rank : Rank := {| A := large_matrix; PM := sample_tables |}.

(** A matrix on one process: it has a graph, and the graph no importer. *)
Definition serial_matrix : Matrix :=
  {| getLocalNumRows := 3; getColMap_getLocalNumElements := 3;
     graph_entries_extent := 10;
     getCrsGraph := Some {| getImporter := None |} |}.

Definition serial_rank : Rank := {| A := serial_matrix; PM := sample_tables |}.

(** An importer that sends 3, 5 and 7 entries to three peers and receives
    2 and 4 entries from two. *)
Definition sample_distributor : Distributor :=
  {| getLengthsFrom := [2; 4]; getLengthsTo := [3; 5; 7] |}.

Definition sample_importer : Importer :=
  {| getRemoteLIDs_size := 6; getExportLIDs_size := 15;
     getNumSameIDs := 10; getNumPermuteIDs := 0;
     getNumExportIDs := 15; getNumRemoteIDs := 6;
     getTpetra_Import := Some sample_distributor |}.

End PerfReport.

(** ** The contiguous-map builder *)

Module ContiguousMaps.

(** A [Tpetra::Map], seen from the whole communicator: for each process,
    in rank order, the global identifiers it owns in local-index order. *)
Record map_type : Type := {
  getGlobalNumElements : Z;
  getIndexBase : Z;
  LocalElementLists : list (list Z);
  isContiguous : bool
}.

(** [getLocalNumElements()] on each process. *)
Definition getLocalNumElements (mp : map_type) : list nat :=
  length <$> LocalElementLists mp.

(** An [RCP<const map_type>] is the address of a map object: two pointers
    are the same object exactly when they are equal. *)
Definition RCP : Type := positive.

Definition heap : Type := gmap positive map_type.

Definition deref (h : heap) (r : RCP) : result map_type :=
  match h !! r with
  | Some mp => Ok mp
  | None => Err NullReference
  end.

(** [rcp(new map_type(...))]: a new object at an address not in use. *)
Definition rcp_new (h : heap) (mp : map_type) : heap * RCP :=
  let l := fresh (dom h) in (<[l := mp]> h, l).

(** Modelled from the spec: the two constructors of [Tpetra::Map] and
    [Tpetra::Vector::doImport], which are Tpetra code and not under src/.
    The contiguous constructor takes the global count, each process's local
    count and the index base, and gives every process one unbroken run of
    identifiers, the runs following each other in rank order from the
    index base ("a brand-new contiguous domain map of the same
    size/distribution", "renumbering using local-to-global rank-ordering").
    The list constructor takes the identifiers as given.  An import with
    [INSERT] writes into each target entry the source entry that has the
    same global identifier in the source map ("importing translated
    identifiers across the halo"); the target starts out as zeros. *)
Fixpoint contiguous_lists (first : Z) (numLocal : list nat) : list (list Z) :=
  match numLocal with
  | [] => []
  | k :: rest =>
      seqZ first (Z.of_nat k) :: contiguous_lists (first + Z.of_nat k) rest
  end.

Definition new_contiguous_map (numGlobal : Z) (numLocal : list nat)
    (indexBase : Z) : map_type :=
  {| getGlobalNumElements := numGlobal;
     getIndexBase := indexBase;
     LocalElementLists := contiguous_lists indexBase numLocal;
     isContiguous := true |}.

Definition new_map_from_lists (numGlobal : Z) (indexList : list (list Z))
    (indexBase : Z) : map_type :=
  {| getGlobalNumElements := numGlobal;
     getIndexBase := indexBase;
     LocalElementLists := indexList;
     isContiguous := false |}.

(** The value a source vector holds at each global identifier. *)
Definition directory (source_map : map_type) (source : list (list Z))
    : gmap Z Z :=
  list_to_map (zip (concat (LocalElementLists source_map)) (concat source)).

Definition doImport (source_map : map_type) (source : list (list Z))
    (target_map : map_type) : list (list Z) :=
  (fun gids : list Z =>
     (fun g => default 0 (directory source_map source !! g)) <$> gids)
    <$> LocalElementLists target_map.

(** The importer of the matrix graph, from the domain map to the column
    map; the builder only tests it for null and hands it to [doImport]. *)
Variant import_type : Set := domain_to_column.

Record crs_matrix_type : Type := {
  getRowMap : RCP;
  getDomainMap : RCP;
  getColMap : RCP;
  getImporter : option import_type
}.

(** The three output pointers are returned as (row, column, domain). *)
Definition MakeContiguousMaps (h : heap) (Matrix : crs_matrix_type)
    : result (heap * (RCP * RCP * RCP)) :=
  let RowMap := getRowMap Matrix in
  let DomainMap := getDomainMap Matrix in
  let ColumnMap := getColMap Matrix in
  let importer := getImporter Matrix in
  rowmap ← deref h RowMap;
  let '(h1, ContiguousRowMap) :=
    if isContiguous rowmap
    then (h, RowMap)
    else rcp_new h (new_contiguous_map (getGlobalNumElements rowmap)
                      (getLocalNumElements rowmap) 0) in
  domainmap ← deref h1 DomainMap;
  if isContiguous domainmap
  then Ok (h1, (ContiguousRowMap, ColumnMap, DomainMap))
  else
    let contiguous_domain :=
      new_contiguous_map (getGlobalNumElements domainmap)
        (getLocalNumElements domainmap) 0 in
    let '(h2, ContiguousDomainMap) := rcp_new h1 contiguous_domain in
    columnmap ← deref h2 ColumnMap;
    match importer with
    | Some _ =>
        let MyGIDsHYPRE := LocalElementLists contiguous_domain in
        let ColGIDsHYPRE := doImport domainmap MyGIDsHYPRE columnmap in
        let '(h3, ContiguousColumnMap) :=
          rcp_new h2 (new_map_from_lists (getGlobalNumElements columnmap)
                        ColGIDsHYPRE 0) in
        Ok (h3, (ContiguousRowMap, ContiguousColumnMap, ContiguousDomainMap))
    | None =>
        let '(h3, ContiguousColumnMap) :=
          rcp_new h2 (new_map_from_lists (getGlobalNumElements columnmap)
                        (LocalElementLists contiguous_domain) 0) in
        Ok (h3, (ContiguousRowMap, ContiguousColumnMap, ContiguousDomainMap))
    end.

(** *** Notions used in the statements *)

(** The identifiers of one process form a single unbroken run. *)
Definition contiguous_run (l : list Z) : bool :=
  bool_decide (l = seqZ (hd 0 l) (Z.of_nat (length l))).

(** The identifiers of all processes, in rank order. *)
Definition all_identifiers (mp : map_type) : list Z :=
  concat (LocalElementLists mp).

(** The input maps make a valid matrix: the domain map is one-to-one, and
    on every process the column identifiers are distinct and owned by the
    domain map. *)
Definition valid_columns (domainmap columnmap : map_type) : Prop :=
  NoDup (all_identifiers domainmap)
  /\ Forall (fun gids => NoDup gids
                         /\ Forall (fun g => g ∈ all_identifiers domainmap) gids)
            (LocalElementLists columnmap).

(** The output maps as lists: (row, column, domain). *)
Definition output_lists (h : heap) (Matrix : crs_matrix_type)
    : option (list (list Z) * list (list Z) * list (list Z)) :=
  match MakeContiguousMaps h Matrix with
  | Ok (h', (r, c, d)) =>
      rm ← h' !! r; cm ← h' !! c; dm ← h' !! d;
      Some (LocalElementLists rm, LocalElementLists cm, LocalElementLists dm)
  | Err _ => None
  end.

(** *** Sample input: two processes, a halo of one column each *)

Definition scattered_rows : map_type :=
  new_map_from_lists 4 [[0; 2]; [1; 3]] 0.

Definition scattered_columns : map_type :=
  new_map_from_lists 4 [[0; 2; 3]; [1; 3; 0]] 0.

Definition linear_rows : map_type := new_contiguous_map 4 [2%nat; 2%nat] 0.

Definition sample_heap : heap :=
  <[1%positive := scattered_rows]>
    (<[2%positive := scattered_columns]> (<[3%positive := linear_rows]> ∅)).

Definition scattered_matrix : crs_matrix_type :=
  {| getRowMap := 1%positive; getDomainMap := 1%positive;
     getColMap := 2%positive; getImporter := Some domain_to_column |}.

Definition linear_matrix : crs_matrix_type :=
  {| getRowMap := 3%positive; getDomainMap := 3%positive;
     getColMap := 2%positive; getImporter := Some domain_to_column |}.

End ContiguousMaps.

(** ** Backend selection and the experiment loop *)

Module Driver.

(** [enum class Experiments { MKL=0, TPETRA, KK, CUSPARSE, MAGMASPARSE,
    HYPRE, PETSC }] *)
Inductive Experiments : Set :=
| MKL | TPETRA | KK | CUSPARSE | MAGMASPARSE | HYPRE | PETSC.

#[global] Instance Experiments_eq_dec : EqDecision Experiments.
Proof. solve_decision. Defined.

Definition experiment_id (e : Experiments) : Z :=
  match e with
  | MKL => 0 | TPETRA => 1 | KK => 2 | CUSPARSE => 3
  | MAGMASPARSE => 4 | HYPRE => 5 | PETSC => 6
  end.

Definition experiment_of_id (z : Z) : option Experiments :=
  match z with
  | 0 => Some MKL | 1 => Some TPETRA | 2 => Some KK | 3 => Some CUSPARSE
  | 4 => Some MAGMASPARSE | 5 => Some HYPRE | 6 => Some PETSC
  | _ => None
  end.

(** *** Build options and command line *)

Record Build : Type := {
  HAVE_MUELU_MKL : bool;
  HAVE_MUELU_CUSPARSE : bool;
  HAVE_MUELU_MAGMASPARSE : bool;
  HAVE_MUELU_HYPRE : bool;
  HAVE_MUELU_PETSC : bool;
  HAVE_MPI : bool;
  HAVE_MUELU_TPETRA : bool;
  (* [std::is_same<NO, KokkosCudaWrapperNode>::value] *)
  node_is_cuda : bool
}.

Record Flags : Type := {
  do_mkl : bool;
  do_tpetra : bool;
  do_kk : bool;
  do_cusparse : bool;
  do_magmasparse : bool;
  do_hypre : bool;
  do_petsc : bool;
  report_error_norms : bool
}.

(** What the user wrote: [Some true] for [--mkl], [Some false] for
    [--nomkl], [None] when neither is given. *)
Record CommandLine : Type := {
  opt_mkl : option bool;
  opt_tpetra : option bool;
  opt_kk : option bool;
  opt_cusparse : option bool;
  opt_magmasparse : option bool;
  opt_hypre : option bool;
  opt_petsc : option bool;
  opt_report_error_norms : option bool;
  opt_nrepeat : option Z
}.

(** Lines 1130-1154: the defaults, switched off for what is not built. *)
Definition default_flags (b : Build) : Flags :=
  {| do_mkl := HAVE_MUELU_MKL b;
     do_tpetra := true;
     do_kk := true;
     do_cusparse := HAVE_MUELU_CUSPARSE b;
     do_magmasparse := HAVE_MUELU_MAGMASPARSE b;
     do_hypre := HAVE_MUELU_HYPRE b && HAVE_MPI b;
     do_petsc := HAVE_MUELU_PETSC b && HAVE_MPI b;
     report_error_norms := false |}.

(** [clp.setOption] and [clp.parse]: an option given overrides the default. *)
Definition parse (cl : CommandLine) (f : Flags) : Flags :=
  {| do_mkl := default (do_mkl f) (opt_mkl cl);
     do_tpetra := default (do_tpetra f) (opt_tpetra cl);
     do_kk := default (do_kk f) (opt_kk cl);
     do_cusparse := default (do_cusparse f) (opt_cusparse cl);
     do_magmasparse := default (do_magmasparse f) (opt_magmasparse cl);
     do_hypre := default (do_hypre f) (opt_hypre cl);
     do_petsc := default (do_petsc f) (opt_petsc cl);
     report_error_norms :=
       default (report_error_norms f) (opt_report_error_norms cl) |}.

Definition nrepeat (cl : CommandLine) : Z := default 1000 (opt_nrepeat cl).

Definition set_do_mkl (v : bool) (f : Flags) : Flags :=
  {| do_mkl := v; do_tpetra := do_tpetra f; do_kk := do_kk f;
     do_cusparse := do_cusparse f; do_magmasparse := do_magmasparse f;
     do_hypre := do_hypre f; do_petsc := do_petsc f;
     report_error_norms := report_error_norms f |}.

Definition set_do_kk (v : bool) (f : Flags) : Flags :=
  {| do_mkl := do_mkl f; do_tpetra := do_tpetra f; do_kk := v;
     do_cusparse := do_cusparse f; do_magmasparse := do_magmasparse f;
     do_hypre := do_hypre f; do_petsc := do_petsc f;
     report_error_norms := report_error_norms f |}.

Definition set_do_cusparse (v : bool) (f : Flags) : Flags :=
  {| do_mkl := do_mkl f; do_tpetra := do_tpetra f; do_kk := do_kk f;
     do_cusparse := v; do_magmasparse := do_magmasparse f;
     do_hypre := do_hypre f; do_petsc := do_petsc f;
     report_error_norms := report_error_norms f |}.

Definition set_do_magmasparse (v : bool) (f : Flags) : Flags :=
  {| do_mkl := do_mkl f; do_tpetra := do_tpetra f; do_kk := do_kk f;
     do_cusparse := do_cusparse f; do_magmasparse := v;
     do_hypre := do_hypre f; do_petsc := do_petsc f;
     report_error_norms := report_error_norms f |}.

Definition set_do_hypre (v : bool) (f : Flags) : Flags :=
  {| do_mkl := do_mkl f; do_tpetra := do_tpetra f; do_kk := do_kk f;
     do_cusparse := do_cusparse f; do_magmasparse := do_magmasparse f;
     do_hypre := v; do_petsc := do_petsc f;
     report_error_norms := report_error_norms f |}.

Definition set_do_petsc (v : bool) (f : Flags) : Flags :=
  {| do_mkl := do_mkl f; do_tpetra := do_tpetra f; do_kk := do_kk f;
     do_cusparse := do_cusparse f; do_magmasparse := do_magmasparse f;
     do_hypre := do_hypre f; do_petsc := v;
     report_error_norms := report_error_norms f |}.

(** *** Lines 1187-1227: disabling what cannot run

    Each block reads the flags and the text written to [out] so far and
    returns both. *)

Definition kk_warning : string :=
  "KK was requested, but this kernel this cannot be run on more than one rank. Disabling...".

Definition mkl_warning : string :=
  "MKL was requested, but this kernel is not available. Disabling...".

Definition cusparse_warning : string :=
  "CuSparse was requested, but this kernel is not available. Disabling...".

Definition magmasparse_warning : string :=
  "MagmaSparse was requested, but this kernel is not available. Disabling...".

Definition hypre_warning : string :=
  "Hypre was requested, but this kernel is not available. Disabling...".

Definition petsc_warning : string :=
  "Petsc was requested, but this kernel is not available. Disabling...".

Definition State : Type := Flags * list string.

Definition check_kk (numProc : Z) (st : State) : State :=
  let '(f, out) := st in
  if do_kk f && bool_decide (numProc > 1)
  then (set_do_kk false f, out ++ [kk_warning])
  else st.

Definition check_mkl (b : Build) (st : State) : State :=
  let '(f, out) := st in
  if HAVE_MUELU_MKL b then st
  else if do_mkl f then (set_do_mkl false f, out ++ [mkl_warning]) else st.

Definition check_cusparse (b : Build) (st : State) : State :=
  let '(f, out) := st in
  if HAVE_MUELU_CUSPARSE b
  then if node_is_cuda b then st else (set_do_cusparse false f, out)
  else if do_cusparse f
       then (set_do_cusparse false f, out ++ [cusparse_warning])
       else st.

Definition check_magmasparse (b : Build) (st : State) : State :=
  let '(f, out) := st in
  if HAVE_MUELU_MAGMASPARSE b then st
  else if do_magmasparse f
       then (set_do_magmasparse false f, out ++ [magmasparse_warning])
       else st.

Definition check_hypre (b : Build) (st : State) : State :=
  let '(f, out) := st in
  if HAVE_MUELU_HYPRE b then st
  else if do_hypre f then (set_do_hypre false f, out ++ [hypre_warning])
       else st.

(** Lines 1222-1227: the test reads [do_hypre]. *)
Definition check_petsc (b : Build) (st : State) : State :=
  let '(f, out) := st in
  if HAVE_MUELU_PETSC b then st
  else if do_hypre f then (set_do_petsc false f, out ++ [petsc_warning])
       else st.

Definition disable_unavailable (b : Build) (numProc : Z) (f : Flags) : State :=
  check_petsc b
    (check_hypre b
      (check_magmasparse b
        (check_cusparse b
          (check_mkl b
            (check_kk numProc (f, [])))))).

(** Lines 1240-1265: the experiments that will be run. *)
Definition push_back_if (c : bool) (e : Experiments) (v : list Experiments)
    : list Experiments :=
  if c then v ++ [e] else v.

Definition make_experiments (b : Build) (f : Flags) : list Experiments :=
  let v0 := [] in
  let v1 := push_back_if (HAVE_MUELU_MKL b && do_mkl f) MKL v0 in
  let v2 := push_back_if (HAVE_MUELU_CUSPARSE b && do_cusparse f) CUSPARSE v1 in
  let v3 := push_back_if (HAVE_MUELU_MAGMASPARSE b && do_magmasparse f)
              MAGMASPARSE v2 in
  let v4 := push_back_if (HAVE_MUELU_HYPRE b && HAVE_MPI b && do_hypre f)
              HYPRE v3 in
  let v5 := push_back_if (HAVE_MUELU_PETSC b && HAVE_MPI b && do_petsc f)
              PETSC v4 in
  let v6 := push_back_if (do_tpetra f) TPETRA v5 in
  push_back_if (do_kk f) KK v6.

(** The set-up phase of [main_]: final flags, warnings, experiment list. *)
Record Setup : Type := {
  flags : Flags;
  warnings : list string;
  my_experiments : list Experiments
}.

Definition setup (b : Build) (cl : CommandLine) (numProc : Z) : Setup :=
  let '(f, out) := disable_unavailable b numProc (parse cl (default_flags b)) in
  {| flags := f; warnings := out; my_experiments := make_experiments b f |}.

(** Whether the [switch] of the experiment loop has a [case] for a backend
    (lines 1444-1521); any other value goes to [default]. *)
Definition case_compiled (b : Build) (e : Experiments) : bool :=
  match e with
  | MKL => HAVE_MUELU_MKL b
  | TPETRA | KK => HAVE_MUELU_TPETRA b
  | CUSPARSE => HAVE_MUELU_CUSPARSE b
  | MAGMASPARSE => HAVE_MUELU_MAGMASPARSE b
  | HYPRE => HAVE_MUELU_HYPRE b
  | PETSC => HAVE_MUELU_PETSC b
  end.

(** The backends that come from a third-party library. *)
Definition third_party (e : Experiments) : bool :=
  match e with
  | TPETRA | KK => false
  | _ => true
  end.

Definition requested (cl : CommandLine) (e : Experiments) : bool :=
  bool_decide
    (match e with
     | MKL => opt_mkl cl
     | TPETRA => opt_tpetra cl
     | KK => opt_kk cl
     | CUSPARSE => opt_cusparse cl
     | MAGMASPARSE => opt_magmasparse cl
     | HYPRE => opt_hypre cl
     | PETSC => opt_petsc cl
     end = Some true).

Definition flag_of (f : Flags) (e : Experiments) : bool :=
  match e with
  | MKL => do_mkl f
  | TPETRA => do_tpetra f
  | KK => do_kk f
  | CUSPARSE => do_cusparse f
  | MAGMASPARSE => do_magmasparse f
  | HYPRE => do_hypre f
  | PETSC => do_petsc f
  end.

Definition warning_of (e : Experiments) : string :=
  match e with
  | MKL => mkl_warning
  | TPETRA => ""
  | KK => kk_warning
  | CUSPARSE => cusparse_warning
  | MAGMASPARSE => magmasparse_warning
  | HYPRE => hypre_warning
  | PETSC => petsc_warning
  end.

(** A block only ever appends warnings and switches flags off. *)
Definition monotone (c : State -> State) : Prop :=
  forall st,
    (forall w, w ∈ st.2 -> w ∈ (c st).2)
    /\ (forall e, flag_of st.1 e = false -> flag_of (c st).1 e = false).

(** A block leaves the flags of the other backends alone. *)
Definition frames (c : State -> State) (handled : Experiments) : Prop :=
  forall st e, e <> handled -> flag_of (c st).1 e = flag_of st.1 e.

(** *** The experiment loop *)

Definition vector : Type := list double.

Definition one : double := 1%float.

Definition putScalar (v : vector) (c : double) : vector :=
  replicate (length v) c.

(** ||v||_2, the entries added in index order. *)
Definition norm2 (v : vector) : double :=
  PrimFloat.sqrt (foldl (fun acc a => (acc + a * a)%float) 0%float v).

(** [this->update(alpha, A, beta)]: this = beta * this + alpha * A, entry
    by entry over the entries of [this]. *)
Definition update (this : vector) (alpha : double) (a : vector) (beta : double)
    : vector :=
  imap (fun i t => (beta * t + alpha * (a !!! i))%float) this.

(** What one line of the loop writes: the [default] branch to [cerr], the
    norm report to [cout]. *)
Inductive Line : Type :=
| unknown_experiment (id : Z)
| norm_report (e : Experiments)
    (y_err y_norm2 y_baseline_norm2 : double)
    (norms_equal : bool)             (* ||y_ptr|| == ||y_mv|| *)
    (y_mv_norm2_next_itr : double).

(** One process.  [y] is the buffer behind both [y] and [yt]: the Tpetra
    vector [yt] is a view of the Xpetra vector [y]. *)
Record Process : Type := {
  experiments : list Experiments;   (* [my_experiments] *)
  y : vector;
  y_baseline : vector;
  output : list Line;
  dispatched : list Experiments;    (* values the [switch] was entered with *)
  invoked : list Experiments        (* kernels called, in order *)
}.

Definition with_experiments (v : list Experiments) (p : Process) : Process :=
  {| experiments := v; y := y p; y_baseline := y_baseline p;
     output := output p; dispatched := dispatched p; invoked := invoked p |}.

(** What the loop is run with: the build, the flag, the input vector and
    the kernels.  [kernel e x y] is the content of the output buffer after
    backend [e] ran on input [x] with the buffer holding [y]. *)
Record Env : Type := {
  build : Build;
  norms_wanted : bool;              (* [report_error_norms] *)
  num_rows : nat;                   (* length of [y] and [y_baseline] *)
  x : vector;
  kernel : Experiments -> vector -> vector -> vector
}.

(** [error_check_y] is a constant of the build. *)
Definition error_check_y (env : Env) : bool := HAVE_MUELU_TPETRA (build env).

(** The [switch] on [experiment_id]. *)
Definition dispatch (env : Env) (e : Experiments) (p : Process) : Process :=
  if case_compiled (build env) e
  then {| experiments := experiments p;
          y := kernel env e (x env) (y p);
          y_baseline := y_baseline p;
          output := output p;
          dispatched := dispatched p ++ [e];
          invoked := invoked p ++ [e] |}
  else {| experiments := experiments p;
          y := y p;
          y_baseline := y_baseline p;
          output := output p ++ [unknown_experiment (experiment_id e)];
          dispatched := dispatched p ++ [e];
          invoked := invoked p |}.

(** Lines 1528-1562. *)
Definition check_norms (env : Env) (e : Experiments) (p : Process) : Process :=
  if error_check_y env && norms_wanted env
  then
    let y_norm2 := norm2 (y p) in
    let y_mv_norm2 := norm2 (y p) in
    let y1 := update (y p) (- one)%float (y_baseline p) one in
    let y_err := norm2 y1 in
    let y2 := putScalar y1 nan in
    let y_baseline_norm2 := norm2 (y_baseline p) in
    let y_mv_norm2_next_itr := norm2 y2 in
    {| experiments := experiments p;
       y := y2;
       y_baseline := y_baseline p;
       output := output p ++
         [norm_report e y_err y_norm2 y_baseline_norm2
            (y_mv_norm2 =? y_norm2)%float y_mv_norm2_next_itr];
       dispatched := dispatched p;
       invoked := invoked p |}
  else p.

Definition run_experiment (env : Env) (p : Process) (e : Experiments)
    : Process :=
  check_norms env e (dispatch env e p).

(** [for (const auto& experiment_id : my_experiments)] *)
Definition run_experiments (env : Env) (p : Process) : Process :=
  foldl (run_experiment env) p (experiments p).

(** The random source: the numbers the engine yields, and how many have
    been taken. *)
Record URBG : Type := {
  draws : nat -> nat;
  taken : nat
}.

(** A number in [0, bound]. *)
Definition uniform (g : URBG) (bound : nat) : nat * URBG :=
  ((draws g (taken g) mod S bound)%nat,
   {| draws := draws g; taken := S (taken g) |}).

Definition iter_swap {X : Type} (v : list X) (i j : nat) : list X :=
  match v !! i, v !! j with
  | Some a, Some b => <[i := b]> (<[j := a]> v)
  | _, _ => v
  end.

(** [std::shuffle]: for [i] from 1 up, swap [v[i]] with [v[uniform(0, i)]]. *)
Fixpoint shuffle_from {X : Type} (steps i : nat) (v : list X) (g : URBG)
    : list X * URBG :=
  match steps with
  | O => (v, g)
  | S steps' =>
      let '(j, g') := uniform g i in
      shuffle_from steps' (S i) (iter_swap v i j) g'
  end.

Definition shuffle {X : Type} (v : list X) (g : URBG) : list X * URBG :=
  shuffle_from (length v - 1)%nat 1 v g.

(** The vector as raw bytes: every element is an [int], little endian. *)
Definition sizeof_Experiments : Z := 4.

Definition to_bytes (e : Experiments) : list Z :=
  let v := experiment_id e in
  [v mod 256; v / 256 mod 256; v / 65536 mod 256; v / 16777216 mod 256].

Definition data (v : list Experiments) : list Z :=
  concat (to_bytes <$> v).

Fixpoint from_data (bytes : list Z) : option (list Experiments) :=
  match bytes with
  | [] => Some []
  | b0 :: b1 :: b2 :: b3 :: rest =>
      e ← experiment_of_id (b0 + 256 * b1 + 65536 * b2 + 16777216 * b3);
      es ← from_data rest;
      Some (e :: es)
  | _ => None
  end.

(** [comm->broadcast(0, count, buffer)] on a process other than the root:
    the first [count] bytes of the buffer are replaced by the root's; the
    counts of root and receiver must agree. *)
Definition broadcast (root_count : Z) (root_buffer : list Z)
    (count : Z) (buffer : list Z) : option (list Z) :=
  if decide (root_count = count)
  then Some (take (Z.to_nat count) root_buffer
             ++ drop (Z.to_nat count) buffer)
  else None.

Definition byte_count (v : list Experiments) : Z :=
  to_int (size_t_mul sizeof_Experiments (Z.of_nat (length v))).

Definition receive (root : list Experiments) (p : Process) : option Process :=
  buffer ← broadcast (byte_count root) (data root)
             (byte_count (experiments p)) (data (experiments p));
  v ← from_data buffer;
  Some (with_experiments v p).

(** All processes, rank 0 first, and the random source of rank 0. *)
Record World : Type := {
  root : Process;
  others : list Process;
  random_source : URBG
}.

(** One turn of [for (int i=0; i<nrepeat; i++)]. *)
Definition repetition (env : Env) (w : World) : option World :=
  let '(v, g) := shuffle (experiments (root w)) (random_source w) in
  received ← mapM (receive v) (others w);
  Some {| root := run_experiments env (with_experiments v (root w));
          others := run_experiments env <$> received;
          random_source := g |}.

Fixpoint repetitions (env : Env) (turns : nat) (w : World) : option World :=
  match turns with
  | O => Some w
  | S turns' => w' ← repetition env w; repetitions env turns' w'
  end.

(** Lines 1305-1309 and 1414-1415: the vectors before the loop. *)
Definition initial_process (env : Env) (v : list Experiments) : Process :=
  let fill := replicate (num_rows env) nan in
  {| experiments := v;
     y := fill;
     y_baseline :=
       if HAVE_MUELU_TPETRA (build env) && norms_wanted env
       then kernel env TPETRA (x env) fill
       else fill;
     output := [];
     dispatched := [];
     invoked := [] |}.

(** The loop of [main_] on [S n_others] processes. *)
Definition experiment_loop (env : Env) (v : list Experiments)
    (n_others : nat) (g : URBG) (nrepeat : Z) : option World :=
  let w := {| root := initial_process env v;
              others := replicate n_others (initial_process env v);
              random_source := g |} in
  match v with
  | [] => Some w
  | _ => repetitions env (Z.to_nat nrepeat) w
  end.

(** What holds of every process between two turns of the loop: it holds
    the list [cur], has dispatched the lists [orders] one after the other,
    still has the baseline it started with, and has invoked a kernel at
    every dispatch when every listed backend has its [case]. *)
Definition in_step (env : Env) (v cur : list Experiments)
    (orders : list (list Experiments)) (p : Process) : Prop :=
  experiments p = cur
  /\ dispatched p = concat orders
  /\ y_baseline p = y_baseline (initial_process env v)
  /\ (Forall (fun e => case_compiled (build env) e = true) v ->
      invoked p = dispatched p).

Definition processes (w : World) : list Process := root w :: others w.

(** *** Sample builds and command lines *)

Definition plain_build : Build :=
  {| HAVE_MUELU_MKL := false; HAVE_MUELU_CUSPARSE := false;
     HAVE_MUELU_MAGMASPARSE := false; HAVE_MUELU_HYPRE := false;
     HAVE_MUELU_PETSC := false; HAVE_MPI := true;
     HAVE_MUELU_TPETRA := true; node_is_cuda := false |}.

Definition no_options : CommandLine :=
  {| opt_mkl := None; opt_tpetra := None; opt_kk := None;
     opt_cusparse := None; opt_magmasparse := None; opt_hypre := None;
     opt_petsc := None; opt_report_error_norms := None;
     opt_nrepeat := None |}.

(** [--petsc] *)
Definition petsc_requested : CommandLine :=
  {| opt_mkl := None; opt_tpetra := None; opt_kk := None;
     opt_cusparse := None; opt_magmasparse := None; opt_hypre := None;
     opt_petsc := Some true; opt_report_error_norms := None;
     opt_nrepeat := None |}.

(** Two rows; every kernel writes 3 and 4, except KK, which writes twice
    that. *)
Definition sample_kernel (e : Experiments) (x y : vector) : vector :=
  match e with
  | KK => [6; 8]%float
  | _ => [3; 4]%float
  end.

Definition quiet_env : Env :=
  {| build := plain_build; norms_wanted := false; num_rows := 2;
     x := [1; 1]%float; kernel := sample_kernel |}.

Definition reporting_env : Env :=
  {| build := plain_build; norms_wanted := true; num_rows := 2;
     x := [1; 1]%float; kernel := sample_kernel |}.

(** Draws 0, 1, 2, ... and draws 1, 1, 1, ... *)
Definition counting_source : URBG := {| draws := fun k => k; taken := 0 |}.

Definition constant_source : URBG := {| draws := fun _ => 1%nat; taken := 0 |}.

End Driver.

(** ** Copying views *)

Module Views.

(** A rank-one [Kokkos::View] is the list of its entries; [extent(0)] is
    the length. *)

(** The body [x2[i] = x1[i]] of one work item.  [cast] is the conversion
    from the element type of [x1] to that of [x2].  An index past the
    extent of either view is out of range. *)
Definition copy_entry (cast : Z -> Z) (x1 : list Z) (i : nat) (x2 : list Z)
    : result (list Z) :=
  match x1 !! i with
  | None => Err OutOfRange
  | Some a =>
      if decide (i < length x2)%nat then Ok (<[i := cast a]> x2)
      else Err OutOfRange
  end.

(** [Kokkos::parallel_for(n, body)]: the work items 0, ..., n-1 are each
    run once, in an order the execution space chooses; [schedule] is that
    order. *)
Definition parallel_for (schedule : list nat)
    (body : nat -> list Z -> result (list Z)) (x2 : list Z) : result (list Z) :=
  foldl (fun r i => r ≫= body i) (Ok x2) schedule.

Definition copy_view_n_scheduled (cast : Z -> Z) (schedule : list nat)
    (x1 x2 : list Z) : result (list Z) :=
  parallel_for schedule (copy_entry cast x1) x2.

(** [copy_view_n(n, x1, x2)], the work items taken in index order.
    [Kokkos::parallel_for] takes the number of work items as a [size_t]:
    the [const int n] is converted on the call, so that a negative [n] is a
    count of 2^64 + n items and not an empty loop. *)
Definition copy_view_n (cast : Z -> Z) (n : Z) (x1 x2 : list Z) : result (list Z) :=
  copy_view_n_scheduled cast (seq 0 (Z.to_nat (to_size_t n))) x1 x2.

(** [copy_view(x1, x2)]: the extent, a [size_t], is passed as [const int]
    (and from there as a [size_t] again to the loop). *)
Definition copy_view (cast : Z -> Z) (x1 x2 : list Z) : result (list Z) :=
  copy_view_n cast (to_int (Z.of_nat (length x1))) x1 x2.

(** The view [x2] with the entries at the indices [written] taken from
    [x1]. *)
Definition copied (cast : Z -> Z) (written : list nat) (x1 x2 : list Z) : list Z :=
  imap (fun i b => if decide (i ∈ written) then cast (x1 !!! i) else b) x2.

(** Every work item stays inside both views. *)
Definition in_extent (schedule : list nat) (x1 x2 : list Z) : Prop :=
  Forall (fun i => (i < length x1)%nat /\ (i < length x2)%nat) schedule.

End Views.

(** ** Doubles that are numbers *)

Module Doubles.

(** [std::isfinite]: neither an infinity nor a NaN. *)
Definition finite (x : double) : bool :=
  match Prim2SF x with
  | S754_zero _ | S754_finite _ _ _ => true
  | S754_infinity _ | S754_nan => false
  end.

End Doubles.

(** ** The table of timers at the end of the report *)

Module ReportTable.
Import PerfReport.

(** A [Teuchos::Time]: the seconds it has run and how often it was
    started. *)
Record Time : Type := {
  totalElapsedTime : double;
  numCalls : Z
}.

(** Lines 393-399. *)
Definition timer_names : list string :=
  ["MV MKL: Total"; "MV KK: Total"; "MV Tpetra: Total";
   "MV CuSparse: Total"; "MV MagmaSparse: Total"; "MV HYPRE: Total";
   "MV Petsc: Total"].

(** One line of the table: the timer and the ten ratios printed after it. *)
Record Row : Type := {
  timer : string;
  ratios : list double
}.

(** Lines 372-375 and 411-422. *)
Definition table_row (rep : Report) (name : string) (t : Time) : Row :=
  let rem := remote rep in
  let minimum_time_in_place_ping :=
    (time_communicate_ping rem + time_pack_unpack_inplace rem)%float in
  let minimum_time_out_of_place_ping :=
    (time_communicate_ping rem + time_pack_unpack_outofplace rem)%float in
  let minimum_time_in_place_halo :=
    (time_communicate_halo rem + time_pack_unpack_inplace rem)%float in
  let minimum_time_out_of_place_halo :=
    (time_communicate_halo rem + time_pack_unpack_outofplace rem)%float in
  let time_per_call :=
    (totalElapsedTime t / double_of_Z (numCalls t))%float in
  let comp := (minimum_time_composite rep / time_per_call)%float in
  let alls := (minimum_time_all rep / time_per_call)%float in
  let p_inplace := (minimum_time_in_place_ping / time_per_call)%float in
  let p_ooplace := (minimum_time_out_of_place_ping / time_per_call)%float in
  let h_inplace := (minimum_time_in_place_halo / time_per_call)%float in
  let h_ooplace := (minimum_time_out_of_place_halo / time_per_call)%float in
  {| timer := name;
     ratios := [comp; comp + p_inplace; comp + p_ooplace;
                comp + h_inplace; comp + h_ooplace;
                alls; alls + p_inplace; alls + p_ooplace;
                alls + h_inplace; alls + h_ooplace]%float |}.

(** What lines 378-431 print. *)
Inductive Printed : Type :=
| minimum_times (composite all inplace outofplace ping halo : double)
| table_header
| table_rule
| table_line (r : Row)
| stacked_timers_note.

(** [globalTimeMonitor] is [None] when it is null; [lookupCounter] gives
    the timer of a name, if there is one. *)
Definition print_report (rank : Z) (globalTimeMonitor : option unit)
    (lookupCounter : string -> option Time) (rep : Report) : list Printed :=
  let summary :=
    if decide (rank = 0)
    then [minimum_times (minimum_time_composite rep) (minimum_time_all rep)
            (time_pack_unpack_inplace (remote rep))
            (time_pack_unpack_outofplace (remote rep))
            (time_communicate_ping (remote rep))
            (time_communicate_halo (remote rep))]
    else [] in
  let table :=
    if decide (rank = 0)
    then match globalTimeMonitor with
         | Some _ =>
             foldl (fun out name =>
                      match lookupCounter name with
                      | Some t => out ++ [table_line (table_row rep name t)]
                      | None => out
                      end)
                   [table_header; table_rule] timer_names
         | None => [stacked_timers_note]
         end
    else [] in
  summary ++ table.

(** The timers named in the lines of a printout. *)
Definition timers_shown (out : list Printed) : list string :=
  omap (fun l => match l with
                 | table_line r => Some (timer r)
                 | _ => None
                 end) out.

(** An importer with nothing to pack that sends 3 and 6 entries to two
    peers and receives 1 entry from one. *)
Definition idle_importer : Importer :=
  {| getRemoteLIDs_size := 0; getExportLIDs_size := 0;
     getNumSameIDs := 0; getNumPermuteIDs := 0;
     getNumExportIDs := 0; getNumRemoteIDs := 0;
     getTpetra_Import :=
       Some {| getLengthsFrom := [1]; getLengthsTo := [3; 6] |} |}.

Definition idle_rank : Rank :=
  {| A := {| getLocalNumRows := 3; getColMap_getLocalNumElements := 3;
             graph_entries_extent := 10;
             getCrsGraph := Some {| getImporter := Some idle_importer |} |};
     PM := sample_tables |}.

End ReportTable.

(** ** Copying the matrix into Petsc and Hypre *)

Module SpmvPack.
Import ContiguousMaps.

(** [map->getGlobalElement(lid)] on one process, [gids] being the
    identifiers the process owns in local-index order.  [invalid] is what
    Tpetra returns for a local index the process does not have
    ([OrdinalTraits<GO>::invalid()]). *)
Definition getGlobalElement (invalid : Z) (gids : list Z) (lid : Z) : Z :=
  if decide (0 <= lid) then default invalid (gids !! Z.to_nat lid)
  else invalid.

(** A row of the local matrix, as [getLocalRowView] gives it, is the list
    of its entries: local column index and value.

    [A.getLocalMaxNumRowEntries()]: *)
Definition getLocalMaxNumRowEntries (rows : list (list (Z * double))) : nat :=
  max_list (length <$> rows).

(** The conversion from [GlobalOrdinal] to the index type of the library
    ([PetscInt] for Petsc, [GO] itself for Hypre) is the parameter [cast]
    of what follows. *)

(** One [MatSetValues] (Petsc) or [HYPRE_IJMatrixSetValues] (Hypre) call
    for a single row: the row, the number of entries, and the column
    identifiers and values the callee reads. *)
Inductive Call : Type :=
| SetValues (GlobalRow numEntries : Z) (cols : list Z) (vals : list double).

(** The inner loop, [j] being the loop counter:
    [new_indices[j] = c_col_map->getGlobalElement(indices(j))]. *)
Fixpoint translate_from (invalid : Z) (cast : Z -> Z) (c_col : list Z)
    (indices : list Z) (j : nat) (new_indices : list Z) : result (list Z) :=
  match indices with
  | [] => Ok new_indices
  | lid :: rest =>
      if decide (j < length new_indices)%nat
      then translate_from invalid cast c_col rest (S j)
             (<[j := cast (getGlobalElement invalid c_col lid)]> new_indices)
      else Err OutOfRange
  end.

(** The loop over the local rows, [i] being the loop counter; the buffer
    [new_indices] is reused from row to row.  [numEntries] is the length of
    the row, which fits the index type, rows being indexed by [LO]. *)
Fixpoint fill_from (invalid : Z) (cast : Z -> Z) (c_row c_col : list Z)
    (rows : list (list (Z * double))) (i : Z) (new_indices : list Z)
    : result (list Call) :=
  match rows with
  | [] => Ok []
  | row :: rest =>
      buffer ← translate_from invalid cast c_col (row.*1) 0 new_indices;
      let numEntries := Z.of_nat (length row) in
      let GlobalRow := cast (getGlobalElement invalid c_row i) in
      calls ← fill_from invalid cast c_row c_col rest (i + 1) buffer;
      Ok (SetValues GlobalRow numEntries
            (take (Z.to_nat numEntries) buffer) (row.*2) :: calls)
  end.

(** "Fill matrix" on process [p]: the buffer has room for the longest
    row. *)
Definition fill_matrix (invalid : Z) (cast : Z -> Z)
    (c_row_map c_col_map : map_type)
    (p : nat) (rows : list (list (Z * double))) : result (list Call) :=
  fill_from invalid cast
    (LocalElementLists c_row_map !!! p) (LocalElementLists c_col_map !!! p)
    rows 0 (replicate (getLocalMaxNumRowEntries rows) 0).

(** The constructor of [Petsc_SpmV_Pack] and of [HYPRE_SpmV_Pack], as far
    as the matrix goes: contiguous maps, then the fill. *)
Definition pack_matrix (invalid : Z) (cast : Z -> Z) (h : heap)
    (Matrix : crs_matrix_type) (p : nat) (rows : list (list (Z * double)))
    : result (list Call) :=
  '(h', (r, c, d)) ← MakeContiguousMaps h Matrix;
  c_row_map ← deref h' r;
  c_col_map ← deref h' c;
  fill_matrix invalid cast c_row_map c_col_map p rows.

(** The calls in closed form: row [i] goes to the identifier of local row
    [i], its columns to the identifiers of its local column indices. *)
Definition translated_rows (invalid : Z) (cast : Z -> Z)
    (c_row c_col : list Z) (first : Z) (rows : list (list (Z * double))) : list Call :=
  imap (fun i row =>
          SetValues
            (cast (getGlobalElement invalid c_row (first + Z.of_nat i)))
            (Z.of_nat (length row))
            ((fun lid => cast (getGlobalElement invalid c_col lid))
               <$> row.*1)
            (row.*2)) rows.

(** Every local column index of every row is one the process has. *)
Definition valid_rows (num_cols : nat) (rows : list (list (Z * double))) : Prop :=
  Forall (Forall (fun e : Z * double => 0 <= e.1 < Z.of_nat num_cols)) rows.

(** A call hands over the row with old identifier [old_row] and local
    content [row] under new numbers: the row's new identifier is the
    position of [old_row] in the rank-ordered old row map, and every column
    identifier is the position, in the rank-ordered old domain map, of the
    old identifier of that column. *)
Definition renumbered (rowmap domainmap : map_type) (my_cols : list Z)
    (old_row : Z) (row : list (Z * double)) (call : Call) : Prop :=
  match call with
  | SetValues GlobalRow numEntries cols vals =>
      0 <= GlobalRow
      /\ all_identifiers rowmap !! Z.to_nat GlobalRow = Some old_row
      /\ numEntries = Z.of_nat (length row)
      /\ vals = row.*2
      /\ Forall2 (fun lid col =>
                    0 <= col
                    /\ all_identifiers domainmap !! Z.to_nat col
                       = my_cols !! Z.to_nat lid)
           (row.*1) cols
  end.

(** The local rows of the two processes of [scattered_matrix]: the
    entries are at (local row, local column) (0,0), (0,2), (1,1) on
    process 0. *)
Definition scattered_local_rows : list (list (Z * double)) :=
  [[(0, 2%float); (2, 5%float)]; [(1, 3%float)]].

End SpmvPack.

(** ** Which backends run *)

Module Selection.
Import Driver.

(** The order in which lines 1240-1265 consider the backends. *)
Definition candidates : list Experiments :=
  [MKL; CUSPARSE; MAGMASPARSE; HYPRE; PETSC; TPETRA; KK].

(** A backend is selected (by its option, or by default when no option is
    given), it is built, and nothing stands against it: CuSparse needs the
    Cuda node, Hypre and Petsc need MPI, KK a single process. *)
Definition runs (b : Build) (cl : CommandLine) (numProc : Z)
    (e : Experiments) : bool :=
  flag_of (parse cl (default_flags b)) e
  && match e with
     | MKL => HAVE_MUELU_MKL b
     | CUSPARSE => HAVE_MUELU_CUSPARSE b && node_is_cuda b
     | MAGMASPARSE => HAVE_MUELU_MAGMASPARSE b
     | HYPRE => HAVE_MUELU_HYPRE b && HAVE_MPI b
     | PETSC => HAVE_MUELU_PETSC b && HAVE_MPI b
     | TPETRA => true
     | KK => negb (bool_decide (numProc > 1))
     end.

(** How often a kernel was called. *)
Definition calls_of (e : Experiments) (invoked : list Experiments) : nat :=
  length (filter (fun e' => e' = e) invoked).

End Selection.

(** ** The timers of the experiment loop *)

Module Timers.
Import Driver ReportTable.

(** The timer that the [case] of a backend starts (lines 1448-1516). *)
Definition timer_of (e : Experiments) : string :=
  match e with
  | MKL => "MV MKL: Total"
  | KK => "MV KK: Total"
  | TPETRA => "MV Tpetra: Total"
  | CUSPARSE => "MV CuSparse: Total"
  | MAGMASPARSE => "MV MagmaSparse: Total"
  | HYPRE => "MV HYPRE: Total"
  | PETSC => "MV Petsc: Total"
  end.

(** The backends in the order of [timer_names]. *)
Definition timed_backends : list Experiments :=
  [MKL; KK; TPETRA; CUSPARSE; MAGMASPARSE; HYPRE; PETSC].

(** A [TimeMonitor t] on the timer [TimeMonitor::getNewTimer(name)]:
    Teuchos keeps one timer per name, created by the first [getNewTimer] of
    that name; every [TimeMonitor] built on it counts one call and adds the
    seconds of its scope.  This is [lookupCounter] once the kernels [invoked] have run,
    [seconds] being what each timer has measured in all. *)
Definition lookupCounter (seconds : string -> double)
    (invoked : list Experiments) (name : string) : option Time :=
  let calls := length (filter (fun e => timer_of e = name) invoked) in
  if decide (calls = 0%nat) then None
  else Some {| totalElapsedTime := seconds name;
               numCalls := to_int (Z.of_nat calls) |}.

End Timers.

(** * Part II: properties *)

(** ** Integers in binary64 *)

Module DoubleFacts.

Lemma shl_S (p : positive) (k : nat) : shl p (S k) = xO (shl p k).
Proof. done. Qed.

Lemma iter_pos_iter {X} (f : X -> X) (k : positive) (x : X) :
  SpecFloat.iter_pos f k x = Nat.iter (Pos.to_nat k) f x.
Proof.
  transitivity (Pos.iter f x k); [|apply Pos2Nat.inj_iter].
  revert x.
  induction k as [k IH|k IH|]; intros x; simpl; [|by rewrite !IH|done].
  by rewrite !IH, !Pos.iter_swap.
Qed.

Lemma pos_iter_shl (p k : positive) : Pos.iter xO p k = shl p (Pos.to_nat k).
Proof. apply Pos2Nat.inj_iter. Qed.

Lemma digits2_size (p : positive) : digits2_pos p = Pos.size p.
Proof. induction p; simpl; congruence. Qed.

Lemma digits2_shl (p : positive) (k : nat) :
  Zpos (digits2_pos (shl p k)) = Zpos (digits2_pos p) + Z.of_nat k.
Proof.
  induction k as [|k IH]; [simpl; lia|].
  rewrite shl_S. simpl digits2_pos. lia.
Qed.

Lemma shl_add (p : positive) (j k : nat) : shl (shl p k) j = shl p (j + k).
Proof. unfold shl. by rewrite Nat.iter_add. Qed.

Lemma shl_mul_l (a b : positive) (j : nat) :
  (shl a j * b)%positive = shl (a * b) j.
Proof. induction j as [|j IH]; [done|]. rewrite !shl_S. exact (f_equal xO IH). Qed.

Lemma shl_mul_r (a b : positive) (k : nat) :
  (a * shl b k)%positive = shl (a * b) k.
Proof.
  induction k as [|k IH]; [done|]. by rewrite !shl_S, Pos.mul_xO_r, IH.
Qed.

Lemma shl_mul (a b : positive) (j k : nat) :
  (shl a j * shl b k)%positive = shl (a * b) (j + k).
Proof. by rewrite shl_mul_l, shl_mul_r, shl_add. Qed.

Lemma shr_1_shl (q : positive) (k : nat) :
  Nat.iter k shr_1 (Build_shr_record (Zpos (shl q k)) false false)
  = Build_shr_record (Zpos q) false false.
Proof.
  induction k as [|k IH]; [done|].
  by rewrite Nat.iter_succ_r, shl_S.
Qed.

Lemma digits_pos_bound (p : positive) :
  Zpos p < 2 ^ 53 -> Zpos (digits2_pos p) <= 53.
Proof.
  intros Hp. rewrite digits2_size.
  pose proof (Pos.size_le p) as Hle.
  assert (2 ^ Zpos (Pos.size p) <= 2 * Zpos p) as H2.
  { rewrite <- Pos2Z.inj_pow. change (2 * Zpos p) with (Zpos p~0). lia. }
  destruct (decide (Zpos (Pos.size p) <= 53)) as [|Hn]; [done|].
  assert (2 ^ 54 <= 2 ^ Zpos (Pos.size p)) by (apply Z.pow_le_mono_r; lia).
  lia.
Qed.

Lemma digits_mul_bound (a b : positive) :
  Zpos (digits2_pos a) + Zpos (digits2_pos b)
  <= Zpos (digits2_pos (a * b)) + 1.
Proof.
  rewrite (digits2_size a), (digits2_size b), (digits2_size (a * b)).
  pose proof (Pos.size_le a) as Ha. pose proof (Pos.size_le b) as Hb.
  pose proof (Pos.size_gt (a * b)) as Hab.
  assert (2 ^ Zpos (Pos.size a) <= 2 * Zpos a) as Ha'.
  { rewrite <- Pos2Z.inj_pow. change (2 * Zpos a) with (Zpos a~0). lia. }
  assert (2 ^ Zpos (Pos.size b) <= 2 * Zpos b) as Hb'.
  { rewrite <- Pos2Z.inj_pow. change (2 * Zpos b) with (Zpos b~0). lia. }
  assert (Zpos (a * b) < 2 ^ Zpos (Pos.size (a * b))) as Hab'.
  { rewrite <- Pos2Z.inj_pow. lia. }
  set (sa := Zpos (Pos.size a)) in *. set (sb := Zpos (Pos.size b)) in *.
  set (sab := Zpos (Pos.size (a * b))) in *.
  assert (0 < sa) by (unfold sa; lia). assert (0 < sb) by (unfold sb; lia).
  assert (2 ^ (sa + sb) < 2 ^ (sab + 2)) as Hlt.
  { rewrite Z.pow_add_r, (Z.pow_add_r 2 sab 2) by lia.
    rewrite Pos2Z.inj_mul in Hab'.
    assert (0 < 2 ^ sa) by (apply Z.pow_pos_nonneg; lia).
    assert (0 < 2 ^ sb) by (apply Z.pow_pos_nonneg; lia).
    assert (2 ^ sa * 2 ^ sb <= (2 * Zpos a) * (2 * Zpos b))
      by (apply Z.mul_le_mono_nonneg; lia).
    change (2 ^ 2) with 4. lia. }
  assert (0 < sab) by (unfold sab; lia).
  apply Z.pow_lt_mono_r_iff in Hlt; lia.
Qed.

(** Rounding a mantissa that only needs a right shift by zero bits. *)
Lemma binary_round_aux_exact (s : bool) (p : positive) (j k : nat) (e : Z) :
  Zpos (digits2_pos p) + Z.of_nat k = 53 ->
  (k <= j)%nat ->
  -1074 <= e + Z.of_nat j - Z.of_nat k <= 971 ->
  binary_round_aux prec emax s (Zpos (shl p j)) e loc_Exact
  = S754_finite s (shl p k) (e + Z.of_nat j - Z.of_nat k).
Proof.
  intros Hd Hkj He.
  assert (forall e', -1074 <= e' - 53 -> fexp prec emax e' = e' - 53) as Hfexp.
  { intros e' ?. unfold fexp, emin, prec, emax. lia. }
  unfold binary_round_aux.
  assert (shr_fexp prec emax (Zpos (shl p j)) e loc_Exact
          = (Build_shr_record (Zpos (shl p k)) false false,
             e + Z.of_nat j - Z.of_nat k)) as ->.
  { unfold shr_fexp, Zdigits2. rewrite digits2_shl, Hfexp by lia.
    simpl shr_record_of_loc. unfold shr.
    destruct (Zpos (digits2_pos p) + Z.of_nat j + e - 53 - e) as [|n|n] eqn:Hn.
    - assert (j = k) as -> by lia. f_equal. lia.
    - rewrite iter_pos_iter.
      replace j with (Pos.to_nat n + k)%nat by lia.
      rewrite <- shl_add, shr_1_shl. f_equal. lia.
    - lia. }
  simpl shr_m. simpl loc_of_shr_record. simpl round_nearest_even.
  assert (shr_fexp prec emax (Zpos (shl p k)) (e + Z.of_nat j - Z.of_nat k) loc_Exact
          = (Build_shr_record (Zpos (shl p k)) false false,
             e + Z.of_nat j - Z.of_nat k)) as ->.
  { unfold shr_fexp, Zdigits2. rewrite digits2_shl, Hfexp by lia.
    by replace (Zpos (digits2_pos p) + Z.of_nat k
                + (e + Z.of_nat j - Z.of_nat k) - 53
                - (e + Z.of_nat j - Z.of_nat k)) with 0 by lia. }
  simpl shr_m. unfold emax, prec.
  destruct (Z.leb_spec (e + Z.of_nat j - Z.of_nat k) (1024 - 53)); [done|lia].
Qed.

Lemma digits_canon (p : positive) :
  Zpos p < 2 ^ 53 -> Zpos (digits2_pos p) + Z.of_nat (53 - digits p) = 53.
Proof. intros Hp%digits_pos_bound. unfold digits. lia. Qed.

Lemma binary_normalize_pos (s : bool) (p : positive) :
  Zpos p < 2 ^ 53 ->
  binary_round prec emax s p 0 = canon s p.
Proof.
  intros Hp. pose proof (digits_canon p Hp) as Hd.
  unfold binary_round, shl_align, canon.
  replace (fexp prec emax (Zpos (digits2_pos p) + 0))
    with (- Z.of_nat (53 - digits p))
    by (unfold fexp, emin, prec, emax; lia).
  destruct (- Z.of_nat (53 - digits p) - 0) as [|d|d] eqn:Hk.
  - replace (53 - digits p)%nat with 0%nat in * by lia.
    etrans; [apply (binary_round_aux_exact s p 0 0 0); simpl; lia|done].
  - lia.
  - rewrite pos_iter_shl.
    replace (Pos.to_nat d) with (53 - digits p)%nat by lia.
    rewrite (binary_round_aux_exact s p _ (53 - digits p)) by lia.
    f_equal. lia.
Qed.

Lemma canon_valid (s : bool) (p : positive) :
  Zpos p < 2 ^ 53 -> valid_binary (canon s p) = true.
Proof.
  intros Hp. pose proof (digits_canon p Hp) as Hd.
  unfold valid_binary, SpecFloat.valid_binary, canon, bounded,
    canonical_mantissa.
  rewrite digits2_shl.
  apply andb_true_intro; split.
  - apply Z.eqb_eq. unfold fexp, emin, prec, emax. lia.
  - apply Z.leb_le. unfold prec, emax. lia.
Qed.

Lemma SFmul_canon (a b : positive) :
  Zpos a < 2 ^ 53 -> Zpos b < 2 ^ 53 -> Zpos (a * b) < 2 ^ 53 ->
  SF64mul (canon false a) (canon false b) = canon false (a * b).
Proof.
  intros Ha Hb Hab.
  pose proof (digits_canon a Ha). pose proof (digits_canon b Hb).
  pose proof (digits_canon _ Hab). pose proof (digits_mul_bound a b).
  unfold SF64mul, SFmul, canon. rewrite shl_mul.
  rewrite (binary_round_aux_exact _ (a * b) _ (53 - digits (a * b))) by lia.
  simpl xorb. f_equal. lia.
Qed.

Lemma Prim2SF_double_of_Z_pos (p : positive) :
  Zpos p < 2 ^ 53 -> Prim2SF (double_of_Z (Zpos p)) = canon false p.
Proof.
  intros Hp. unfold double_of_Z, binary_normalize.
  rewrite binary_normalize_pos by done.
  by apply Prim2SF_SF2Prim, canon_valid.
Qed.

Lemma Prim2SF_double_of_Z_0 : Prim2SF (double_of_Z 0) = S754_zero false.
Proof. by apply (Prim2SF_SF2Prim (S754_zero false)). Qed.

(** Multiplying two integer-valued doubles is exact while the product
    stays below [2^53]. *)
Lemma double_mul_exact (a b : Z) :
  0 <= a < 2 ^ 53 -> 0 <= b < 2 ^ 53 -> a * b < 2 ^ 53 ->
  (double_of_Z a * double_of_Z b)%float = double_of_Z (a * b).
Proof.
  intros Ha Hb Hab. apply Prim2SF_inj. rewrite mul_spec.
  destruct a as [|a|a]; [|destruct b as [|b|b]|]; try lia.
  - rewrite Z.mul_0_l, Prim2SF_double_of_Z_0.
    destruct b as [|b|b]; try lia.
    + by rewrite Prim2SF_double_of_Z_0.
    + by rewrite Prim2SF_double_of_Z_pos by lia.
  - rewrite Z.mul_0_r, Prim2SF_double_of_Z_0.
    by rewrite Prim2SF_double_of_Z_pos by lia.
  - change (Zpos a * Zpos b) with (Zpos (a * b)) in *.
    rewrite !Prim2SF_double_of_Z_pos by lia. by apply SFmul_canon; lia.
Qed.

Lemma shl_Z (p : positive) (k : nat) :
  Zpos (shl p k) = Zpos p * 2 ^ Z.of_nat k.
Proof.
  induction k as [|k IH]; [simpl; lia|].
  rewrite shl_S, Nat2Z.inj_succ, Z.pow_succ_r by lia. lia.
Qed.

Lemma double_of_Z_exact (z : Z) :
  0 <= z < 2 ^ 53 -> Z_of_double (double_of_Z z) = Some z.
Proof.
  intros Hz. unfold Z_of_double. destruct z as [|p|p]; [| |lia].
  - by rewrite Prim2SF_double_of_Z_0.
  - rewrite Prim2SF_double_of_Z_pos by lia. unfold canon.
    set (k := (53 - digits p)%nat). rewrite shl_Z.
    assert (0 < 2 ^ Z.of_nat k) by (apply Z.pow_pos_nonneg; lia).
    destruct (Z.leb_spec 0 (- Z.of_nat k)).
    + replace (Z.of_nat k) with 0 by lia. simpl. f_equal. lia.
    + rewrite Z.opp_involutive, Z.mod_mul, Z.div_mul by lia. done.
Qed.


End DoubleFacts.

(** ** Machine integers *)

Lemma to_int_small (z : Z) : - 2 ^ 31 <= z < 2 ^ 31 -> to_int z = z.
Proof. intros Hz. unfold to_int. rewrite Z.mod_small; lia. Qed.

Lemma to_int_range (z : Z) : - 2 ^ 31 <= to_int z < 2 ^ 31.
Proof.
  unfold to_int. pose proof (Z.mod_pos_bound (z + 2 ^ 31) (2 ^ 32)). lia.
Qed.

Lemma to_size_t_small (z : Z) : 0 <= z < 2 ^ 64 -> to_size_t z = z.
Proof. intros Hz. unfold to_size_t. by rewrite Z.mod_small. Qed.

Lemma size_t_mul_small (a b : Z) :
  0 <= a * b < 2 ^ 64 -> size_t_mul a b = a * b.
Proof. apply to_size_t_small. Qed.

Lemma size_t_add_small (a b : Z) :
  0 <= a + b < 2 ^ 64 -> size_t_add a b = a + b.
Proof. apply to_size_t_small. Qed.

Lemma size_t_add5_small (a b c d e : Z) :
  0 <= a -> 0 <= b -> 0 <= c -> 0 <= d -> 0 <= e ->
  a + b + c + d + e < 2 ^ 64 ->
  size_t_add (size_t_add (size_t_add (size_t_add a b) c) d) e
  = a + b + c + d + e.
Proof.
  intros. rewrite (size_t_add_small a b) by lia.
  rewrite (size_t_add_small (a + b) c) by lia.
  rewrite (size_t_add_small (a + b + c) d) by lia.
  apply size_t_add_small. lia.
Qed.

(** ** The analytic cost reporter *)

Module PerfReportFacts.
Import DoubleFacts PerfReport.

Section local_model.

Variable cfg : Config.

(** Case analysis on a timer index found in [timer_factors]. *)
Ltac innermost t :=
  lazymatch t with
  | S ?t' => innermost t'
  | _ => t
  end.

Ltac timer_cases :=
  repeat match goal with
  | Hi : timer_factors _ _ !! ?t = Some _ |- _ =>
      let v := innermost t in
      first [ exfalso; apply lookup_lt_Some in Hi; simpl in Hi; lia
            | is_var v; destruct v
            | apply (inj Some), pair_equal_spec in Hi; destruct Hi as [<- <-] ]
  end.

(** The three vectors of the local model hold the factors of each timer. *)
Lemma timer_factors_spec (M : Matrix) (i : nat) (osz cnt : Z) :
  timer_factors cfg M !! i = Some (osz, cnt) ->
  SPMV_object_size cfg !!! i = osz /\ SPMV_num_objects cfg M !!! i = cnt.
Proof. intros Hi. timer_cases; split; reflexivity. Qed.

Lemma timer_factors_range (M : Matrix) (i : nat) (osz cnt : Z) :
  timer_factors cfg M !! i = Some (osz, cnt) ->
  osz < 2 ^ 31 /\ cnt < 2 ^ 31.
Proof.
  intros Hi.
  timer_cases; (split; [first [apply to_int_range | lia]|]);
    unfold nnz, n, m; apply to_int_range.
Qed.

(** Below 2^31 bytes neither product loses anything. *)
Lemma timer_volume_fits (M : Matrix) (i : nat) (osz cnt : Z) :
  timer_factors cfg M !! i = Some (osz, cnt) ->
  0 <= osz -> 0 <= cnt -> osz * cnt < 2 ^ 31 ->
  size_in_bytes cfg M i = osz * cnt
  /\ memory_traffic cfg M i = double_of_Z (osz * cnt).
Proof.
  intros Hi Hosz Hcnt Hvol.
  destruct (timer_factors_spec M i osz cnt Hi) as [Hs Hc].
  destruct (timer_factors_range M i osz cnt Hi) as [Hs31 Hc31].
  unfold size_in_bytes, memory_traffic. rewrite Hs, Hc.
  assert (0 <= osz * cnt) by lia.
  rewrite to_int_small by lia. by rewrite double_mul_exact by lia.
Qed.

(** C10: in the local time model the size handed to the table lookup is the
    product of the timer's two factors in 32-bit signed arithmetic, while the
    memory traffic is their product in double precision, which is exact
    (below 2^53); below 2^31 bytes the integer product does not wrap and
    the two are the same number. *)
Theorem local_model_byte_count (M : Matrix) (i : nat) (osz cnt : Z) :
  timer_factors cfg M !! i = Some (osz, cnt) ->
  size_in_bytes cfg M i = to_int (osz * cnt)
  /\ memory_traffic cfg M i = (double_of_Z osz * double_of_Z cnt)%float
  /\ (0 <= osz -> 0 <= cnt -> osz * cnt < 2 ^ 53 ->
      Z_of_double (memory_traffic cfg M i) = Some (osz * cnt))
  /\ (0 <= osz -> 0 <= cnt -> osz * cnt < 2 ^ 31 ->
      size_in_bytes cfg M i = osz * cnt
      /\ memory_traffic cfg M i = double_of_Z (size_in_bytes cfg M i)).
Proof.
  intros Hi.
  destruct (timer_factors_spec M i osz cnt Hi) as [Hs Hc].
  destruct (timer_factors_range M i osz cnt Hi) as [Hs31 Hc31].
  unfold size_in_bytes, memory_traffic. rewrite Hs, Hc.
  split_and!; [done..| |].
  - intros Hosz Hcnt Hvol. assert (0 <= osz * cnt) by lia.
    rewrite double_mul_exact by lia. apply double_of_Z_exact. lia.
  - intros Hosz Hcnt Hvol. assert (0 <= osz * cnt) by lia.
    rewrite to_int_small by lia. by rewrite double_mul_exact by lia.
Qed.

End local_model.

(** At 2^31 bytes the integer product has wrapped and the double product
    has not: the values of 2^28 doubles. *)
Lemma local_model_wraps :
  size_in_bytes double_int_config large_matrix 2 = - 2 ^ 31
  /\ Z_of_double (memory_traffic double_int_config large_matrix 2)
     = Some (2 ^ 31).
Proof. by vm_compute. Qed.

(** *** The halo tables on a matrix without importer *)

Section halo_tables.

Variable cfg : Config.

(** Lines 169-177 against lines 291-293: with a graph whose importer is
    null, the table phase dereferences the null importer, although the
    remote phase tests for it. *)
Lemma make_tables_null_importer (W : list Rank) (rk : Rank) (nrepeat : Z)
    (g : CrsGraph) :
  getCrsGraph (A rk) = Some g -> getImporter g = None ->
  make_tables cfg W rk nrepeat = Err NullReference.
Proof.
  intros Hg Hi. unfold make_tables, halo_local_log_max. by rewrite Hg, Hi.
Qed.

Lemma remote_times_null_importer (W : list Rank) (rk : Rank) (g : CrsGraph) :
  getCrsGraph (A rk) = Some g -> getImporter g = None ->
  remote_times cfg W rk = Ok no_remote.
Proof. intros Hg Hi. unfold remote_times. by rewrite Hg, Hi. Qed.

Lemma report_null_importer (W : list Rank) (rk : Rank) (nrepeat : Z)
    (g : CrsGraph) :
  getCrsGraph (A rk) = Some g -> getImporter g = None ->
  report_performance_models cfg W rk nrepeat = Err NullReference.
Proof.
  intros Hg Hi. unfold report_performance_models.
  by rewrite (make_tables_null_importer W rk nrepeat g).
Qed.

(** Without a graph at all the halo table is skipped and every halo-based
    quantity is zero. *)
Lemma report_no_graph (W : list Rank) (rk : Rank) (nrepeat : Z) :
  getCrsGraph (A rk) = None ->
  exists rep,
    report_performance_models cfg W rk nrepeat = Ok rep
    /\ remote rep = no_remote
    /\ forall k l, halopong_make_table k l ∉ pm_calls rep.
Proof.
  intros Hg. eexists. split_and!.
  - unfold report_performance_models, make_tables, halo_local_log_max,
      remote_times. rewrite Hg. reflexivity.
  - done.
  - intros k l Hin. simpl in Hin.
    apply elem_of_cons in Hin as [Hin|Hin]; [done|].
    apply elem_of_cons in Hin as [Hin|Hin]; [done|].
    by apply elem_of_nil in Hin.
Qed.

End halo_tables.

(** C2: on one process, where the graph has no importer, the report does
    not skip the halo table and does not complete: it stops on the null
    importer. *)
Theorem serial_report_null_reference :
  report_performance_models double_int_config [serial_rank] serial_rank 10
  = Err NullReference.
Proof. by apply (report_null_importer _ _ _ _ {| getImporter := None |}). Qed.

(** *** The message sizes of the halo exchange *)

Section message_sizes.

Variable cfg : Config.

Lemma send_fold_total (P : PerfModels) (sends : list Z) (acc : double * Z) :
  (foldl (fun '(send_time, _) s =>
            ((send_time
              + pingpong_device_lookup P (size_t_mul s (sizeof_SC cfg)))%float,
             size_t_mul s (sizeof_SC cfg)))
         acc sends).2
  = from_option (fun s => size_t_mul s (sizeof_SC cfg)) acc.2 (last sends).
Proof.
  revert acc. induction sends as [|s sends IH]; intros [t0 tot]; [done|].
  simpl foldl. rewrite IH. destruct sends as [|s' sends]; [done|].
  rewrite (last_cons_cons s s' sends).
  by destruct (last (s' :: sends)) eqn:Hl; [|by apply last_None in Hl].
Qed.

Lemma send_loop_total (P : PerfModels) (sends : list Z) :
  (send_loop cfg P sends).2
  = from_option (fun s => size_t_mul s (sizeof_SC cfg)) 0 (last sends).
Proof. apply (send_fold_total P sends (0%float, 0)). Qed.

Lemma recv_loop_total (P : PerfModels) (sends recvs : list Z) (i : nat)
    (rt : double) (tot : Z) :
  (i + length recvs <= length sends)%nat ->
  exists rt',
    recv_loop cfg P sends recvs i rt tot
    = Ok (rt',
          match recvs with
          | [] => tot
          | _ => from_option (fun s => size_t_mul s (sizeof_SC cfg)) 0
                   (sends !! (i + length recvs - 1)%nat)
          end).
Proof.
  revert i rt tot.
  induction recvs as [|r recvs IH]; intros i rt tot Hlen; [by eexists|].
  simpl in Hlen. simpl recv_loop.
  destruct (lookup_lt_is_Some_2 sends i) as [s Hs]; [lia|]. rewrite Hs.
  destruct (IH (S i) (rt + pingpong_device_lookup P (size_t_mul r (sizeof_SC cfg)))%float
               (size_t_mul s (sizeof_SC cfg))) as [rt' ->]; [lia|].
  exists rt'. do 2 f_equal. destruct recvs as [|r' recvs].
  - simpl. by replace (i + 1 - 1)%nat with i by lia; rewrite Hs.
  - simpl length. by replace (S i + S (length recvs) - 1)%nat
      with (i + S (S (length recvs)) - 1)%nat by lia.
Qed.

(** With more receive lengths than send lengths the loop reads past the
    end of [send_lengths]. *)
Lemma recv_loop_out_of_range (P : PerfModels) (sends recvs : list Z) (i : nat)
    (rt : double) (tot : Z) :
  (i <= length sends < i + length recvs)%nat ->
  recv_loop cfg P sends recvs i rt tot = Err OutOfRange.
Proof.
  revert i rt tot. induction recvs as [|r recvs IH]; intros i rt tot Hlen.
  - simpl in Hlen. lia.
  - simpl in Hlen. simpl recv_loop.
    destruct (sends !! i) as [s|] eqn:Hs; [|done].
    apply lookup_lt_Some in Hs. apply IH. lia.
Qed.

(** The average size handed to [halopong_device_lookup], for any two
    distributors that agree on the send lengths and on the number of
    receive lengths. *)
Lemma message_times_avg (P : PerfModels) (imp : Importer)
    (distor : Distributor) (s_k s_j : Z) :
  HAVE_MUELU_TPETRA cfg = true ->
  getTpetra_Import imp = Some distor ->
  (1 <= length (getLengthsFrom distor))%nat ->
  getLengthsTo distor !! (length (getLengthsTo distor) - 1)%nat = Some s_k ->
  getLengthsTo distor !! (length (getLengthsFrom distor) - 1)%nat = Some s_j ->
  exists mt,
    message_times cfg P imp = Ok mt
    /\ avg_size_per_msg mt
       = (double_of_Z (size_t_mul s_k (sizeof_SC cfg))
          / (two * double_of_Z (Z.of_nat (length (getLengthsTo distor))))
          + double_of_Z (size_t_mul s_j (sizeof_SC cfg))
            / (two * double_of_Z (Z.of_nat (length (getLengthsFrom distor)))))%float
    /\ halopong_lookups mt = [avg_size_per_msg mt].
Proof.
  intros Htp Hd Hj Hk Hsj. unfold message_times. rewrite Htp, Hd.
  pose proof (send_loop_total P (getLengthsTo distor)) as Hsend.
  destruct (send_loop cfg P (getLengthsTo distor)) as [st tsl].
  simpl in Hsend. rewrite last_lookup in Hsend.
  replace (Nat.pred (length (getLengthsTo distor)))
    with (length (getLengthsTo distor) - 1)%nat in Hsend by lia.
  rewrite Hk in Hsend. simpl in Hsend. subst tsl.
  apply lookup_lt_Some in Hsj as Hjk.
  destruct (recv_loop_total P (getLengthsTo distor) (getLengthsFrom distor)
              0 0%float 0) as [rt Hrecv]; [lia|].
  rewrite Hrecv. simpl. rewrite Hsj.
  destruct (getLengthsFrom distor) as [|r recvs] eqn:Hr; [simpl in Hj; lia|].
  eexists. by split_and!.
Qed.

(** C9, for 1 <= j <= k: with send lengths s_1..s_k and receive lengths
    r_1..r_j, where j <= k so that s_j exists, the size handed to the
    halo-pong lookup is s_k*sizeof(SC)/(2k) + s_j*sizeof(SC)/(2j); the
    receive lengths enter only through their number j. *)
Theorem halo_average_message_size (P : PerfModels) (imp : Importer)
    (distor : Distributor) (s_k s_j : Z) :
  HAVE_MUELU_TPETRA cfg = true ->
  getTpetra_Import imp = Some distor ->
  (1 <= length (getLengthsFrom distor))%nat ->
  getLengthsTo distor !! (length (getLengthsTo distor) - 1)%nat = Some s_k ->
  getLengthsTo distor !! (length (getLengthsFrom distor) - 1)%nat = Some s_j ->
  0 <= s_k * sizeof_SC cfg < 2 ^ 64 ->
  0 <= s_j * sizeof_SC cfg < 2 ^ 64 ->
  exists mt,
    message_times cfg P imp = Ok mt
    /\ avg_size_per_msg mt
       = (double_of_Z (s_k * sizeof_SC cfg)
          / (two * double_of_Z (Z.of_nat (length (getLengthsTo distor))))
          + double_of_Z (s_j * sizeof_SC cfg)
            / (two * double_of_Z (Z.of_nat (length (getLengthsFrom distor)))))%float
    /\ halopong_lookups mt = [avg_size_per_msg mt]
    /\ forall (imp' : Importer) (distor' : Distributor),
         getTpetra_Import imp' = Some distor' ->
         getLengthsTo distor' = getLengthsTo distor ->
         length (getLengthsFrom distor') = length (getLengthsFrom distor) ->
         exists mt',
           message_times cfg P imp' = Ok mt'
           /\ avg_size_per_msg mt' = avg_size_per_msg mt.
Proof.
  intros Htp Hd Hj Hk Hsj Hbk Hbj.
  destruct (message_times_avg P imp distor s_k s_j) as (mt & Hmt & Havg & Hl);
    [done..|].
  exists mt. rewrite !size_t_mul_small in Havg by done.
  split_and!; [done..|]. intros imp' distor' Hd' Hto Hfrom.
  destruct (message_times_avg P imp' distor' s_k s_j) as (mt' & Hmt' & Havg' & _);
    [done|done|lia|by rewrite Hto|by rewrite Hto, Hfrom|].
  exists mt'. split; [done|].
  rewrite Havg', Havg, Hto, Hfrom. by rewrite !size_t_mul_small by done.
Qed.

End message_sizes.

(** *** The minimum-time models *)

Section minimum_time.

Variable cfg : Config.

Lemma rank_average_ext (W : list Rank) (rk : Rank) (f g : Rank -> double) :
  Forall (fun r => f r = g r) (rk :: W) ->
  rank_average W rk f = rank_average W rk g.
Proof.
  intros [Hrk HW]%Forall_cons. unfold rank_average.
  destruct (decide (nproc W > 1)); [|done].
  by rewrite (proj1 (Forall_fmap_ext f g W) HW).
Qed.

Lemma rank_average_single (rk : Rank) (f : Rank -> double) :
  rank_average [rk] rk f = f rk.
Proof. done. Qed.

(** What the byte volumes are when they fit. *)
Lemma volumes_fit_bounds (M : Matrix) :
  sizes_fit cfg -> volumes_fit cfg M ->
  0 <= rowptr_bytes M < 2 ^ 31
  /\ 0 <= colind_bytes cfg M < 2 ^ 31
  /\ 0 <= values_bytes cfg M < 2 ^ 31
  /\ 0 <= x_bytes cfg M < 2 ^ 31
  /\ 0 <= y_bytes cfg M < 2 ^ 31
  /\ 0 <= all_bytes cfg M < 2 ^ 31.
Proof.
  intros [[? ?] [? ?]] (Hm & Hn & Hnnz & Hall). revert Hall.
  unfold all_bytes, rowptr_bytes, colind_bytes, values_bytes, x_bytes,
    y_bytes, sizeof_rowptr_type.
  generalize (m M) (n M) (nnz M) Hm Hn Hnnz. intros m n nnz ? ? ? Hall.
  assert (0 <= nnz * sizeof_LO cfg) by nia.
  assert (0 <= nnz * sizeof_SC cfg) by nia.
  assert (0 <= n * sizeof_SC cfg) by nia.
  assert (0 <= m * sizeof_SC cfg) by nia.
  lia.
Qed.

Lemma size_in_bytes_values (M : Matrix) :
  sizes_fit cfg -> volumes_fit cfg M ->
  size_in_bytes cfg M 2 = values_bytes cfg M
  /\ memory_traffic cfg M 2 = double_of_Z (values_bytes cfg M)
  /\ spmv_memory_bytes cfg M !!! 2%nat = values_bytes cfg M.
Proof.
  intros Hs HM. pose proof (volumes_fit_bounds M Hs HM) as (_ & _ & Hv & _).
  destruct Hs as [HSC HLO]. destruct HM as (Hm & Hn & Hnnz & _).
  unfold values_bytes in *.
  destruct (timer_volume_fits cfg M 2 (to_int (sizeof_SC cfg)) (nnz M))
    as (Hsz & Hmt); [done|rewrite ?to_int_small by lia; lia..|].
  rewrite to_int_small in Hsz, Hmt by lia.
  rewrite Hmt, Hsz. split_and!; [lia|f_equal; lia|].
  change (spmv_memory_bytes cfg M !!! 2%nat)
    with (size_t_mul (to_size_t (nnz M)) (sizeof_SC cfg)).
  rewrite to_size_t_small, size_t_mul_small; lia.
Qed.

Lemma size_in_bytes_x (M : Matrix) :
  sizes_fit cfg -> volumes_fit cfg M ->
  size_in_bytes cfg M 3 = x_bytes cfg M
  /\ memory_traffic cfg M 3 = double_of_Z (x_bytes cfg M)
  /\ spmv_memory_bytes cfg M !!! 3%nat = x_bytes cfg M.
Proof.
  intros Hs HM. pose proof (volumes_fit_bounds M Hs HM) as (_ & _ & _ & Hv & _).
  destruct Hs as [HSC HLO]. destruct HM as (Hm & Hn & Hnnz & _).
  unfold x_bytes in *.
  destruct (timer_volume_fits cfg M 3 (to_int (sizeof_SC cfg)) (n M))
    as (Hsz & Hmt); [done|rewrite ?to_int_small by lia; lia..|].
  rewrite to_int_small in Hsz, Hmt by lia.
  rewrite Hmt, Hsz. split_and!; [lia|f_equal; lia|].
  change (spmv_memory_bytes cfg M !!! 3%nat)
    with (size_t_mul (to_size_t (n M)) (sizeof_SC cfg)).
  rewrite to_size_t_small, size_t_mul_small; lia.
Qed.

Lemma size_in_bytes_y (M : Matrix) :
  sizes_fit cfg -> volumes_fit cfg M ->
  size_in_bytes cfg M 4 = y_bytes cfg M
  /\ memory_traffic cfg M 4 = double_of_Z (y_bytes cfg M)
  /\ spmv_memory_bytes cfg M !!! 4%nat = y_bytes cfg M.
Proof.
  intros Hs HM.
  pose proof (volumes_fit_bounds M Hs HM) as (_ & _ & _ & _ & Hv & _).
  destruct Hs as [HSC HLO]. destruct HM as (Hm & Hn & Hnnz & _).
  unfold y_bytes in *.
  destruct (timer_volume_fits cfg M 4 (to_int (sizeof_SC cfg)) (m M))
    as (Hsz & Hmt); [done|rewrite ?to_int_small by lia; lia..|].
  rewrite to_int_small in Hsz, Hmt by lia.
  rewrite Hmt, Hsz. split_and!; [lia|f_equal; lia|].
  change (spmv_memory_bytes cfg M !!! 4%nat)
    with (size_t_mul (to_size_t (m M)) (sizeof_SC cfg)).
  rewrite to_size_t_small, size_t_mul_small; lia.
Qed.

Lemma num_objects_all (M : Matrix) :
  sizes_fit cfg -> volumes_fit cfg M ->
  SPMV_num_objects cfg M !!! 5%nat = all_bytes cfg M
  /\ spmv_memory_bytes cfg M !!! 5%nat = all_bytes cfg M.
Proof.
  intros Hs HM.
  pose proof (volumes_fit_bounds M Hs HM) as (Hr & Hc & Hv & Hx & Hy & Hall).
  destruct Hs as [HSC HLO]. destruct HM as (Hm & Hn & Hnnz & _).
  unfold all_bytes, rowptr_bytes, colind_bytes, values_bytes, x_bytes,
    y_bytes, sizeof_rowptr_type in *.
  assert (to_int (m M + 1) = m M + 1) as Hm1 by (apply to_int_small; lia).
  split.
  - change (SPMV_num_objects cfg M !!! 5%nat) with
      (to_int
        (size_t_add
          (size_t_add
            (size_t_add
              (size_t_add
                (size_t_mul (to_size_t (to_int (m M + 1))) 8)
                (size_t_mul (to_size_t (nnz M)) (sizeof_LO cfg)))
              (size_t_mul (to_size_t (nnz M)) (sizeof_SC cfg)))
            (size_t_mul (to_size_t (n M)) (sizeof_SC cfg)))
          (size_t_mul (to_size_t (m M)) (sizeof_SC cfg)))).
    rewrite Hm1, (to_size_t_small (m M + 1)), (to_size_t_small (nnz M)),
      (to_size_t_small (n M)), (to_size_t_small (m M)) by lia.
    rewrite !size_t_mul_small by lia.
    rewrite size_t_add5_small by lia.
    apply to_int_small. lia.
  - change (spmv_memory_bytes cfg M !!! 5%nat) with
      (size_t_add
        (size_t_add
          (size_t_add
            (size_t_add
              (size_t_add 0
                (size_t_mul (to_size_t (to_int (m M + 1))) 8))
              (size_t_mul (to_size_t (nnz M)) (sizeof_LO cfg)))
            (size_t_mul (to_size_t (nnz M)) (sizeof_SC cfg)))
          (size_t_mul (to_size_t (n M)) (sizeof_SC cfg)))
        (size_t_mul (to_size_t (m M)) (sizeof_SC cfg))).
    rewrite Hm1, (to_size_t_small (m M + 1)), (to_size_t_small (nnz M)),
      (to_size_t_small (n M)), (to_size_t_small (m M)) by lia.
    rewrite !size_t_mul_small by lia.
    rewrite (size_t_add_small 0) by lia.
    rewrite size_t_add5_small by lia.
    lia.
Qed.

Lemma gb_per_sec_lookup (W : list Rank) (rk : Rank) (i : nat) :
  (i < NUM_TIMERS)%nat ->
  gb_per_sec cfg W rk !!! i
  = convert_time_to_bandwidth_gbs (avg_distributed cfg W rk i) 1
      (memory_traffic cfg (A rk) i).
Proof.
  intros Hi. do 6 (destruct i as [|i]; [reflexivity|]).
  unfold NUM_TIMERS in Hi. lia.
Qed.

Lemma time_of_slot_corrected (W : list Rank) (rk : Rank) (i : nat)
    (bytes : Matrix -> Z) :
  (i < NUM_TIMERS - 1)%nat ->
  Forall (fun r => size_in_bytes cfg (A r) i = bytes (A r)) (rk :: W) ->
  memory_traffic cfg (A rk) i = double_of_Z (bytes (A rk)) ->
  spmv_memory_bytes cfg (A rk) !!! i = bytes (A rk) ->
  time_of_slot cfg W rk i = object_term W rk bytes.
Proof.
  intros Hi Hsz Hmt Hb. unfold time_of_slot, object_term.
  rewrite gb_per_sec_lookup, Hmt, Hb by (unfold NUM_TIMERS in *; lia).
  do 3 f_equal. unfold avg_distributed. apply rank_average_ext.
  eapply Forall_impl; [exact Hsz|]. intros r Hr. unfold avg_time.
  rewrite Hr. do 5 (destruct i as [|i]; [reflexivity|]).
  unfold NUM_TIMERS in Hi. lia.
Qed.

(** C1, as the code has it by design: the composite time is one launch
    latency, added once, plus one term per slot of the byte table; for the
    values, the input vector and the output vector the term is the object's
    byte volume over the bandwidth from the latency-corrected lookup at that
    object's own size, whenever the local byte volumes fit an [int]. *)
Theorem composite_model_terms (W : list Rank) (rk : Rank) :
  sizes_fit cfg ->
  Forall (fun r => volumes_fit cfg (A r)) (rk :: W) ->
  minimum_local_composite_time cfg W rk
  = (avg_latency W rk
     + time_of_slot cfg W rk 0 + time_of_slot cfg W rk 1
     + object_term W rk (values_bytes cfg)
     + object_term W rk (x_bytes cfg)
     + object_term W rk (y_bytes cfg))%float.
Proof.
  intros Hs HW.
  change (minimum_local_composite_time cfg W rk)
    with (avg_latency W rk
          + time_of_slot cfg W rk 0 + time_of_slot cfg W rk 1
          + time_of_slot cfg W rk 2 + time_of_slot cfg W rk 3
          + time_of_slot cfg W rk 4)%float.
  pose proof (Forall_inv HW) as Hrk.
  assert (time_of_slot cfg W rk 2 = object_term W rk (values_bytes cfg)) as ->.
  { destruct (size_in_bytes_values (A rk) Hs Hrk) as (_ & Hmt & Hb).
    apply time_of_slot_corrected; [unfold NUM_TIMERS; lia| |done..].
    eapply Forall_impl; [exact HW|]. intros r Hr.
    by destruct (size_in_bytes_values (A r) Hs Hr) as (? & _ & _). }
  assert (time_of_slot cfg W rk 3 = object_term W rk (x_bytes cfg)) as ->.
  { destruct (size_in_bytes_x (A rk) Hs Hrk) as (_ & Hmt & Hb).
    apply time_of_slot_corrected; [unfold NUM_TIMERS; lia| |done..].
    eapply Forall_impl; [exact HW|]. intros r Hr.
    by destruct (size_in_bytes_x (A r) Hs Hr) as (? & _ & _). }
  assert (time_of_slot cfg W rk 4 = object_term W rk (y_bytes cfg)) as ->.
  { destruct (size_in_bytes_y (A rk) Hs Hrk) as (_ & Hmt & Hb).
    apply time_of_slot_corrected; [unfold NUM_TIMERS; lia| |done..].
    eapply Forall_impl; [exact HW|]. intros r Hr.
    by destruct (size_in_bytes_y (A r) Hs Hr) as (? & _ & _). }
  reflexivity.
Qed.

(** C7, as the code has it by design: the all-bytes time comes from one
    lookup in the uncorrected stream table at the sum of all touched bytes,
    with no latency term, whenever that sum fits an [int]. *)
Theorem all_model_single_lookup (W : list Rank) (rk : Rank) :
  sizes_fit cfg ->
  Forall (fun r => volumes_fit cfg (A r)) (rk :: W) ->
  size_in_bytes cfg (A rk) 5 = all_bytes cfg (A rk)
  /\ minimum_local_all_time cfg W rk
     = (let t := rank_average W rk
                   (fun r => stream_vector_lookup (PM r) (all_bytes cfg (A r))) in
        let b := double_of_Z (all_bytes cfg (A rk)) in
        b / (GB * convert_time_to_bandwidth_gbs t 1 b))%float
  /\ (W = [rk] -> minimum_local_all_time cfg W rk = all_time_claimed cfg rk).
Proof.
  intros Hs HW.
  assert (forall r, volumes_fit cfg (A r) ->
            size_in_bytes cfg (A r) 5 = all_bytes cfg (A r)) as Hsz.
  { intros r Hr. unfold size_in_bytes.
    destruct (num_objects_all (A r) Hs Hr) as [-> _].
    change (SPMV_object_size cfg !!! 5%nat) with 1.
    pose proof (volumes_fit_bounds (A r) Hs Hr) as (_ & _ & _ & _ & _ & Hall).
    rewrite Z.mul_1_l. apply to_int_small. lia. }
  pose proof (Forall_inv HW) as Hrk.
  assert (minimum_local_all_time cfg W rk
          = (let t := rank_average W rk
                        (fun r => stream_vector_lookup (PM r)
                                    (all_bytes cfg (A r))) in
             let b := double_of_Z (all_bytes cfg (A rk)) in
             b / (GB * convert_time_to_bandwidth_gbs t 1 b))%float) as Hall.
  { unfold minimum_local_all_time, time_of_slot.
    rewrite gb_per_sec_lookup by (unfold NUM_TIMERS; lia).
    destruct (num_objects_all (A rk) Hs Hrk) as [Hn Hb].
    change (NUM_TIMERS - 1)%nat with 5%nat. rewrite Hb.
    pose proof (volumes_fit_bounds (A rk) Hs Hrk) as (_ & _ & _ & _ & _ & Hfit).
    assert (memory_traffic cfg (A rk) 5 = double_of_Z (all_bytes cfg (A rk)))
      as ->.
    { unfold memory_traffic. rewrite Hn.
      change (SPMV_object_size cfg !!! 5%nat) with 1.
      rewrite double_mul_exact by lia. f_equal. lia. }
    simpl. do 3 f_equal. unfold avg_distributed. apply rank_average_ext.
    eapply Forall_impl; [exact HW|]. intros r Hr. simpl.
    unfold avg_time. change (SPMV_corrected !!! 5%nat) with 0.
    destruct (decide (0 = 1)); [done|]. by rewrite Hsz. }
  split_and!; [by apply Hsz|done|].
  intros ->. rewrite Hall. by rewrite rank_average_single.
Qed.

End minimum_time.

(** C1 fails as stated: for a matrix with 3 rows, 3 columns and 10
    nonzeros on one process the composite time of the code is neither the
    claimed sum with a latency term per object nor the claimed sum with a
    single latency term. *)
Lemma composite_model_counterexample :
  minimum_local_composite_time double_int_config [small_rank] small_rank
  = 10167.5%float
  /\ composite_time_claimed double_int_config small_rank true = 10251%float
  /\ composite_time_claimed double_int_config small_rank false = 10231%float
  /\ (10167.5 =? 10251)%float = false
  /\ (10167.5 =? 10231)%float = false.
Proof. by vm_compute. Qed.

(** C7 fails as stated: with 2^28 local nonzeros the sum of all touched
    bytes is 3221225480, the size looked up is that sum wrapped to a
    negative [int], and the time differs from the one claimed. *)
Lemma all_model_counterexample :
  all_bytes double_int_config large_matrix = 3221225480
  /\ size_in_bytes double_int_config large_matrix 5 = -1073741816
  /\ (minimum_local_all_time double_int_config [large_rank] large_rank
      =? all_time_claimed double_int_config large_rank)%float = false.
Proof. by vm_compute. Qed.

(** C9 fails as stated: with one send length and three receive lengths
    (k = 1, j = 3, both at least 1) there is no s_j.  The receive loop reads
    [send_lengths[i]] for i = 0, 1, 2 and is past the end of the array from
    i = 1 on, so that no average size is formed and nothing is handed to the
    halo-pong lookup. *)
Lemma halo_average_counterexample :
  let distor := {| getLengthsFrom := [2; 4; 6]; getLengthsTo := [3] |} in
  let importer := {| getRemoteLIDs_size := 12; getExportLIDs_size := 3;
                     getNumSameIDs := 0; getNumPermuteIDs := 0;
                     getNumExportIDs := 3; getNumRemoteIDs := 12;
                     getTpetra_Import := Some distor |} in
  (1 <= length (getLengthsTo distor))%nat
  /\ (1 <= length (getLengthsFrom distor))%nat
  /\ getLengthsTo distor !! (length (getLengthsFrom distor) - 1)%nat = None
  /\ message_times double_int_config sample_tables importer = Err OutOfRange.
Proof. cbv zeta. split_and!; [simpl; lia..|reflexivity|reflexivity]. Qed.

(** *** The theorems at the sample inputs *)

Lemma sample_sizes_fit : sizes_fit double_int_config.
Proof. unfold sizes_fit. simpl. lia. Qed.

Lemma small_matrix_fits : volumes_fit double_int_config small_matrix.
Proof. unfold volumes_fit. vm_compute. by split_and!. Qed.

Lemma local_model_byte_count_witness :
  size_in_bytes double_int_config small_matrix 2 = to_int (8 * 10)
  /\ memory_traffic double_int_config small_matrix 2
     = (double_of_Z 8 * double_of_Z 10)%float
  /\ (0 <= 8 -> 0 <= 10 -> 8 * 10 < 2 ^ 53 ->
      Z_of_double (memory_traffic double_int_config small_matrix 2)
      = Some (8 * 10))
  /\ (0 <= 8 -> 0 <= 10 -> 8 * 10 < 2 ^ 31 ->
      size_in_bytes double_int_config small_matrix 2 = 8 * 10
      /\ memory_traffic double_int_config small_matrix 2
         = double_of_Z (size_in_bytes double_int_config small_matrix 2)).
Proof.
  apply (local_model_byte_count double_int_config small_matrix 2 8 10).
  reflexivity.
Defined.

Lemma halo_average_message_size_witness :
  exists mt,
    message_times double_int_config sample_tables sample_importer = Ok mt
    /\ avg_size_per_msg mt
       = (double_of_Z (7 * 8) / (two * double_of_Z 3)
          + double_of_Z (5 * 8) / (two * double_of_Z 2))%float
    /\ halopong_lookups mt = [avg_size_per_msg mt]
    /\ forall (imp' : Importer) (distor' : Distributor),
         getTpetra_Import imp' = Some distor' ->
         getLengthsTo distor' = [3; 5; 7] ->
         length (getLengthsFrom distor') = 2%nat ->
         exists mt',
           message_times double_int_config sample_tables imp' = Ok mt'
           /\ avg_size_per_msg mt' = avg_size_per_msg mt.
Proof.
  apply (halo_average_message_size double_int_config sample_tables
           sample_importer sample_distributor 7 5);
    first [reflexivity | simpl; lia].
Defined.

Lemma composite_model_terms_witness :
  minimum_local_composite_time double_int_config [small_rank] small_rank
  = (avg_latency [small_rank] small_rank
     + time_of_slot double_int_config [small_rank] small_rank 0
     + time_of_slot double_int_config [small_rank] small_rank 1
     + object_term [small_rank] small_rank (values_bytes double_int_config)
     + object_term [small_rank] small_rank (x_bytes double_int_config)
     + object_term [small_rank] small_rank (y_bytes double_int_config))%float.
Proof.
  apply (composite_model_terms double_int_config [small_rank] small_rank).
  - exact sample_sizes_fit.
  - do 2 (constructor; [exact small_matrix_fits|]). constructor.
Defined.

Lemma all_model_single_lookup_witness :
  size_in_bytes double_int_config small_matrix 5
  = all_bytes double_int_config small_matrix
  /\ minimum_local_all_time double_int_config [small_rank] small_rank
     = (let t := rank_average [small_rank] small_rank
                   (fun r => stream_vector_lookup (PM r)
                               (all_bytes double_int_config (A r))) in
        let b := double_of_Z (all_bytes double_int_config small_matrix) in
        b / (GB * convert_time_to_bandwidth_gbs t 1 b))%float
  /\ ([small_rank] = [small_rank] ->
      minimum_local_all_time double_int_config [small_rank] small_rank
      = all_time_claimed double_int_config small_rank).
Proof.
  apply (all_model_single_lookup double_int_config [small_rank] small_rank).
  - exact sample_sizes_fit.
  - do 2 (constructor; [exact small_matrix_fits|]). constructor.
Defined.

End PerfReportFacts.

(** ** The contiguous-map builder *)

Module ContiguousMapsFacts.
Import ContiguousMaps.

(** *** Allocation *)

Lemma rcp_new_fresh (h : heap) (mp : map_type) :
  h !! (rcp_new h mp).2 = None.
Proof. apply not_elem_of_dom, is_fresh. Qed.

Lemma rcp_new_lookup (h : heap) (mp : map_type) :
  (rcp_new h mp).1 !! (rcp_new h mp).2 = Some mp.
Proof. apply lookup_insert_eq. Qed.

Lemma rcp_new_subseteq (h : heap) (mp : map_type) : h ⊆ (rcp_new h mp).1.
Proof. apply insert_subseteq, (rcp_new_fresh h mp). Qed.

Lemma deref_lookup (h : heap) (r : RCP) (mp : map_type) :
  h !! r = Some mp -> deref h r = Ok mp.
Proof. unfold deref. by intros ->. Qed.

(** *** The contiguous constructor *)

Lemma contiguous_lists_lengths (first : Z) (numLocal : list nat) :
  length <$> contiguous_lists first numLocal = numLocal.
Proof.
  revert first. induction numLocal as [|k ks IH]; intros first; [done|].
  simpl. rewrite IH, length_seqZ. f_equal. lia.
Qed.

Lemma contiguous_lists_concat (first : Z) (numLocal : list nat) :
  concat (contiguous_lists first numLocal)
  = seqZ first (Z.of_nat (sum_list numLocal)).
Proof.
  revert first. induction numLocal as [|k ks IH]; intros first; [done|].
  simpl. rewrite IH, Nat2Z.inj_add. by rewrite seqZ_app by lia.
Qed.

Lemma contiguous_run_seqZ (first : Z) (k : nat) :
  contiguous_run (seqZ first (Z.of_nat k)) = true.
Proof.
  apply bool_decide_eq_true. rewrite length_seqZ, Nat2Z.id.
  destruct k as [|k]; [done|].
  assert (hd 0 (seqZ first (Z.of_nat (S k))) = first) as ->; [|done].
  by rewrite seqZ_cons by lia.
Qed.

Lemma contiguous_lists_runs (first : Z) (numLocal : list nat) :
  Forall (fun l => contiguous_run l = true) (contiguous_lists first numLocal).
Proof.
  revert first. induction numLocal as [|k ks IH]; intros first; [done|].
  constructor; [apply contiguous_run_seqZ|apply IH].
Qed.

Lemma sum_list_lengths (ls : list (list Z)) :
  sum_list (length <$> ls) = length (concat ls).
Proof.
  induction ls as [|l ls IH]; [done|]. csimpl. by rewrite length_app, IH.
Qed.

(** The map built by the contiguous constructor from the distribution of
    [old]: same local counts, one run per process, and all identifiers
    together are 0, 1, ..., N-1 in rank order. *)
Lemma new_contiguous_map_spec (old : map_type) :
  let new := new_contiguous_map (getGlobalNumElements old)
               (getLocalNumElements old) 0 in
  getGlobalNumElements new = getGlobalNumElements old
  /\ getLocalNumElements new = getLocalNumElements old
  /\ Forall (fun l => contiguous_run l = true) (LocalElementLists new)
  /\ all_identifiers new
     = seqZ 0 (Z.of_nat (length (all_identifiers old))).
Proof.
  intros new. subst new. split_and!.
  - done.
  - apply contiguous_lists_lengths.
  - apply contiguous_lists_runs.
  - unfold all_identifiers, new_contiguous_map, getLocalNumElements.
    cbn [LocalElementLists].
    by rewrite contiguous_lists_concat, sum_list_lengths.
Qed.

(** *** The import of the new identifiers *)

(** An old domain identifier is sent to its position in the rank-ordered
    list of the domain map. *)
Lemma directory_position (domainmap : map_type) (k : nat) (g : Z) :
  NoDup (all_identifiers domainmap) ->
  all_identifiers domainmap !! k = Some g ->
  directory domainmap
    (contiguous_lists 0 (getLocalNumElements domainmap)) !! g
  = Some (Z.of_nat k).
Proof.
  intros Hnd Hk. unfold directory, getLocalNumElements.
  rewrite contiguous_lists_concat, sum_list_lengths.
  fold (all_identifiers domainmap).
  apply elem_of_list_to_map_1.
  - rewrite fst_zip; [done|]. rewrite length_seqZ. lia.
  - apply list_elem_of_lookup. exists k.
    rewrite lookup_zip_with, Hk. simpl.
    apply lookup_lt_Some in Hk.
    by rewrite lookup_seqZ_lt by lia.
Qed.

Lemma doImport_positions (domainmap columnmap : map_type) :
  valid_columns domainmap columnmap ->
  let new_columns :=
    doImport domainmap (contiguous_lists 0 (getLocalNumElements domainmap))
      columnmap in
  length <$> new_columns = getLocalNumElements columnmap
  /\ Forall NoDup new_columns
  /\ Forall2 (Forall2 (fun g g' =>
                0 <= g'
                /\ all_identifiers domainmap !! Z.to_nat g' = Some g))
       (LocalElementLists columnmap) new_columns.
Proof.
  intros [Hnd Hcols] new_columns. subst new_columns. unfold doImport.
  set (tr := fun g => default 0 (directory domainmap
                (contiguous_lists 0 (getLocalNumElements domainmap)) !! g)).
  assert (forall g, g ∈ all_identifiers domainmap ->
            0 <= tr g /\ all_identifiers domainmap !! Z.to_nat (tr g) = Some g)
    as Htr.
  { intros g [k Hk]%list_elem_of_lookup. unfold tr.
    rewrite (directory_position domainmap k g Hnd Hk). simpl.
    split; [lia|]. by rewrite Nat2Z.id. }
  split_and!.
  - unfold getLocalNumElements.
    rewrite <- list_fmap_compose. apply list_fmap_ext.
    intros i gids _. simpl. by rewrite length_fmap.
  - apply Forall_fmap. eapply Forall_impl; [exact Hcols|].
    intros gids [Hg Hin]. simpl. apply NoDup_fmap_2_strong; [|done].
    intros g1 g2 H1 H2 Heq. rewrite Forall_forall in Hin.
    destruct (Htr g1 (Hin g1 H1)) as [_ E1].
    destruct (Htr g2 (Hin g2 H2)) as [_ E2].
    rewrite Heq in E1. congruence.
  - apply Forall2_fmap_r, Forall_Forall2_diag.
    eapply Forall_impl; [exact Hcols|]. intros gids [_ Hin]. simpl.
    apply Forall2_fmap_r, Forall_Forall2_diag.
    eapply Forall_impl; [exact Hin|]. intros g Hg. by apply Htr.
Qed.

(** *** What the builder returns *)

Lemma result_bind_Ok {X Y : Type} (a : X) (k : X -> result Y) :
  Ok a ≫= k = k a.
Proof. done. Qed.

(** Allocate: name the new heap and address, and record what is known
    about them. *)
Ltac allocate h1 l1 :=
  match goal with
  | |- context [rcp_new ?h ?mp] =>
      let Hf := fresh "Hfresh" in
      let Hl := fresh "Hnew" in
      let Hs := fresh "Hsub" in
      pose proof (rcp_new_fresh h mp) as Hf;
      pose proof (rcp_new_lookup h mp) as Hl;
      pose proof (rcp_new_subseteq h mp) as Hs;
      destruct (rcp_new h mp) as [h1 l1]; simpl in Hf, Hl, Hs
  end.

Ltac heap_facts :=
  first
    [ done
    | by etrans
    | by do 2 etrans
    | by eapply lookup_weaken
    | eapply lookup_weaken; [done|by etrans]
    | by eapply lookup_weaken_None
    | eapply lookup_weaken_None; [done|by etrans] ].

Lemma MakeContiguousMaps_spec (h : heap) (Matrix : crs_matrix_type)
    (rowmap domainmap columnmap : map_type) :
  h !! getRowMap Matrix = Some rowmap ->
  h !! getDomainMap Matrix = Some domainmap ->
  h !! getColMap Matrix = Some columnmap ->
  exists h' r c d,
    MakeContiguousMaps h Matrix = Ok (h', (r, c, d))
    /\ h ⊆ h'
    /\ (if isContiguous rowmap then r = getRowMap Matrix
        else h !! r = None
             /\ h' !! r = Some (new_contiguous_map (getGlobalNumElements rowmap)
                                  (getLocalNumElements rowmap) 0))
    /\ (if isContiguous domainmap
        then d = getDomainMap Matrix /\ c = getColMap Matrix
        else
          let new_domain :=
            new_contiguous_map (getGlobalNumElements domainmap)
              (getLocalNumElements domainmap) 0 in
          h !! d = None /\ h' !! d = Some new_domain
          /\ h !! c = None
          /\ h' !! c
             = Some (new_map_from_lists (getGlobalNumElements columnmap)
                       (match getImporter Matrix with
                        | Some _ => doImport domainmap
                                      (LocalElementLists new_domain) columnmap
                        | None => LocalElementLists new_domain
                        end) 0)).
Proof.
  intros Hr Hd Hc. unfold MakeContiguousMaps.
  rewrite (deref_lookup h _ _ Hr), result_bind_Ok.
  destruct (isContiguous rowmap).
  - rewrite (deref_lookup h _ _ Hd), result_bind_Ok.
    destruct (isContiguous domainmap).
    + by eexists _, _, _, _.
    + allocate h2 l2.
      rewrite (deref_lookup h2 _ columnmap), result_bind_Ok
        by (by eapply lookup_weaken).
      destruct (getImporter Matrix); allocate h3 l3.
      all: eexists _, _, _, _; cbn zeta; split_and!; heap_facts.
  - allocate h1 l1.
    rewrite (deref_lookup h1 _ domainmap), result_bind_Ok
      by (by eapply lookup_weaken).
    destruct (isContiguous domainmap).
    + by eexists _, _, _, _.
    + allocate h2 l2.
      rewrite (deref_lookup h2 _ columnmap), result_bind_Ok
        by (eapply lookup_weaken; [done|by etrans]).
      destruct (getImporter Matrix); allocate h3 l3.
      all: eexists _, _, _, _; cbn zeta; split_and!; heap_facts.
Qed.

(** C4: a row map that is already contiguous is returned as it is, the
    same object at the same address; likewise a contiguous domain map is
    returned with the column map, both unchanged. *)
Theorem contiguous_maps_reused (h : heap) (Matrix : crs_matrix_type)
    (rowmap domainmap columnmap : map_type) :
  h !! getRowMap Matrix = Some rowmap ->
  h !! getDomainMap Matrix = Some domainmap ->
  h !! getColMap Matrix = Some columnmap ->
  exists h' r c d,
    MakeContiguousMaps h Matrix = Ok (h', (r, c, d))
    /\ (isContiguous rowmap = true ->
        r = getRowMap Matrix /\ h' !! r = Some rowmap)
    /\ (isContiguous domainmap = true ->
        d = getDomainMap Matrix /\ c = getColMap Matrix
        /\ h' !! d = Some domainmap /\ h' !! c = Some columnmap).
Proof.
  intros Hr Hd Hc.
  destruct (MakeContiguousMaps_spec h Matrix _ _ _ Hr Hd Hc)
    as (h' & r & c & d & Hrun & Hsub & Hrow & Hdom).
  exists h', r, c, d. split_and!; [done| |].
  - intros Hcont. rewrite Hcont in Hrow. subst r.
    split; [done|]. by eapply lookup_weaken.
  - intros Hcont. rewrite Hcont in Hdom. destruct Hdom as [-> ->].
    split_and!; [done|done|by eapply lookup_weaken..].
Qed.

(** C5, as the code has it by design: for maps that are not contiguous the
    new row and domain maps keep the global count and each process's local
    count, give each process one unbroken run, and number all entries 0, 1,
    ..., N-1 in rank order; the new column map keeps the global count and,
    with an importer, holds for every old column identifier its position in
    the rank-ordered domain map, so its identifiers are distinct on each
    process; without an importer it takes the lists of the new domain
    map. *)
Theorem renumbered_maps (h : heap) (Matrix : crs_matrix_type)
    (rowmap domainmap columnmap : map_type) :
  h !! getRowMap Matrix = Some rowmap ->
  h !! getDomainMap Matrix = Some domainmap ->
  h !! getColMap Matrix = Some columnmap ->
  isContiguous rowmap = false ->
  isContiguous domainmap = false ->
  valid_columns domainmap columnmap ->
  exists h' r c d rm cm dm,
    MakeContiguousMaps h Matrix = Ok (h', (r, c, d))
    /\ h' !! r = Some rm /\ h' !! c = Some cm /\ h' !! d = Some dm
    /\ getGlobalNumElements rm = getGlobalNumElements rowmap
    /\ getGlobalNumElements cm = getGlobalNumElements columnmap
    /\ getGlobalNumElements dm = getGlobalNumElements domainmap
    /\ getLocalNumElements rm = getLocalNumElements rowmap
    /\ getLocalNumElements dm = getLocalNumElements domainmap
    /\ Forall (fun l => contiguous_run l = true) (LocalElementLists rm)
    /\ Forall (fun l => contiguous_run l = true) (LocalElementLists dm)
    /\ all_identifiers rm = seqZ 0 (Z.of_nat (length (all_identifiers rowmap)))
    /\ all_identifiers dm
       = seqZ 0 (Z.of_nat (length (all_identifiers domainmap)))
    /\ (getImporter Matrix = None ->
        LocalElementLists cm = LocalElementLists dm)
    /\ (getImporter Matrix <> None ->
        getLocalNumElements cm = getLocalNumElements columnmap
        /\ Forall NoDup (LocalElementLists cm)
        /\ Forall2 (Forall2 (fun g g' =>
                      0 <= g'
                      /\ all_identifiers domainmap !! Z.to_nat g' = Some g))
             (LocalElementLists columnmap) (LocalElementLists cm)).
Proof.
  intros Hr Hd Hc Hrow Hdom Hvalid.
  destruct (MakeContiguousMaps_spec h Matrix _ _ _ Hr Hd Hc)
    as (h' & r & c & d & Hrun & Hsub & Hr' & Hd').
  rewrite Hrow in Hr'. rewrite Hdom in Hd'.
  destruct Hr' as [_ Hr']. destruct Hd' as (_ & Hd' & _ & Hc').
  destruct (new_contiguous_map_spec rowmap) as (? & ? & ? & ?).
  destruct (new_contiguous_map_spec domainmap) as (? & ? & ? & ?).
  eexists h', r, c, d, _, _, _.
  split_and!; [done..| |].
  - by intros ->.
  - intros Himp. destruct (getImporter Matrix); [|done].
    by apply doImport_positions.
Qed.

(** C5 fails as stated: on two processes with a halo the new column map
    of process 0 is 0, 1, 3, which is no unbroken run. *)
Lemma column_map_counterexample :
  isContiguous scattered_rows = false
  /\ output_lists sample_heap scattered_matrix
     = Some ([[0; 1]; [2; 3]], [[0; 1; 3]; [2; 3; 0]], [[0; 1]; [2; 3]])
  /\ contiguous_run [0; 1; 3] = false.
Proof. by vm_compute. Qed.

Lemma contiguous_maps_reused_witness :
  exists h' r c d,
    MakeContiguousMaps sample_heap linear_matrix = Ok (h', (r, c, d))
    /\ (isContiguous linear_rows = true ->
        r = getRowMap linear_matrix /\ h' !! r = Some linear_rows)
    /\ (isContiguous linear_rows = true ->
        d = getDomainMap linear_matrix /\ c = getColMap linear_matrix
        /\ h' !! d = Some linear_rows /\ h' !! c = Some scattered_columns).
Proof.
  apply (contiguous_maps_reused sample_heap linear_matrix
           linear_rows linear_rows scattered_columns); reflexivity.
Defined.

Lemma scattered_columns_valid : valid_columns scattered_rows scattered_columns.
Proof.
  unfold valid_columns. compute_done.
Qed.

Lemma renumbered_maps_witness :
  exists h' r c d rm cm dm,
    MakeContiguousMaps sample_heap scattered_matrix = Ok (h', (r, c, d))
    /\ h' !! r = Some rm /\ h' !! c = Some cm /\ h' !! d = Some dm
    /\ getGlobalNumElements rm = getGlobalNumElements scattered_rows
    /\ getGlobalNumElements cm = getGlobalNumElements scattered_columns
    /\ getGlobalNumElements dm = getGlobalNumElements scattered_rows
    /\ getLocalNumElements rm = getLocalNumElements scattered_rows
    /\ getLocalNumElements dm = getLocalNumElements scattered_rows
    /\ Forall (fun l => contiguous_run l = true) (LocalElementLists rm)
    /\ Forall (fun l => contiguous_run l = true) (LocalElementLists dm)
    /\ all_identifiers rm
       = seqZ 0 (Z.of_nat (length (all_identifiers scattered_rows)))
    /\ all_identifiers dm
       = seqZ 0 (Z.of_nat (length (all_identifiers scattered_rows)))
    /\ (getImporter scattered_matrix = None ->
        LocalElementLists cm = LocalElementLists dm)
    /\ (getImporter scattered_matrix <> None ->
        getLocalNumElements cm = getLocalNumElements scattered_columns
        /\ Forall NoDup (LocalElementLists cm)
        /\ Forall2 (Forall2 (fun g g' =>
                      0 <= g'
                      /\ all_identifiers scattered_rows !! Z.to_nat g' = Some g))
             (LocalElementLists scattered_columns) (LocalElementLists cm)).
Proof.
  apply (renumbered_maps sample_heap scattered_matrix
           scattered_rows scattered_rows scattered_columns);
    first [reflexivity | exact scattered_columns_valid].
Defined.

End ContiguousMapsFacts.

(** ** Backend selection and the experiment loop *)

Module DriverFacts.
Import Driver.

(** *** Disabling what cannot run *)

Ltac check_cases :=
  intros [f out]; simpl;
  repeat case_match; simplify_eq/=;
  repeat split; intros; simplify_eq/=;
  try match goal with e : Experiments |- _ => destruct e end;
  simplify_eq/=; try done; try set_solver.

Lemma check_kk_monotone (np : Z) : monotone (check_kk np).
Proof. unfold monotone, check_kk. check_cases. Qed.

Lemma check_mkl_monotone (b : Build) : monotone (check_mkl b).
Proof. unfold monotone, check_mkl. check_cases. Qed.

Lemma check_cusparse_monotone (b : Build) : monotone (check_cusparse b).
Proof. unfold monotone, check_cusparse. check_cases. Qed.

Lemma check_magmasparse_monotone (b : Build) : monotone (check_magmasparse b).
Proof. unfold monotone, check_magmasparse. check_cases. Qed.

Lemma check_hypre_monotone (b : Build) : monotone (check_hypre b).
Proof. unfold monotone, check_hypre. check_cases. Qed.

Lemma check_petsc_monotone (b : Build) : monotone (check_petsc b).
Proof. unfold monotone, check_petsc. check_cases. Qed.

Lemma check_kk_frames (np : Z) : frames (check_kk np) KK.
Proof. unfold frames, check_kk. check_cases. Qed.

Lemma check_mkl_frames (b : Build) : frames (check_mkl b) MKL.
Proof. unfold frames, check_mkl. check_cases. Qed.

Lemma check_cusparse_frames (b : Build) : frames (check_cusparse b) CUSPARSE.
Proof. unfold frames, check_cusparse. check_cases. Qed.

Lemma check_magmasparse_frames (b : Build) :
  frames (check_magmasparse b) MAGMASPARSE.
Proof. unfold frames, check_magmasparse. check_cases. Qed.

Lemma monotone_compose (c1 c2 : State -> State) :
  monotone c1 -> monotone c2 -> monotone (c2 ∘ c1).
Proof.
  intros H1 H2 st. destruct (H1 st) as [Hw1 Hf1].
  destruct (H2 (c1 st)) as [Hw2 Hf2]. split; simpl; auto.
Qed.

(** What each block does for its own backend, when that backend is asked
    for and not built. *)
Lemma check_kk_spec (np : Z) (st : State) :
  np > 1 -> do_kk st.1 = true ->
  do_kk (check_kk np st).1 = false /\ kk_warning ∈ (check_kk np st).2.
Proof.
  destruct st as [f out]. simpl. intros Hnp Hkk. unfold check_kk.
  rewrite Hkk, bool_decide_eq_true_2 by done. simpl. set_solver.
Qed.

Lemma check_mkl_spec (b : Build) (st : State) :
  HAVE_MUELU_MKL b = false -> do_mkl st.1 = true ->
  do_mkl (check_mkl b st).1 = false /\ mkl_warning ∈ (check_mkl b st).2.
Proof.
  destruct st as [f out]. simpl. intros Hb Hf. unfold check_mkl.
  rewrite Hb, Hf. simpl. set_solver.
Qed.

Lemma check_cusparse_spec (b : Build) (st : State) :
  HAVE_MUELU_CUSPARSE b = false -> do_cusparse st.1 = true ->
  do_cusparse (check_cusparse b st).1 = false
  /\ cusparse_warning ∈ (check_cusparse b st).2.
Proof.
  destruct st as [f out]. simpl. intros Hb Hf. unfold check_cusparse.
  rewrite Hb, Hf. simpl. set_solver.
Qed.

Lemma check_magmasparse_spec (b : Build) (st : State) :
  HAVE_MUELU_MAGMASPARSE b = false -> do_magmasparse st.1 = true ->
  do_magmasparse (check_magmasparse b st).1 = false
  /\ magmasparse_warning ∈ (check_magmasparse b st).2.
Proof.
  destruct st as [f out]. simpl. intros Hb Hf. unfold check_magmasparse.
  rewrite Hb, Hf. simpl. set_solver.
Qed.

Lemma check_hypre_spec (b : Build) (st : State) :
  HAVE_MUELU_HYPRE b = false -> do_hypre st.1 = true ->
  do_hypre (check_hypre b st).1 = false
  /\ hypre_warning ∈ (check_hypre b st).2.
Proof.
  destruct st as [f out]. simpl. intros Hb Hf. unfold check_hypre.
  rewrite Hb, Hf. simpl. set_solver.
Qed.

(** The list never holds a third-party backend that is not built. *)
Lemma not_in_push_back_if (c : bool) (e e' : Experiments)
    (v : list Experiments) :
  e <> e' -> e ∉ v -> e ∉ push_back_if c e' v.
Proof.
  unfold push_back_if. intros Hne Hv. destruct c; [|done].
  by intros [?|?%list_elem_of_singleton]%elem_of_app.
Qed.

Lemma unavailable_backend_unlisted (b : Build) (f : Flags) (e : Experiments) :
  third_party e = true -> case_compiled b e = false ->
  e ∉ make_experiments b f.
Proof.
  intros He Hc. unfold make_experiments.
  destruct e; simplify_eq/=; rewrite Hc; simpl;
    repeat (apply not_in_push_back_if; [done|]); set_solver.
Qed.

(** A backend that is never in the list is never dispatched. *)
Lemma kk_unlisted_on_many_processes (b : Build) (cl : CommandLine) (np : Z) :
  np > 1 -> KK ∉ my_experiments (setup b cl np).
Proof.
  intros Hnp. unfold setup, disable_unavailable.
  set (st0 := (parse cl (default_flags b), @nil string)).
  assert (do_kk (check_kk np st0).1 = false) as Hkk.
  { destruct (do_kk st0.1) eqn:E.
    - by apply check_kk_spec.
    - by apply (proj2 (check_kk_monotone np st0) KK). }
  pose proof (monotone_compose _ _ (check_mkl_monotone b)
    (monotone_compose _ _ (check_cusparse_monotone b)
      (monotone_compose _ _ (check_magmasparse_monotone b)
        (monotone_compose _ _ (check_hypre_monotone b)
          (check_petsc_monotone b))))) as Hmono.
  destruct (Hmono (check_kk np st0)) as [_ Hoff]. specialize (Hoff KK Hkk).
  simpl in Hoff.
  destruct (check_petsc b _) as [f out] eqn:E. simpl in *.
  unfold make_experiments, push_back_if at 1. rewrite Hoff.
  repeat (apply not_in_push_back_if; [done|]); set_solver.
Qed.

(** MKL, CuSparse, MagmaSparse and Hypre, asked for on a build without
    them: disabled, with the warning, and not in the list. *)
Lemma unavailable_backend_disabled (b : Build) (cl : CommandLine) (np : Z)
    (e : Experiments) :
  e ∈ [MKL; CUSPARSE; MAGMASPARSE; HYPRE] ->
  case_compiled b e = false ->
  requested cl e = true ->
  flag_of (flags (setup b cl np)) e = false
  /\ warning_of e ∈ warnings (setup b cl np)
  /\ e ∉ my_experiments (setup b cl np).
Proof.
  intros He Hc Hr. apply bool_decide_eq_true in Hr.
  unfold setup, disable_unavailable.
  set (st0 := (parse cl (default_flags b), @nil string)).
  assert (flag_of st0.1 e = true) as Hon.
  { subst st0. simpl. unfold parse.
    repeat (apply elem_of_cons in He as [->|He]); simpl; try by rewrite Hr.
    by apply elem_of_nil in He. }
  assert (let st := check_petsc b (check_hypre b (check_magmasparse b
            (check_cusparse b (check_mkl b (check_kk np st0))))) in
          flag_of st.1 e = false /\ warning_of e ∈ st.2) as Hst.
  { repeat (apply elem_of_cons in He as [->|He]); simpl in Hc |- *.
    - rewrite <- (check_kk_frames np st0 MKL) in Hon by done.
      destruct (check_mkl_spec b _ Hc Hon) as [Hoff Hw].
      destruct ((monotone_compose _ _ (check_cusparse_monotone b)
        (monotone_compose _ _ (check_magmasparse_monotone b)
          (monotone_compose _ _ (check_hypre_monotone b)
            (check_petsc_monotone b)))) (check_mkl b (check_kk np st0)))
        as [Hws Hoffs].
      split; [by apply (Hoffs MKL)|by apply Hws].
    - rewrite <- (check_kk_frames np st0 CUSPARSE) in Hon by done.
      rewrite <- (check_mkl_frames b _ CUSPARSE) in Hon by done.
      destruct (check_cusparse_spec b _ Hc Hon) as [Hoff Hw].
      destruct ((monotone_compose _ _ (check_magmasparse_monotone b)
          (monotone_compose _ _ (check_hypre_monotone b)
            (check_petsc_monotone b)))
            (check_cusparse b (check_mkl b (check_kk np st0))))
        as [Hws Hoffs].
      split; [by apply (Hoffs CUSPARSE)|by apply Hws].
    - rewrite <- (check_kk_frames np st0 MAGMASPARSE) in Hon by done.
      rewrite <- (check_mkl_frames b _ MAGMASPARSE) in Hon by done.
      rewrite <- (check_cusparse_frames b _ MAGMASPARSE) in Hon by done.
      destruct (check_magmasparse_spec b _ Hc Hon) as [Hoff Hw].
      destruct ((monotone_compose _ _ (check_hypre_monotone b)
            (check_petsc_monotone b))
            (check_magmasparse b
              (check_cusparse b (check_mkl b (check_kk np st0)))))
        as [Hws Hoffs].
      split; [by apply (Hoffs MAGMASPARSE)|by apply Hws].
    - rewrite <- (check_kk_frames np st0 HYPRE) in Hon by done.
      rewrite <- (check_mkl_frames b _ HYPRE) in Hon by done.
      rewrite <- (check_cusparse_frames b _ HYPRE) in Hon by done.
      rewrite <- (check_magmasparse_frames b _ HYPRE) in Hon by done.
      destruct (check_hypre_spec b _ Hc Hon) as [Hoff Hw].
      destruct (check_petsc_monotone b (check_hypre b (check_magmasparse b
              (check_cusparse b (check_mkl b (check_kk np st0))))))
        as [Hws Hoffs].
      split; [by apply (Hoffs HYPRE)|by apply Hws].
    - by apply elem_of_nil in He. }
  simpl in Hst. destruct (check_petsc b _) as [f out]. simpl in *.
  destruct Hst as [Hoff Hw]. split_and!; [done..|].
  apply unavailable_backend_unlisted; [|done].
  repeat (apply elem_of_cons in He as [->|He]); try done.
  by apply elem_of_nil in He.
Qed.

(** C6: Petsc asked for on a build without Petsc and without Hypre.  The
    block that should disable it tests [do_hypre]: no warning is written
    and [do_petsc] stays set; only the list leaves Petsc out. *)
Theorem petsc_request_not_disabled :
  requested petsc_requested PETSC = true
  /\ case_compiled plain_build PETSC = false
  /\ do_petsc (flags (setup plain_build petsc_requested 1)) = true
  /\ warnings (setup plain_build petsc_requested 1) = []
  /\ my_experiments (setup plain_build petsc_requested 1) = [TPETRA; KK].
Proof. by vm_compute. Qed.

(** *** The experiment list *)

Lemma Forall_push_back_if (P : Experiments -> Prop) (c : bool)
    (e : Experiments) (v : list Experiments) :
  (c = true -> P e) -> Forall P v -> Forall P (push_back_if c e v).
Proof.
  intros He Hv. unfold push_back_if. destruct c; [|done].
  apply Forall_app. auto.
Qed.

Lemma NoDup_push_back_if (c : bool) (e : Experiments) (v : list Experiments) :
  e ∉ v -> NoDup v -> NoDup (push_back_if c e v).
Proof.
  intros He Hv. unfold push_back_if. destruct c; [|done].
  apply NoDup_app. split_and!; [done| |apply NoDup_singleton].
  by intros x Hx ->%list_elem_of_singleton.
Qed.

Lemma length_push_back_if (c : bool) (e : Experiments) (v : list Experiments) :
  (length (push_back_if c e v) <= S (length v))%nat.
Proof.
  unfold push_back_if. destruct c; [|lia]. rewrite length_app. simpl. lia.
Qed.

Lemma make_experiments_NoDup (b : Build) (f : Flags) :
  NoDup (make_experiments b f).
Proof.
  unfold make_experiments.
  repeat (apply NoDup_push_back_if;
          [repeat (apply not_in_push_back_if; [done|]); apply not_elem_of_nil|]).
  apply NoDup_nil_2.
Qed.

Lemma make_experiments_length (b : Build) (f : Flags) :
  (length (make_experiments b f) <= 7)%nat.
Proof.
  unfold make_experiments.
  repeat (etrans; [apply length_push_back_if|]; apply le_n_S). simpl. lia.
Qed.

(** With Tpetra in the build, every listed backend has its [case]. *)
Lemma make_experiments_compiled (b : Build) (f : Flags) :
  HAVE_MUELU_TPETRA b = true ->
  Forall (fun e => case_compiled b e = true) (make_experiments b f).
Proof.
  intros Htp. unfold make_experiments.
  repeat (apply Forall_push_back_if;
          [simpl; intros Hc; repeat (apply andb_true_iff in Hc as [Hc ?]); done|]).
  apply Forall_nil_2.
Qed.

(** *** Shuffle and broadcast *)

Lemma iter_swap_Permutation {X : Type} (v : list X) (i j : nat) :
  iter_swap v i j ≡ₚ v.
Proof.
  unfold iter_swap.
  destruct (v !! i) as [a|] eqn:Hi; [|done].
  destruct (v !! j) as [c|] eqn:Hj; [|done].
  by apply Permutation_insert_swap.
Qed.

Lemma shuffle_from_Permutation {X : Type} (steps i : nat) (v : list X)
    (g : URBG) :
  (shuffle_from steps i v g).1 ≡ₚ v.
Proof.
  revert i v g. induction steps as [|steps IH]; intros i v g; [done|].
  simpl. rewrite IH. apply iter_swap_Permutation.
Qed.

Lemma shuffle_Permutation {X : Type} (v : list X) (g : URBG) :
  (shuffle v g).1 ≡ₚ v.
Proof. apply shuffle_from_Permutation. Qed.

Lemma from_data_data (v : list Experiments) : from_data (data v) = Some v.
Proof.
  induction v as [|e v IH]; [done|].
  change (data (e :: v)) with (to_bytes e ++ data v).
  destruct e; cbn; by rewrite IH.
Qed.

Lemma length_data (v : list Experiments) :
  length (data v) = (4 * length v)%nat.
Proof.
  induction v as [|e v IH]; [done|].
  change (data (e :: v)) with (to_bytes e ++ data v).
  rewrite length_app, IH. simpl. lia.
Qed.

Lemma byte_count_small (v : list Experiments) :
  (length v <= 7)%nat -> byte_count v = Z.of_nat (4 * length v).
Proof.
  intros Hv. unfold byte_count, sizeof_Experiments.
  rewrite size_t_mul_small, to_int_small; lia.
Qed.

(** A process that holds a list as long as the root's receives the
    root's list, byte for byte. *)
Lemma receive_root_list (v : list Experiments) (p : Process) :
  (length v <= 7)%nat ->
  length (experiments p) = length v ->
  receive v p = Some (with_experiments v p).
Proof.
  intros Hv Hp. unfold receive, broadcast.
  rewrite !byte_count_small by lia. rewrite Hp.
  rewrite decide_True by done. simpl.
  rewrite Nat2Z.id, take_ge, drop_ge by (rewrite length_data; lia).
  by rewrite app_nil_r, from_data_data.
Qed.

(** *** One pass over the list *)

Lemma run_experiment_frame (env : Env) (p : Process) (e : Experiments) :
  experiments (run_experiment env p e) = experiments p
  /\ dispatched (run_experiment env p e) = dispatched p ++ [e]
  /\ y_baseline (run_experiment env p e) = y_baseline p
  /\ (case_compiled (build env) e = true ->
      invoked (run_experiment env p e) = invoked p ++ [e]).
Proof.
  unfold run_experiment, check_norms, dispatch.
  destruct (case_compiled (build env) e),
    (error_check_y env && norms_wanted env); simpl; by split_and!.
Qed.

Lemma foldl_run_experiment_frame (env : Env) (l : list Experiments)
    (p : Process) :
  experiments (foldl (run_experiment env) p l) = experiments p
  /\ dispatched (foldl (run_experiment env) p l) = dispatched p ++ l
  /\ y_baseline (foldl (run_experiment env) p l) = y_baseline p
  /\ (Forall (fun e => case_compiled (build env) e = true) l ->
      invoked (foldl (run_experiment env) p l) = invoked p ++ l).
Proof.
  revert p. induction l as [|e l IH]; intros p.
  - simpl. rewrite !app_nil_r. by split_and!.
  - simpl. destruct (IH (run_experiment env p e)) as (He & Hd & Hb & Hi).
    destruct (run_experiment_frame env p e) as (He' & Hd' & Hb' & Hi').
    rewrite He, Hd, Hb, He', Hd', Hb', <- app_assoc. split_and!; [done..|].
    intros [Hc Hl]%Forall_cons. by rewrite Hi, Hi', <- app_assoc.
Qed.

Lemma run_experiments_in_step (env : Env) (v cur : list Experiments)
    (orders : list (list Experiments)) (p : Process) (cur' : list Experiments) :
  cur' ≡ₚ v ->
  in_step env v cur orders p ->
  in_step env v cur' (orders ++ [cur'])
    (run_experiments env (with_experiments cur' p)).
Proof.
  intros Hperm (_ & Hd & Hb & Hi). unfold run_experiments.
  destruct (foldl_run_experiment_frame env
              (experiments (with_experiments cur' p)) (with_experiments cur' p))
    as (He' & Hd' & Hb' & Hi').
  simpl in *. unfold in_step. rewrite He', Hd', Hb', Hd.
  rewrite concat_app. simpl. rewrite app_nil_r. split_and!; [done..|].
  intros Hc. rewrite Hi', (Hi Hc), Hd; [done|]. by rewrite Hperm.
Qed.

(** *** The loop *)

Lemma repetition_in_step (env : Env) (v cur : list Experiments)
    (orders : list (list Experiments)) (w : World) :
  (length v <= 7)%nat ->
  cur ≡ₚ v ->
  Forall (in_step env v cur orders) (processes w) ->
  exists w' cur',
    repetition env w = Some w'
    /\ cur' ≡ₚ v
    /\ length (others w') = length (others w)
    /\ Forall (in_step env v cur' (orders ++ [cur'])) (processes w').
Proof.
  intros Hlen Hcur [Hroot Hothers]%Forall_cons. unfold repetition.
  pose proof (shuffle_Permutation (experiments (root w)) (random_source w))
    as Hsh.
  destruct (shuffle (experiments (root w)) (random_source w)) as [cur' g].
  simpl in Hsh. destruct Hroot as (Hr & Hroot).
  assert (cur' ≡ₚ v) as Hcur' by (by rewrite Hsh, Hr).
  assert (mapM (receive cur') (others w)
          = Some (with_experiments cur' <$> others w)) as ->.
  { apply mapM_Some_2, Forall2_fmap_r, Forall_Forall2_diag.
    eapply Forall_impl; [exact Hothers|]. intros p (Hp & _).
    apply receive_root_list.
    - by rewrite Hcur'.
    - by rewrite Hp, Hcur', Hcur. }
  simpl. eexists _, cur'. split_and!; [done|done|..].
  - simpl. by rewrite !length_fmap.
  - unfold processes. simpl. constructor.
    + apply (run_experiments_in_step env v cur); [done|by split].
    + rewrite <- list_fmap_compose. apply Forall_fmap.
      eapply Forall_impl; [exact Hothers|]. intros p Hp. simpl.
      by apply (run_experiments_in_step env v cur).
Qed.

Lemma repetitions_in_step (env : Env) (v : list Experiments) (turns : nat)
    (cur : list Experiments) (orders : list (list Experiments)) (w : World) :
  (length v <= 7)%nat ->
  cur ≡ₚ v ->
  Forall (in_step env v cur orders) (processes w) ->
  exists w' cur' new_orders,
    repetitions env turns w = Some w'
    /\ length new_orders = turns
    /\ Forall (fun o => o ≡ₚ v) new_orders
    /\ length (others w') = length (others w)
    /\ Forall (in_step env v cur' (orders ++ new_orders)) (processes w').
Proof.
  intros Hlen. revert cur orders w.
  induction turns as [|turns IH]; intros cur orders w Hcur Hw.
  - exists w, cur, []. rewrite app_nil_r. by split_and!.
  - destruct (repetition_in_step env v cur orders w Hlen Hcur Hw)
      as (w1 & cur1 & Hrep & Hcur1 & Hn1 & Hw1).
    destruct (IH cur1 (orders ++ [cur1]) w1 Hcur1 Hw1)
      as (w' & cur' & new & Hreps & Hnew & Hperm & Hn & Hw').
    exists w', cur', (cur1 :: new). simpl. rewrite Hrep. simpl.
    rewrite <- app_assoc in Hw'. split_and!; [done| |by constructor| |done].
    + by rewrite Hnew.
    + by rewrite Hn.
Qed.

Lemma initial_in_step (env : Env) (v : list Experiments) :
  in_step env v v [] (initial_process env v).
Proof. by split_and!. Qed.

(** One run of the loop: a list of [nrepeat] orders, each a permutation
    of the experiment list, that every process dispatches in turn. *)
Lemma experiment_loop_orders (env : Env) (v : list Experiments)
    (n_others : nat) (g : URBG) (nrepeat : Z) :
  (length v <= 7)%nat ->
  exists w cur orders,
    experiment_loop env v n_others g nrepeat = Some w
    /\ length orders = Z.to_nat nrepeat
    /\ Forall (fun o => o ≡ₚ v) orders
    /\ length (others w) = n_others
    /\ Forall (in_step env v cur orders) (processes w).
Proof.
  intros Hlen. unfold experiment_loop.
  set (w0 := {| root := initial_process env v;
                others := replicate n_others (initial_process env v);
                random_source := g |}).
  assert (Forall (in_step env v v []) (processes w0)) as Hw0.
  { constructor; [apply initial_in_step|].
    apply Forall_replicate, initial_in_step. }
  destruct v as [|e v].
  - exists w0, [], (replicate (Z.to_nat nrepeat) []).
    rewrite length_replicate. split_and!; [done|done| | |].
    + by apply Forall_replicate.
    + apply length_replicate.
    + eapply Forall_impl; [exact Hw0|]. intros p (? & Hd & ? & Hi).
      split_and!; [done| |done|done].
      rewrite Hd. clear. induction (Z.to_nat nrepeat); [done|by simpl].
  - destruct (repetitions_in_step env (e :: v) (Z.to_nat nrepeat)
                (e :: v) [] w0 Hlen) as (w & cur & orders & Hw);
      [done|done|].
    destruct Hw as (? & ? & ? & Hn & ?). exists w, cur, orders.
    split_and!; [done..| |done].
    rewrite Hn. apply length_replicate.
Qed.


(** *** The norm report *)

Lemma add_nan_r (a : double) : (a + nan)%float = nan.
Proof.
  apply Prim2SF_inj. rewrite add_spec.
  change (Prim2SF nan) with S754_nan. by destruct (Prim2SF a).
Qed.

Lemma norm2_sentinel (k : nat) : norm2 (replicate (S k) nan) = nan.
Proof.
  unfold norm2.
  assert (forall acc, foldl (fun acc a => (acc + a * a)%float) acc
                        (replicate (S k) nan) = nan) as ->; [|done].
  induction k as [|k IH]; intros acc.
  - simpl. change (nan * nan)%float with nan. apply add_nan_r.
  - change (replicate (S (S k)) nan) with (nan :: replicate (S k) nan).
    simpl foldl. apply IH.
Qed.

Lemma length_update (this : vector) (alpha : double) (a : vector)
    (beta : double) :
  length (update this alpha a beta) = length this.
Proof. apply length_imap. Qed.

(** The kernel of TPETRA is run once on the NaN-filled baseline before the
    loop when norms are wanted, and the loop never writes the baseline. *)
Lemma baseline_computed_once (env : Env) (v : list Experiments)
    (n_others : nat) (g : URBG) (nrepeat : Z) :
  (length v <= 7)%nat ->
  y_baseline (initial_process env v)
  = (if error_check_y env && norms_wanted env
     then kernel env TPETRA (x env) (replicate (num_rows env) nan)
     else replicate (num_rows env) nan)
  /\ exists w,
       experiment_loop env v n_others g nrepeat = Some w
       /\ Forall (fun p => y_baseline p = y_baseline (initial_process env v))
            (processes w).
Proof.
  intros Hlen. split; [done|].
  destruct (experiment_loop_orders env v n_others g nrepeat Hlen)
    as (w & cur & orders & Hrun & _ & _ & _ & Hw).
  exists w. split; [done|].
  eapply Forall_impl; [exact Hw|]. by intros p (_ & _ & ? & _).
Qed.

(** With the sentinel still in the buffer, the reported norm of [y] is
    NaN and the two readings of it do not compare equal. *)
Lemma sentinel_detected (env : Env) (p : Process) (e : Experiments) (k : nat) :
  error_check_y env && norms_wanted env = true ->
  y (dispatch env e p) = replicate (S k) nan ->
  exists y_err y_baseline_norm2 next,
    output (run_experiment env p e)
    = output (dispatch env e p)
      ++ [norm_report e y_err nan y_baseline_norm2 false next].
Proof.
  intros Hon Hy. unfold run_experiment, check_norms.
  rewrite Hon, Hy, norm2_sentinel. simpl. by eexists _, _, _.
Qed.

Lemma dispatch_baseline (env : Env) (e : Experiments) (p : Process) :
  y_baseline (dispatch env e p) = y_baseline p.
Proof. unfold dispatch. by destruct (case_compiled (build env) e). Qed.

(** C8, as the code has it by design: the norm check runs after a backend
    only when norm reporting is on (and Tpetra is built).  It then reports
    the norm of [y - y_baseline], the norm of [y], the norm of the
    baseline, and whether the norm of [y] read through the two handles of
    the one buffer compares equal, and fills [y] with NaN.  When reporting
    is off nothing is computed and [y] keeps what the backend wrote.  The
    baseline is never written by the step. *)
Theorem norm_check_after_backend (env : Env) (p : Process) (e : Experiments) :
  y_baseline (run_experiment env p e) = y_baseline p
  /\ (if error_check_y env && norms_wanted env
      then
        y (run_experiment env p e)
        = replicate (length (y (dispatch env e p))) nan
        /\ output (run_experiment env p e)
           = output (dispatch env e p)
             ++ [norm_report e
                   (norm2 (update (y (dispatch env e p)) (- one)%float
                             (y_baseline p) one))
                   (norm2 (y (dispatch env e p)))
                   (norm2 (y_baseline p))
                   (norm2 (y (dispatch env e p))
                    =? norm2 (y (dispatch env e p)))%float
                   (norm2 (replicate (length (y (dispatch env e p))) nan))]
      else run_experiment env p e = dispatch env e p).
Proof.
  split; [apply run_experiment_frame|].
  unfold run_experiment, check_norms.
  destruct (error_check_y env && norms_wanted env); [|done].
  simpl. unfold putScalar. rewrite length_update.
  by rewrite (dispatch_baseline env e p).
Qed.

(** C8 fails as stated: with the default flag the backend is invoked and
    no norm is reported, and [y] keeps the result, 3 and 4, not NaN; with
    the flag set, KK writes 6 and 8 against a baseline of 3 and 4, norm 10
    against norm 5, and the report still says that the norms compare
    equal. *)
Lemma norm_check_counterexample :
  invoked (run_experiment quiet_env (initial_process quiet_env [TPETRA]) TPETRA)
  = [TPETRA]
  /\ output (run_experiment quiet_env (initial_process quiet_env [TPETRA]) TPETRA)
     = []
  /\ y (run_experiment quiet_env (initial_process quiet_env [TPETRA]) TPETRA)
     = [3; 4]%float
  /\ output (run_experiment reporting_env (initial_process reporting_env [KK]) KK)
     = [norm_report KK 5%float 10%float 5%float true nan].
Proof. by vm_compute. Qed.

End DriverFacts.

(** ** Copying views *)

Module ViewsFacts.
Import Views.

Lemma length_copied (cast : Z -> Z) (written : list nat) (x1 x2 : list Z) :
  length (copied cast written x1 x2) = length x2.
Proof. apply length_imap. Qed.

Lemma copied_nil (cast : Z -> Z) (x1 x2 : list Z) : copied cast [] x1 x2 = x2.
Proof.
  apply list_eq. intros i. unfold copied. rewrite list_lookup_imap.
  destruct (x2 !! i); [|done]. cbv [fmap option_fmap option_map].
  by rewrite decide_False by apply not_elem_of_nil.
Qed.

Lemma copied_snoc (cast : Z -> Z) (written : list nat) (x1 x2 : list Z)
    (i : nat) (a : Z) :
  x1 !! i = Some a ->
  <[i := cast a]> (copied cast written x1 x2)
  = copied cast (written ++ [i]) x1 x2.
Proof.
  intros Ha. apply list_eq. intros j. unfold copied.
  destruct (decide (i = j)) as [<-|Hne].
  - rewrite list_lookup_imap.
    destruct (x2 !! i) as [b|] eqn:Hb.
    + rewrite list_lookup_insert_eq
        by (rewrite length_imap; by eapply lookup_lt_Some).
      cbv [fmap option_fmap option_map].
      rewrite decide_True
        by (apply elem_of_app; right; by apply list_elem_of_singleton).
      by rewrite (list_lookup_total_correct _ _ _ Ha).
    + cbv [fmap option_fmap option_map]. apply list_lookup_insert_None.
      rewrite list_lookup_imap. by rewrite Hb.
  - rewrite list_lookup_insert_ne by done. rewrite !list_lookup_imap.
    destruct (x2 !! j); [|done]. cbv [fmap option_fmap option_map].
    destruct (decide (j ∈ written)).
    + by rewrite decide_True by (apply elem_of_app; by left).
    + rewrite decide_False; [done|].
      intros [?|?%list_elem_of_singleton]%elem_of_app; [done|congruence].
Qed.

(** The loop in closed form, whatever the order of the work items. *)
Lemma copy_view_n_scheduled_spec (cast : Z -> Z) (schedule : list nat)
    (x1 x2 : list Z) :
  copy_view_n_scheduled cast schedule x1 x2
  = if decide (in_extent schedule x1 x2)
    then Ok (copied cast schedule x1 x2)
    else Err OutOfRange.
Proof.
  unfold copy_view_n_scheduled, parallel_for, in_extent.
  induction schedule as [|i schedule IH] using rev_ind.
  - rewrite decide_True by constructor. by rewrite copied_nil.
  - rewrite foldl_app. cbn [foldl]. rewrite IH.
    destruct (decide (Forall _ schedule)) as [Hall|Hall].
    + cbn [mbind result_bind]. unfold copy_entry.
      destruct (x1 !! i) as [a|] eqn:Ha.
      * rewrite length_copied. destruct (decide (i < length x2)%nat).
        -- rewrite decide_True.
           ++ by rewrite (copied_snoc _ _ _ _ _ _ Ha).
           ++ apply Forall_app. split; [done|]. constructor; [|done].
              split; [by eapply lookup_lt_Some|done].
        -- rewrite decide_False; [done|].
           intros [_ [_ ?]%Forall_singleton]%Forall_app. lia.
      * rewrite decide_False; [done|].
        intros [_ [? _]%Forall_singleton]%Forall_app.
        apply lookup_ge_None in Ha. lia.
    + cbn [mbind result_bind]. rewrite decide_False; [done|].
      by intros [? _]%Forall_app.
Qed.

Lemma in_extent_seq (k : nat) (x1 x2 : list Z) :
  (k <= length x1)%nat -> (k <= length x2)%nat -> in_extent (seq 0 k) x1 x2.
Proof.
  intros H1 H2. apply Forall_forall. intros i Hi%elem_of_seq. lia.
Qed.

Lemma copied_seq (cast : Z -> Z) (k : nat) (x1 x2 : list Z) :
  (k <= length x1)%nat -> (k <= length x2)%nat ->
  copied cast (seq 0 k) x1 x2 = (cast <$> take k x1) ++ drop k x2.
Proof.
  intros H1 H2. apply list_eq. intros j. unfold copied.
  rewrite list_lookup_imap.
  destruct (decide (j < k)%nat) as [Hj|Hj].
  - rewrite lookup_app_l by (rewrite length_fmap, length_take; lia).
    rewrite list_lookup_fmap, lookup_take_lt by done.
    destruct (lookup_lt_is_Some_2 x1 j) as [a Ha]; [lia|].
    destruct (lookup_lt_is_Some_2 x2 j) as [b Hb]; [lia|].
    rewrite Ha, Hb. cbv [fmap option_fmap option_map].
    rewrite decide_True by (apply elem_of_seq; lia).
    by rewrite (list_lookup_total_correct _ _ _ Ha).
  - rewrite lookup_app_r by (rewrite length_fmap, length_take; lia).
    rewrite length_fmap, length_take, lookup_drop.
    replace (k + (j - k `min` length x1))%nat with j by lia.
    destruct (x2 !! j); [|done]. cbv [fmap option_fmap option_map].
    rewrite decide_False; [done|]. intros ?%elem_of_seq. lia.
Qed.

(** X1: [copy_view_n(n, x1, x2)] with [0 <= n] inside both views
    overwrites the first [n] entries of [x2] with the converted first [n]
    entries of [x1] and leaves every later entry of [x2], and its extent, as
    they were; for [n = 0] nothing is written.  A negative [n] is no empty
    loop: converted to [size_t] it is a count of 2^64 + n, and the loop
    leaves the views. *)
Theorem copy_view_n_prefix (cast : Z -> Z) (n : Z) (x1 x2 : list Z) :
  (0 <= n < 2 ^ 31 ->
   (Z.to_nat n <= length x1)%nat -> (Z.to_nat n <= length x2)%nat ->
   copy_view_n cast n x1 x2
   = Ok ((cast <$> take (Z.to_nat n) x1) ++ drop (Z.to_nat n) x2))
  /\ (n = 0 -> copy_view_n cast n x1 x2 = Ok x2)
  /\ (- 2 ^ 31 <= n < 0 -> Z.of_nat (length x1) < 2 ^ 63 ->
      copy_view_n cast n x1 x2 = Err OutOfRange).
Proof.
  unfold copy_view_n. rewrite copy_view_n_scheduled_spec. split_and!.
  - intros Hn H1 H2. rewrite to_size_t_small by lia.
    rewrite decide_True by by apply in_extent_seq.
    by rewrite copied_seq.
  - intros ->. change (Z.to_nat (to_size_t 0)) with 0%nat.
    rewrite decide_True by constructor. by rewrite copied_nil.
  - intros Hn Hlen. rewrite decide_False; [done|].
    intros Hext.
    assert (to_size_t n = 2 ^ 64 + n) as Hcount.
    { unfold to_size_t. replace n with (2 ^ 64 + n + (-1) * 2 ^ 64) at 1 by lia.
      rewrite Z.mod_add by lia. apply Z.mod_small. lia. }
    assert (length x1 ∈ seq 0 (Z.to_nat (to_size_t n))) as Hin.
    { apply elem_of_seq. rewrite Hcount. lia. }
    destruct (proj1 (Forall_forall _ _) Hext _ Hin). lia.
Qed.

(** X2: the copy does not depend on the order in which the parallel loop
    runs its work items: any schedule that runs each of the items 0, ...,
    n-1 once gives the view that the sequential order gives. *)
Theorem copy_view_n_any_schedule (cast : Z -> Z) (n : Z)
    (schedule : list nat) (x1 x2 : list Z) :
  schedule ≡ₚ seq 0 (Z.to_nat (to_size_t n)) ->
  copy_view_n_scheduled cast schedule x1 x2 = copy_view_n cast n x1 x2.
Proof.
  intros Hperm. unfold copy_view_n. rewrite !copy_view_n_scheduled_spec.
  generalize dependent (Z.to_nat (to_size_t n)). intros k Hperm.
  assert (in_extent schedule x1 x2 <-> in_extent (seq 0 k) x1 x2)
    as Hext by (unfold in_extent; by rewrite Hperm).
  assert (copied cast schedule x1 x2 = copied cast (seq 0 k) x1 x2)
    as ->.
  { apply list_eq. intros j. unfold copied. rewrite !list_lookup_imap.
    destruct (x2 !! j); [|done]. cbv [fmap option_fmap option_map].
    destruct (decide (j ∈ schedule)) as [Hj|Hj]; rewrite Hperm in Hj.
    - by rewrite decide_True.
    - by rewrite decide_False. }
  destruct (decide (in_extent schedule x1 x2)) as [He|He].
  - by rewrite decide_True by by apply Hext.
  - rewrite decide_False; [done|]. intros ?. by apply He, Hext.
Qed.

(** X3: copying a view of non-negative entries below 2^31 (row pointers
    or column indices of a matrix with fewer than 2^31 entries) into an
    [int] view of the same extent gives the same entries: the conversion
    to [int] loses nothing. *)
Theorem copy_view_keeps_small_entries (x1 x2 : list Z) :
  Forall (fun a => 0 <= a < 2 ^ 31) x1 ->
  length x2 = length x1 ->
  Z.of_nat (length x1) < 2 ^ 31 ->
  copy_view to_int x1 x2 = Ok x1.
Proof.
  intros Hsmall Hlen Hext.
  assert (to_int <$> x1 = x1) as Hcast.
  { clear Hlen Hext. induction Hsmall as [|a x1' Ha _ IH]; [done|].
    csimpl. rewrite IH. by rewrite to_int_small by lia. }
  unfold copy_view, copy_view_n. rewrite to_int_small by lia.
  rewrite to_size_t_small by lia.
  rewrite Nat2Z.id, copy_view_n_scheduled_spec.
  rewrite decide_True by (apply in_extent_seq; lia).
  rewrite copied_seq by lia.
  by rewrite firstn_all, <- Hlen, drop_all, app_nil_r, Hcast.
Qed.

Lemma copy_view_n_prefix_witness :
  copy_view_n to_int 2 [5; 6; 7] [0; 0; 0; 9]
  = Ok ((to_int <$> take (Z.to_nat 2) [5; 6; 7])
        ++ drop (Z.to_nat 2) [0; 0; 0; 9])
  /\ copy_view_n to_int (-1) [5; 6; 7] [0; 0; 0; 9] = Err OutOfRange.
Proof.
  split.
  - apply (proj1 (copy_view_n_prefix to_int 2 [5; 6; 7] [0; 0; 0; 9]));
      simpl; lia.
  - apply (proj2 (proj2
             (copy_view_n_prefix to_int (-1) [5; 6; 7] [0; 0; 0; 9])));
      simpl; lia.
Defined.

Lemma copy_view_n_any_schedule_witness :
  copy_view_n_scheduled to_int [2; 0; 1]%nat [5; 6; 7] [0; 0; 0; 9]
  = copy_view_n to_int 3 [5; 6; 7] [0; 0; 0; 9].
Proof.
  apply (copy_view_n_any_schedule to_int 3 [2; 0; 1]%nat).
  change (seq 0 (Z.to_nat (to_size_t 3))) with [0; 1; 2]%nat.
  etrans; [apply Permutation_swap|]. apply perm_skip, Permutation_swap.
Defined.

Lemma copy_view_keeps_small_entries_witness :
  copy_view to_int [0; 2; 5] [0; 0; 0] = Ok [0; 2; 5].
Proof.
  apply (copy_view_keeps_small_entries [0; 2; 5] [0; 0; 0]).
  - repeat constructor; lia.
  - reflexivity.
  - simpl. lia.
Defined.

End ViewsFacts.

(** ** The cost reporter at its edges *)

Module ReportEdges.
Import DoubleFacts PerfReport PerfReportFacts Doubles ReportTable.

(** *** Division by one *)

Lemma binary_round_aux_canonical (s : bool) (p : positive) (e : Z) :
  fexp prec emax (Zpos (digits2_pos p) + e) = e -> e <= 971 ->
  binary_round_aux prec emax s (Zpos p) e loc_Exact = S754_finite s p e.
Proof.
  intros Hc He. unfold binary_round_aux.
  assert (shr_fexp prec emax (Zpos p) e loc_Exact
          = (Build_shr_record (Zpos p) false false, e)) as Hs.
  { unfold shr_fexp, Zdigits2. rewrite Hc.
    by replace (e - e) with 0 by lia. }
  rewrite Hs. simpl shr_m. simpl loc_of_shr_record. simpl round_nearest_even.
  rewrite Hs. simpl shr_m. unfold emax, prec.
  destruct (Z.leb_spec e (1024 - 53)); [done|lia].
Qed.

Lemma div_eucl_shift (m : positive) (k : positive) (j : Z) :
  Zpos k = 52 + j -> 0 <= j ->
  Z.div_eucl (Z.shiftl (Zpos m) (Zpos k)) 4503599627370496
  = (Zpos m * 2 ^ j, 0).
Proof.
  intros Hk Hj.
  pose proof (Z.div_eucl_eq (Z.shiftl (Zpos m) (Zpos k)) 4503599627370496)
    as Heq.
  pose proof (Z.mod_pos_bound (Z.shiftl (Zpos m) (Zpos k)) 4503599627370496)
    as Hb.
  unfold Z.modulo in Hb.
  destruct (Z.div_eucl _ _) as [q r].
  rewrite Z.shiftl_mul_pow2, Hk, Z.pow_add_r in Heq by lia.
  change (2 ^ 52) with 4503599627370496 in Heq.
  assert (0 < 2 ^ j) by (apply Z.pow_pos_nonneg; lia).
  assert (r = 0 /\ q = Zpos m * 2 ^ j) as [-> ->]; [|done].
  specialize (Heq ltac:(lia)). specialize (Hb ltac:(lia)). nia.
Qed.

(** Dividing a [double] by 1.0 gives it back, whatever it is. *)
Lemma div_one (x : double) : (x / 1)%float = x.
Proof.
  apply Prim2SF_inj. rewrite div_spec.
  change (Prim2SF 1) with (S754_finite false 4503599627370496 (-52)).
  pose proof (Prim2SF_valid x) as Hv.
  destruct (Prim2SF x) as [s|s| |s m e];
    [by destruct s|by destruct s|done|].
  unfold valid_binary, bounded, canonical_mantissa in Hv.
  apply andb_prop in Hv as [Hc He].
  apply Z.leb_le in He. apply Z.eqb_eq in Hc.
  unfold emax, prec in He.
  unfold SF64div, SFdiv, SFdiv_core_binary.
  change (Zdigits2 4503599627370496) with 53.
  unfold Zdigits2.
  replace (xorb s false) with s by by destruct s.
  assert (fexp prec emax (Zpos (digits2_pos m) + e - (53 + -52))
            `min` (e - -52)
          = if decide (e = -1074) then -1074 else e - 1) as ->.
  { revert Hc. unfold fexp, emin, emax, prec.
    destruct (decide (e = -1074)); lia. }
  destruct (decide (e = -1074)) as [->|Hne].
  - change (-1074 - -52 - -1074) with 52. cbv iota.
    change IntDef.Z.div_eucl with Z.div_eucl.
    change IntDef.Z.shiftl with Z.shiftl.
    rewrite (div_eucl_shift m 52 0) by lia.
    rewrite Z.mul_1_r. change (new_location 4503599627370496 0) with loc_Exact.
    by apply binary_round_aux_canonical.
  - replace (e - -52 - (e - 1)) with 53 by lia. cbv iota.
    change IntDef.Z.div_eucl with Z.div_eucl.
    change IntDef.Z.shiftl with Z.shiftl.
    rewrite (div_eucl_shift m 53 1) by lia.
    change (new_location 4503599627370496 0) with loc_Exact.
    assert (Zpos (digits2_pos m) = 53 /\ -1074 <= e) as [Hd Hmin].
    { revert Hc. unfold fexp, emin, emax, prec. lia. }
    replace (Zpos m * 2 ^ 1) with (Zpos (shl m 1)) by (rewrite shl_S; simpl; lia).
    rewrite (binary_round_aux_exact s m 1 0 (e - 1)) by lia.
    simpl shl. f_equal. lia.
Qed.

(** X23: with one call the time per call is the time itself, so that the
    bandwidth is the memory volume in GiB over the time, with no other
    rounding: for every [double] time and memory volume,
    [convert_time_to_bandwidth_gbs(time, 1, memory)] is
    [memory / GB / time]. *)
Theorem bandwidth_of_one_call (time memory : double) :
  convert_time_to_bandwidth_gbs time 1 memory = (memory / GB / time)%float.
Proof.
  unfold convert_time_to_bandwidth_gbs. cbn zeta.
  change (double_of_Z 1) with 1%float. by rewrite div_one.
Qed.

Lemma Prim2SF_zero_div (n : positive) :
  Zpos n < 2 ^ 53 ->
  Prim2SF (0%float / double_of_Z (Zpos n)) = S754_zero false.
Proof.
  intros Hn. rewrite div_spec, Prim2SF_double_of_Z_pos by done. done.
Qed.

(** X4: a measured time of exactly zero gives no bandwidth: for any number
    of calls between 1 and 2^53 and any memory volume,
    [convert_time_to_bandwidth_gbs] returns an infinity or a NaN. *)
Theorem bandwidth_of_zero_time (num_calls : Z) (memory : double) :
  0 < num_calls < 2 ^ 53 ->
  finite (convert_time_to_bandwidth_gbs 0%float num_calls memory) = false.
Proof.
  intros Hn. destruct num_calls as [|n|n]; [lia| |lia].
  unfold convert_time_to_bandwidth_gbs, finite. cbn zeta.
  rewrite div_spec, Prim2SF_zero_div by lia.
  by destruct (Prim2SF (memory / GB)).
Qed.

Lemma bandwidth_of_zero_time_witness :
  finite (convert_time_to_bandwidth_gbs 0%float 1 80%float) = false.
Proof. apply (bandwidth_of_zero_time 1 80%float). lia. Defined.

(** X5: for a matrix without a graph the report completes: only the
    stream table and the ping-pong table (with [m_log_max = 15]) are built,
    no halo table, and the four remote times are exactly zero. *)
Theorem report_without_graph (cfg : Config) (W : list Rank) (rk : Rank)
    (nrepeat : Z) :
  getCrsGraph (A rk) = None ->
  exists rep,
    report_performance_models cfg W rk nrepeat = Ok rep
    /\ pm_calls rep
       = [stream_vector_make_table nrepeat (log_max cfg (nnz (A rk)));
          pingpong_make_table nrepeat 15]
    /\ time_pack_unpack_outofplace (remote rep) = 0%float
    /\ time_pack_unpack_inplace (remote rep) = 0%float
    /\ time_communicate_ping (remote rep) = 0%float
    /\ time_communicate_halo (remote rep) = 0%float.
Proof.
  intros Hg.
  unfold report_performance_models, make_tables, halo_local_log_max,
    remote_times.
  rewrite Hg. by eexists.
Qed.

Lemma report_without_graph_witness :
  exists rep,
    report_performance_models double_int_config [small_rank] small_rank 10
    = Ok rep
    /\ pm_calls rep
       = [stream_vector_make_table 10
            (log_max double_int_config (nnz (A small_rank)));
          pingpong_make_table 10 15]
    /\ time_pack_unpack_outofplace (remote rep) = 0%float
    /\ time_pack_unpack_inplace (remote rep) = 0%float
    /\ time_communicate_ping (remote rep) = 0%float
    /\ time_communicate_halo (remote rep) = 0%float.
Proof.
  apply (report_without_graph double_int_config [small_rank] small_rank 10).
  reflexivity.
Defined.

Lemma message_times_without_distributor (cfg : Config) (P : PerfModels)
    (importer : Importer) :
  HAVE_MUELU_TPETRA cfg = false \/ getTpetra_Import importer = None ->
  message_times cfg P importer = Ok no_messages.
Proof.
  intros Hno. unfold message_times. destruct Hno as [->| ->]; [done|].
  by destruct (HAVE_MUELU_TPETRA cfg).
Qed.

(** X6: when the importer is not a Tpetra importer, or Tpetra is not
    built, no message is priced: the remote model completes, no halo-pong
    lookup is made, and both communication times are exactly zero. *)
Theorem communication_without_distributor (cfg : Config) (W : list Rank)
    (rk : Rank) (g : CrsGraph) (importer : Importer) :
  getCrsGraph (A rk) = Some g ->
  getImporter g = Some importer ->
  HAVE_MUELU_TPETRA cfg = false \/ getTpetra_Import importer = None ->
  (exists mt, message_times cfg (PM rk) importer = Ok mt
              /\ halopong_lookups mt = [])
  /\ exists rt,
       remote_times cfg W rk = Ok rt
       /\ time_communicate_ping rt = 0%float
       /\ time_communicate_halo rt = 0%float.
Proof.
  intros Hg Hi Hno.
  pose proof (message_times_without_distributor cfg (PM rk) importer Hno)
    as Hmt.
  split; [by eexists|]. unfold remote_times. rewrite Hg, Hi. cbn zeta.
  rewrite Hmt. by eexists.
Qed.

(** X7: an importer that has no same, permuted, exported or remote
    entries costs nothing to pack and unpack, whatever the tables and the
    launch latency say: both pack/unpack times are exactly zero, and the
    communication times are those of the message loop. *)
Theorem pack_unpack_of_empty_importer (cfg : Config) (W : list Rank)
    (rk : Rank) (g : CrsGraph) (importer : Importer) (mt : MessageTimes) :
  getCrsGraph (A rk) = Some g ->
  getImporter g = Some importer ->
  getNumSameIDs importer = 0 -> getNumPermuteIDs importer = 0 ->
  getNumExportIDs importer = 0 -> getNumRemoteIDs importer = 0 ->
  message_times cfg (PM rk) importer = Ok mt ->
  exists rt,
    remote_times cfg W rk = Ok rt
    /\ time_pack_unpack_outofplace rt = 0%float
    /\ time_pack_unpack_inplace rt = 0%float
    /\ time_communicate_ping rt = fmax (send_time mt) (recv_time mt)
    /\ time_communicate_halo rt = halo_time mt.
Proof.
  intros Hg Hi Hs Hp He Hr Hmt.
  unfold remote_times. rewrite Hg, Hi. cbn zeta.
  rewrite Hs, Hp, He, Hr, Hmt. by eexists.
Qed.

Lemma pack_unpack_of_empty_importer_witness :
  exists rt,
    remote_times double_int_config [idle_rank] idle_rank = Ok rt
    /\ time_pack_unpack_outofplace rt = 0%float
    /\ time_pack_unpack_inplace rt = 0%float
    /\ time_communicate_ping rt = fmax 272%float 108%float
    /\ time_communicate_halo rt = 24%float.
Proof.
  apply (pack_unpack_of_empty_importer double_int_config [idle_rank] idle_rank
           {| getImporter := Some idle_importer |} idle_importer
           {| send_time := 272%float; recv_time := 108%float;
              halo_time := 24%float;
              total_send_length := 48; total_recv_length := 24;
              avg_size_per_msg := 24%float;
              halopong_lookups := [24%float] |});
    reflexivity.
Defined.

(** X8: a distributor with more receive lengths than send lengths makes
    the receive loop index [send_lengths] past its end: the message model,
    and with it the remote model, ends in an out-of-range access. *)
Theorem more_receives_than_sends (cfg : Config) (W : list Rank) (rk : Rank)
    (g : CrsGraph) (importer : Importer) (distor : Distributor) :
  getCrsGraph (A rk) = Some g ->
  getImporter g = Some importer ->
  HAVE_MUELU_TPETRA cfg = true ->
  getTpetra_Import importer = Some distor ->
  (length (getLengthsTo distor) < length (getLengthsFrom distor))%nat ->
  message_times cfg (PM rk) importer = Err OutOfRange
  /\ remote_times cfg W rk = Err OutOfRange.
Proof.
  intros Hg Hi Htp Hd Hlen.
  assert (message_times cfg (PM rk) importer = Err OutOfRange) as Hmt.
  { unfold message_times. rewrite Htp, Hd. cbn zeta.
    destruct (send_loop cfg (PM rk) (getLengthsTo distor)) as [st tsl].
    by rewrite recv_loop_out_of_range by lia. }
  split; [done|]. unfold remote_times. rewrite Hg, Hi. cbn zeta.
  by rewrite Hmt.
Qed.

Lemma more_receives_than_sends_witness :
  let importer :=
    {| getRemoteLIDs_size := 12; getExportLIDs_size := 3;
       getNumSameIDs := 10; getNumPermuteIDs := 0;
       getNumExportIDs := 3; getNumRemoteIDs := 12;
       getTpetra_Import :=
         Some {| getLengthsFrom := [2; 4; 6]; getLengthsTo := [3] |} |} in
  let rk :=
    {| A := {| getLocalNumRows := 3; getColMap_getLocalNumElements := 3;
               graph_entries_extent := 10;
               getCrsGraph := Some {| getImporter := Some importer |} |};
       PM := sample_tables |} in
  message_times double_int_config (PM rk) importer = Err OutOfRange
  /\ remote_times double_int_config [rk] rk = Err OutOfRange.
Proof.
  cbv zeta.
  eapply (more_receives_than_sends double_int_config);
    [reflexivity|reflexivity|reflexivity|reflexivity|simpl; lia].
Defined.

Lemma communication_without_distributor_witness :
  let importer :=
    {| getRemoteLIDs_size := 12; getExportLIDs_size := 3;
       getNumSameIDs := 10; getNumPermuteIDs := 0;
       getNumExportIDs := 3; getNumRemoteIDs := 12;
       getTpetra_Import := None |} in
  let rk :=
    {| A := {| getLocalNumRows := 3; getColMap_getLocalNumElements := 3;
               graph_entries_extent := 10;
               getCrsGraph := Some {| getImporter := Some importer |} |};
       PM := sample_tables |} in
  (exists mt, message_times double_int_config (PM rk) importer = Ok mt
              /\ halopong_lookups mt = [])
  /\ exists rt,
       remote_times double_int_config [rk] rk = Ok rt
       /\ time_communicate_ping rt = 0%float
       /\ time_communicate_halo rt = 0%float.
Proof.
  cbv zeta.
  eapply (communication_without_distributor double_int_config);
    [reflexivity|reflexivity|by right].
Defined.

(** *** The byte total of the "all" model *)

(** X21: the byte total that the "all" model divides by the bandwidth is
    kept in 64 bits and does not wrap: for every matrix with non-negative
    local counts (and element sizes of at most 2^30 bytes) it is the exact
    sum of the five byte volumes, also when that sum is 2^31 or more, where
    the size handed to the table lookup, an [int], has wrapped. *)
Theorem byte_total_never_wraps (cfg : Config) (M : Matrix) :
  0 < sizeof_SC cfg <= 2 ^ 30 -> 0 < sizeof_LO cfg <= 2 ^ 30 ->
  0 <= m M -> m M + 1 < 2 ^ 31 -> 0 <= n M -> 0 <= nnz M ->
  spmv_memory_bytes cfg M !!! 5%nat = all_bytes cfg M.
Proof.
  intros HSC HLO Hm Hm1 Hn Hnnz.
  pose proof (to_int_range (getColMap_getLocalNumElements M)) as Hn31.
  pose proof (to_int_range (graph_entries_extent M)) as Hnnz31.
  fold (n M) in Hn31. fold (nnz M) in Hnnz31.
  unfold all_bytes, rowptr_bytes, colind_bytes, values_bytes, x_bytes,
    y_bytes, sizeof_rowptr_type in *.
  assert (to_int (m M + 1) = m M + 1) as Hm1' by (apply to_int_small; lia).
  change (spmv_memory_bytes cfg M !!! 5%nat) with
    (size_t_add
      (size_t_add
        (size_t_add
          (size_t_add
            (size_t_add 0
              (size_t_mul (to_size_t (to_int (m M + 1))) 8))
            (size_t_mul (to_size_t (nnz M)) (sizeof_LO cfg)))
          (size_t_mul (to_size_t (nnz M)) (sizeof_SC cfg)))
        (size_t_mul (to_size_t (n M)) (sizeof_SC cfg)))
      (size_t_mul (to_size_t (m M)) (sizeof_SC cfg))).
  revert Hm Hm1 Hn Hnnz Hn31 Hnnz31 Hm1'.
  generalize (m M) (n M) (nnz M). intros m n nnz Hm Hm1 Hn Hnnz Hn31 Hnnz31 ->.
  assert (0 <= nnz * sizeof_LO cfg < 2 ^ 61) by nia.
  assert (0 <= nnz * sizeof_SC cfg < 2 ^ 61) by nia.
  assert (0 <= n * sizeof_SC cfg < 2 ^ 61) by nia.
  assert (0 <= m * sizeof_SC cfg < 2 ^ 61) by nia.
  rewrite (to_size_t_small (m + 1)), (to_size_t_small nnz),
    (to_size_t_small n), (to_size_t_small m) by lia.
  rewrite !size_t_mul_small by lia.
  rewrite (size_t_add_small 0) by lia.
  rewrite size_t_add5_small by lia.
  lia.
Qed.

Lemma byte_total_never_wraps_witness :
  spmv_memory_bytes double_int_config large_matrix !!! 5%nat
  = all_bytes double_int_config large_matrix.
Proof.
  apply (byte_total_never_wraps double_int_config large_matrix);
    by vm_compute.
Defined.

(** *** The size of the halo table *)

Lemma reduceAll_MAX_ge (contrib : list Z) (mine : Z) :
  mine <= reduceAll_MAX contrib mine
  /\ Forall (fun l => l <= reduceAll_MAX contrib mine) contrib.
Proof.
  unfold reduceAll_MAX. induction contrib as [|l contrib [IH1 IH2]].
  - split; [done|constructor].
  - cbn [foldr]. split; [lia|]. constructor; [lia|].
    eapply Forall_impl; [exact IH2|]. intros ? ?. cbn beta in *. lia.
Qed.

Lemma reduceAll_MAX_le (contrib : list Z) (mine bound : Z) :
  mine <= bound -> Forall (fun l => l <= bound) contrib ->
  reduceAll_MAX contrib mine <= bound.
Proof.
  intros Hm Hall. unfold reduceAll_MAX.
  induction Hall as [|l contrib Hl _ IH]; [done|]. cbn [foldr]. lia.
Qed.

Lemma reduceAll_MAX_agree (contrib : list Z) (a b : Z) :
  a ∈ contrib -> b ∈ contrib ->
  reduceAll_MAX contrib a = reduceAll_MAX contrib b.
Proof.
  intros Ha Hb.
  destruct (reduceAll_MAX_ge contrib a) as [_ Hga].
  destruct (reduceAll_MAX_ge contrib b) as [_ Hgb].
  pose proof (proj1 (Forall_forall _ _) Hga b Hb) as Hba.
  pose proof (proj1 (Forall_forall _ _) Hgb a Ha) as Hab.
  cbn beta in Hba, Hab.
  pose proof (reduceAll_MAX_le contrib a _ Hab Hgb).
  pose proof (reduceAll_MAX_le contrib b _ Hba Hga).
  lia.
Qed.

Lemma others_log_max_elem (cfg : Config) (W : list Rank) (rk : Rank)
    (g : CrsGraph) (importer : Importer) :
  rk ∈ W ->
  getCrsGraph (A rk) = Some g -> getImporter g = Some importer ->
  local_log_max cfg importer ∈ others_log_max cfg W.
Proof.
  intros Hin Hg Hi. unfold others_log_max. apply list_elem_of_omap.
  exists rk. split; [done|]. unfold halo_local_log_max. by rewrite Hg, Hi.
Qed.

(** X10: the size of the halo table is agreed on: any two processes of
    the communicator whose graphs have an importer build it with the same
    [global_log_max], which is at least the [local_log_max] of each. *)
Theorem halo_table_size_agreed (cfg : Config) (W : list Rank)
    (rk1 rk2 : Rank) (g1 g2 : CrsGraph) (imp1 imp2 : Importer)
    (nrepeat : Z) :
  rk1 ∈ W -> rk2 ∈ W ->
  getCrsGraph (A rk1) = Some g1 -> getImporter g1 = Some imp1 ->
  getCrsGraph (A rk2) = Some g2 -> getImporter g2 = Some imp2 ->
  exists global_log_max,
    make_tables cfg W rk1 nrepeat
    = Ok [stream_vector_make_table nrepeat (log_max cfg (nnz (A rk1)));
          pingpong_make_table nrepeat 15;
          halopong_make_table nrepeat global_log_max]
    /\ make_tables cfg W rk2 nrepeat
       = Ok [stream_vector_make_table nrepeat (log_max cfg (nnz (A rk2)));
             pingpong_make_table nrepeat 15;
             halopong_make_table nrepeat global_log_max]
    /\ local_log_max cfg imp1 <= global_log_max
    /\ local_log_max cfg imp2 <= global_log_max.
Proof.
  intros Hin1 Hin2 Hg1 Hi1 Hg2 Hi2.
  pose proof (others_log_max_elem cfg W rk1 g1 imp1 Hin1 Hg1 Hi1) as He1.
  pose proof (others_log_max_elem cfg W rk2 g2 imp2 Hin2 Hg2 Hi2) as He2.
  exists (reduceAll_MAX (others_log_max cfg W) (local_log_max cfg imp1)).
  unfold make_tables, halo_local_log_max.
  rewrite Hg1, Hi1, Hg2, Hi2. cbn [mbind result_bind]. cbn zeta.
  rewrite (reduceAll_MAX_agree _ _ _ He2 He1).
  split_and!; [done|done|apply reduceAll_MAX_ge|].
  destruct (reduceAll_MAX_ge (others_log_max cfg W) (local_log_max cfg imp1))
    as [_ Hall].
  by apply (proj1 (Forall_forall _ _) Hall).
Qed.

Lemma halo_table_size_agreed_witness :
  let rk1 :=
    {| A := {| getLocalNumRows := 3; getColMap_getLocalNumElements := 3;
               graph_entries_extent := 10;
               getCrsGraph := Some {| getImporter := Some sample_importer |} |};
       PM := sample_tables |} in
  exists global_log_max,
    make_tables double_int_config [rk1; idle_rank] rk1 10
    = Ok [stream_vector_make_table 10
            (log_max double_int_config (nnz (A rk1)));
          pingpong_make_table 10 15;
          halopong_make_table 10 global_log_max]
    /\ make_tables double_int_config [rk1; idle_rank] idle_rank 10
       = Ok [stream_vector_make_table 10
               (log_max double_int_config (nnz (A idle_rank)));
             pingpong_make_table 10 15;
             halopong_make_table 10 global_log_max]
    /\ local_log_max double_int_config sample_importer <= global_log_max
    /\ local_log_max double_int_config idle_importer <= global_log_max.
Proof.
  cbv zeta.
  eapply (halo_table_size_agreed double_int_config);
    [apply list_elem_of_here|apply list_elem_of_further, list_elem_of_here
    |reflexivity..].
Defined.

(** *** The table of timers *)

Lemma timers_shown_app (out1 out2 : list Printed) :
  timers_shown (out1 ++ out2) = timers_shown out1 ++ timers_shown out2.
Proof. apply omap_app. Qed.

Lemma timers_shown_table (lookupCounter : string -> option Time)
    (rep : Report) (names : list string) (out : list Printed) :
  timers_shown
    (foldl (fun out name =>
              match lookupCounter name with
              | Some t => out ++ [table_line (table_row rep name t)]
              | None => out
              end) out names)
  = timers_shown out
    ++ filter (fun name => is_Some (lookupCounter name)) names.
Proof.
  revert out. induction names as [|name names IH]; intros out.
  - by rewrite app_nil_r.
  - cbn [foldl]. rewrite IH. destruct (lookupCounter name) as [t|] eqn:Ht.
    + rewrite timers_shown_app, <- app_assoc. f_equal.
      rewrite filter_cons_True by (by rewrite Ht). done.
    + rewrite filter_cons_False; [done|]. rewrite Ht. by intros [? ?].
Qed.

(** X9: the table at the end of the report has a line for exactly those
    of the seven backend timers that exist, in the fixed order MKL, KK,
    Tpetra, CuSparse, MagmaSparse, HYPRE, Petsc, and for no other timer; it
    is printed on rank 0 only, and with a null [globalTimeMonitor] (stacked
    timers) the note takes its place. *)
Theorem timer_table_rows (rank : Z) (globalTimeMonitor : option unit)
    (lookupCounter : string -> option Time) (rep : Report) :
  timers_shown (print_report rank globalTimeMonitor lookupCounter rep)
  = (if decide (rank = 0 /\ is_Some globalTimeMonitor)
     then filter (fun name => is_Some (lookupCounter name)) timer_names
     else [])
  /\ (rank <> 0 ->
      print_report rank globalTimeMonitor lookupCounter rep = [])
  /\ (rank = 0 -> globalTimeMonitor = None ->
      stacked_timers_note
        ∈ print_report rank globalTimeMonitor lookupCounter rep).
Proof.
  unfold print_report. cbn zeta. split_and!.
  - destruct (decide (rank = 0)) as [->|Hrank].
    + destruct globalTimeMonitor as [[]|].
      * rewrite decide_True by (split; [done|by eexists]).
        rewrite timers_shown_app, timers_shown_table. done.
      * rewrite decide_False; [done|]. by intros [_ [? ?]].
    + rewrite decide_False; [done|]. by intros [? _].
  - intros Hrank. by rewrite !decide_False by done.
  - intros -> ->. rewrite decide_True by done. set_solver.
Qed.

End ReportEdges.

(** ** Copying the matrix into Petsc and Hypre *)

Module SpmvPackFacts.
Import ContiguousMaps ContiguousMapsFacts SpmvPack.

Lemma translate_from_spec (invalid : Z) (cast : Z -> Z) (c_col : list Z)
    (indices : list Z) (j : nat) (new_indices : list Z) :
  (j + length indices <= length new_indices)%nat ->
  translate_from invalid cast c_col indices j new_indices
  = Ok (take j new_indices
        ++ ((fun lid => cast (getGlobalElement invalid c_col lid))
              <$> indices)
        ++ drop (j + length indices) new_indices).
Proof.
  revert j new_indices.
  induction indices as [|lid rest IH]; intros j buf Hlen.
  - cbn [translate_from length fmap list_fmap app].
    by rewrite Nat.add_0_r, take_drop.
  - cbn [translate_from]. cbn [length] in Hlen.
    rewrite decide_True by lia.
    rewrite IH by (rewrite length_insert; lia).
    f_equal. rewrite fmap_cons.
    rewrite (take_S_r _ j (cast (getGlobalElement invalid c_col lid)))
      by (apply list_lookup_insert_eq; lia).
    rewrite take_insert_ge by lia.
    rewrite drop_insert_lt by lia.
    cbn [length].
    replace (j + S (length rest))%nat with (S j + length rest)%nat by lia.
    by rewrite <- app_assoc.
Qed.

Lemma fill_from_spec (invalid : Z) (cast : Z -> Z) (c_row c_col : list Z)
    (rows : list (list (Z * double))) (i : Z) (new_indices : list Z) :
  Forall (fun row => (length row <= length new_indices)%nat) rows ->
  fill_from invalid cast c_row c_col rows i new_indices
  = Ok (translated_rows invalid cast c_row c_col i rows).
Proof.
  revert i new_indices.
  induction rows as [|row rest IH]; intros i buf Hfit; [done|].
  apply Forall_cons in Hfit as [Hrow Hrest].
  cbn [fill_from].
  rewrite translate_from_spec by (rewrite length_fmap; simpl; lia).
  cbn [mbind result_bind]. cbn zeta.
  rewrite IH.
  2:{ eapply Forall_impl; [exact Hrest|]. intros r Hr. cbn beta in *.
      rewrite !length_app, length_fmap, length_drop, length_fmap.
      simpl. lia. }
  cbn [mbind result_bind]. f_equal.
  unfold translated_rows. rewrite imap_cons. f_equal.
  - replace (i + Z.of_nat 0) with i by lia. f_equal.
    rewrite Nat2Z.id, take_0. cbn [app].
    rewrite take_app_length'; [done|]. by rewrite !length_fmap.
  - apply imap_ext. intros k r _. unfold compose. cbn beta.
    by replace (i + Z.of_nat (S k)) with (i + 1 + Z.of_nat k) by lia.
Qed.

Lemma rows_fit_buffer (rows : list (list (Z * double))) :
  Forall (fun row : list (Z * double) =>
            (length row
             <= length (replicate (getLocalMaxNumRowEntries rows) 0%Z))%nat)
         rows.
Proof.
  apply Forall_forall. intros row Hrow. rewrite length_replicate.
  unfold getLocalMaxNumRowEntries. apply max_list_elem_of_le.
  apply list_elem_of_fmap. by exists row.
Qed.

Lemma concat_lookup_offset {X : Type} (lists : list (list X)) (p i : nat)
    (l : list X) (x : X) :
  lists !! p = Some l -> l !! i = Some x ->
  concat lists !! (length (concat (take p lists)) + i)%nat = Some x.
Proof.
  revert p. induction lists as [|l0 lists IH]; intros p Hp Hi; [done|].
  destruct p as [|p].
  - injection Hp as ->. simpl. by apply lookup_app_l_Some.
  - cbn [take concat]. rewrite length_app, <- Nat.add_assoc.
    rewrite lookup_app_r by lia.
    replace (length l0 + _ - length l0)%nat
      with (length (concat (take p lists)) + i)%nat by lia.
    by apply IH.
Qed.

Lemma contiguous_lists_lookup (first : Z) (lists : list (list Z)) (p : nat)
    (l : list Z) :
  lists !! p = Some l ->
  contiguous_lists first (length <$> lists) !! p
  = Some (seqZ (first + Z.of_nat (length (concat (take p lists))))
            (Z.of_nat (length l))).
Proof.
  revert first p. induction lists as [|l0 lists IH]; intros first p Hp; [done|].
  destruct p as [|p].
  - injection Hp as ->. simpl. do 2 f_equal. lia.
  - cbn [fmap list_fmap contiguous_lists lookup list_lookup].
    cbn [lookup list_lookup] in Hp. rewrite (IH _ _ Hp).
    cbn [take concat]. rewrite length_app. do 2 f_equal. lia.
Qed.

(** X11: the fill loop hands every local row to the library once, in
    order: row [i] under the (converted) identifier of local row [i] in
    the contiguous row map, with as many entries as the row has, its
    column identifiers being those of the row's local column indices in the
    contiguous column map and its values unchanged.  The index buffer, which
    is reused from row to row, is never overrun and none of its stale
    entries is handed over. *)
Theorem fill_matrix_translates (invalid : Z) (cast : Z -> Z)
    (c_row_map c_col_map : map_type) (p : nat) (rows : list (list (Z * double))) :
  fill_matrix invalid cast c_row_map c_col_map p rows
  = Ok (translated_rows invalid cast
          (LocalElementLists c_row_map !!! p)
          (LocalElementLists c_col_map !!! p) 0 rows).
Proof.
  unfold fill_matrix. apply fill_from_spec, rows_fit_buffer.
Qed.

Lemma getGlobalElement_lookup (invalid : Z) (gids : list Z) (i : nat)
    (g : Z) :
  gids !! i = Some g -> getGlobalElement invalid gids (Z.of_nat i) = g.
Proof.
  intros Hg. unfold getGlobalElement. rewrite decide_True by lia.
  by rewrite Nat2Z.id, Hg.
Qed.

(** X12: for a matrix whose maps are not contiguous, the constructor of
    the Petsc and Hypre packs hands the library the same matrix under new
    numbers: local row [i] of process [p] goes in under the position of its
    old row identifier in the rank-ordered old row map, each of its entries
    under the position of its old column identifier in the rank-ordered old
    domain map, with the values unchanged. *)
Theorem pack_matrix_renumbers (invalid : Z) (cast : Z -> Z) (h : heap)
    (Matrix : crs_matrix_type) (rowmap domainmap columnmap : map_type)
    (p : nat) (my_rows my_cols : list Z) (rows : list (list (Z * double))) :
  h !! getRowMap Matrix = Some rowmap ->
  h !! getDomainMap Matrix = Some domainmap ->
  h !! getColMap Matrix = Some columnmap ->
  isContiguous rowmap = false ->
  isContiguous domainmap = false ->
  getImporter Matrix <> None ->
  valid_columns domainmap columnmap ->
  LocalElementLists rowmap !! p = Some my_rows ->
  LocalElementLists columnmap !! p = Some my_cols ->
  length rows = length my_rows ->
  valid_rows (length my_cols) rows ->
  (forall z, 0 <= z < 2 ^ 31 -> cast z = z) ->
  Z.of_nat (length (all_identifiers rowmap)) < 2 ^ 31 ->
  Z.of_nat (length (all_identifiers domainmap)) < 2 ^ 31 ->
  exists calls,
    pack_matrix invalid cast h Matrix p rows = Ok calls
    /\ Forall2 (fun old call =>
                  renumbered rowmap domainmap my_cols old.1 old.2 call)
         (zip my_rows rows) calls.
Proof.
  intros Hr Hd Hc Hrow Hdom Himp Hvalid Hmy Hcols Hlen Hrows Hcast HN HM.
  destruct (MakeContiguousMaps_spec h Matrix _ _ _ Hr Hd Hc)
    as (h' & r & c & d & Hrun & Hsub & Hr' & Hd').
  rewrite Hrow in Hr'. rewrite Hdom in Hd'. cbn zeta in Hd'.
  destruct Hr' as [_ Hr']. destruct Hd' as (_ & _ & _ & Hc').
  destruct (getImporter Matrix) as [imp|] eqn:Hi; [|done].
  destruct (doImport_positions domainmap columnmap Hvalid)
    as (Hclen & _ & Hpos).
  cbn zeta in Hclen, Hpos.
  eexists. unfold pack_matrix. rewrite Hrun. cbn [mbind result_bind].
  rewrite (deref_lookup _ _ _ Hr'). cbn [mbind result_bind].
  rewrite (deref_lookup _ _ _ Hc'). cbn [mbind result_bind].
  unfold fill_matrix. rewrite fill_from_spec by apply rows_fit_buffer.
  split; [done|].
  cbn [LocalElementLists new_contiguous_map new_map_from_lists].
  unfold getLocalNumElements.
  rewrite (list_lookup_total_correct _ _ _
             (contiguous_lists_lookup 0 _ p my_rows Hmy)).
  destruct (Forall2_lookup_l _ _ _ p my_cols Hpos Hcols)
    as (new_cols & Hnew & Hrel).
  rewrite (list_lookup_total_correct _ _ _ Hnew).
  set (off := length (concat (take p (LocalElementLists rowmap)))).
  apply Forall2_same_length_lookup_2.
  { unfold translated_rows. rewrite length_imap, length_zip_with. lia. }
  intros i [g row] call Hzip Hcall.
  apply lookup_zip_with_Some in Hzip
    as (g' & row' & [= <- <-] & Hg & Hrowi).
  unfold translated_rows in Hcall. rewrite list_lookup_imap, Hrowi in Hcall.
  injection Hcall as <-. cbn [renumbered fst snd].
  pose proof (concat_lookup_offset _ p i my_rows g Hmy Hg) as Hall.
  fold (all_identifiers rowmap) in Hall. fold off in Hall.
  pose proof (lookup_lt_Some _ _ _ Hall) as Hlt.
  assert (getGlobalElement invalid
            (seqZ (0 + Z.of_nat off) (Z.of_nat (length my_rows)))
            (0 + Z.of_nat i)
          = Z.of_nat (off + i)) as ->.
  { replace (0 + Z.of_nat i) with (Z.of_nat i) by lia.
    erewrite getGlobalElement_lookup; [done|].
    rewrite lookup_seqZ_lt by (apply lookup_lt_Some in Hg; lia). f_equal. lia. }
  rewrite Hcast by lia. rewrite Nat2Z.id.
  split_and!; [lia|done|done|done|].
  apply Forall2_fmap_r, Forall_Forall2_diag.
  pose proof (proj1 (Forall_lookup _ _) Hrows i row Hrowi) as Hrowvalid.
  rewrite Forall_fmap. eapply Forall_impl; [exact Hrowvalid|].
  intros [lid v] Hlid. cbn [fst snd compose] in *.
  destruct (lookup_lt_is_Some_2 my_cols (Z.to_nat lid)) as [gc Hgc]; [lia|].
  destruct (Forall2_lookup_l _ _ _ _ _ Hrel Hgc) as (col & Hcol & Hc0 & Hcpos).
  replace lid with (Z.of_nat (Z.to_nat lid)) at 1 2 by lia.
  rewrite (getGlobalElement_lookup _ _ _ _ Hcol).
  pose proof (lookup_lt_Some _ _ _ Hcpos).
  rewrite Hcast by lia. by rewrite Hgc.
Qed.

(** X22: for a matrix whose row map and domain map are already
    contiguous, the constructor hands the library the matrix under its own
    identifiers: local row [i] under the identifier the matrix's row map
    gives it, each entry under the identifier the matrix's column map gives
    its local column index, and no map is created. *)
Theorem pack_matrix_keeps_contiguous (invalid : Z) (cast : Z -> Z) (h : heap)
    (Matrix : crs_matrix_type) (rowmap domainmap columnmap : map_type)
    (p : nat) (rows : list (list (Z * double))) :
  h !! getRowMap Matrix = Some rowmap ->
  h !! getDomainMap Matrix = Some domainmap ->
  h !! getColMap Matrix = Some columnmap ->
  isContiguous rowmap = true ->
  isContiguous domainmap = true ->
  MakeContiguousMaps h Matrix
  = Ok (h, (getRowMap Matrix, getColMap Matrix, getDomainMap Matrix))
  /\ pack_matrix invalid cast h Matrix p rows
     = Ok (translated_rows invalid cast
             (LocalElementLists rowmap !!! p)
             (LocalElementLists columnmap !!! p) 0 rows).
Proof.
  intros Hr Hd Hc Hrow Hdom.
  assert (MakeContiguousMaps h Matrix
          = Ok (h, (getRowMap Matrix, getColMap Matrix, getDomainMap Matrix)))
    as Hrun.
  { unfold MakeContiguousMaps.
    rewrite (deref_lookup _ _ _ Hr), result_bind_Ok, Hrow.
    by rewrite (deref_lookup _ _ _ Hd), result_bind_Ok, Hdom. }
  split; [done|].
  unfold pack_matrix. rewrite Hrun. cbn [mbind result_bind].
  rewrite (deref_lookup _ _ _ Hr). cbn [mbind result_bind].
  rewrite (deref_lookup _ _ _ Hc). cbn [mbind result_bind].
  unfold fill_matrix. apply fill_from_spec, rows_fit_buffer.
Qed.

Lemma pack_matrix_keeps_contiguous_witness :
  MakeContiguousMaps sample_heap linear_matrix
  = Ok (sample_heap,
        (getRowMap linear_matrix, getColMap linear_matrix,
         getDomainMap linear_matrix))
  /\ pack_matrix (-1) to_int sample_heap linear_matrix 0 scattered_local_rows
     = Ok (translated_rows (-1) to_int
             (LocalElementLists linear_rows !!! 0%nat)
             (LocalElementLists scattered_columns !!! 0%nat) 0
             scattered_local_rows).
Proof.
  apply (pack_matrix_keeps_contiguous (-1) to_int sample_heap linear_matrix
           linear_rows linear_rows scattered_columns 0 scattered_local_rows);
    reflexivity.
Defined.

Lemma pack_matrix_renumbers_witness :
  exists calls,
    pack_matrix (-1) to_int sample_heap scattered_matrix 0
      scattered_local_rows = Ok calls
    /\ Forall2 (fun old call =>
                  renumbered scattered_rows scattered_rows [0; 2; 3]
                    old.1 old.2 call)
         (zip [0; 2] scattered_local_rows) calls.
Proof.
  apply (pack_matrix_renumbers (-1) to_int sample_heap scattered_matrix
           scattered_rows scattered_rows scattered_columns 0
           [0; 2] [0; 2; 3] scattered_local_rows);
    try reflexivity.
  - discriminate.
  - exact scattered_columns_valid.
  - repeat constructor; simpl; lia.
  - intros z Hz. apply to_int_small. lia.
Defined.

End SpmvPackFacts.

(** ** The contiguous-map builder and the heap *)

Module ContiguousMapsEdges.
Import ContiguousMaps ContiguousMapsFacts.

(** X13: the builder does not touch what exists: every map object of the
    heap is unchanged afterwards, each returned pointer is either the
    matrix's own or the address of an object created by the call, and none
    of the three is null. *)
Theorem builder_keeps_existing_maps (h : heap) (Matrix : crs_matrix_type)
    (rowmap domainmap columnmap : map_type) :
  h !! getRowMap Matrix = Some rowmap ->
  h !! getDomainMap Matrix = Some domainmap ->
  h !! getColMap Matrix = Some columnmap ->
  exists h' r c d,
    MakeContiguousMaps h Matrix = Ok (h', (r, c, d))
    /\ (forall l mp, h !! l = Some mp -> h' !! l = Some mp)
    /\ (r = getRowMap Matrix \/ h !! r = None)
    /\ (c = getColMap Matrix \/ h !! c = None)
    /\ (d = getDomainMap Matrix \/ h !! d = None)
    /\ is_Some (h' !! r) /\ is_Some (h' !! c) /\ is_Some (h' !! d).
Proof.
  intros Hr Hd Hc.
  destruct (MakeContiguousMaps_spec h Matrix _ _ _ Hr Hd Hc)
    as (h' & r & c & d & Hrun & Hsub & Hrow & Hdom).
  exists h', r, c, d. split; [done|].
  split; [intros l mp Hl; by eapply lookup_weaken|].
  assert ((r = getRowMap Matrix \/ h !! r = None) /\ is_Some (h' !! r))
    as [? ?].
  { destruct (isContiguous rowmap).
    - subst r. split; [by left|]. exists rowmap. by eapply lookup_weaken.
    - destruct Hrow as [? ?]. split; [by right|by eexists]. }
  destruct (isContiguous domainmap).
  - destruct Hdom as [-> ->].
    split_and!; [done|by left|by left|done|..];
      eexists; by eapply lookup_weaken.
  - cbn zeta in Hdom. destruct Hdom as (? & ? & ? & ?).
    split_and!; [done|by right|by right|done|by eexists..].
Qed.

Lemma builder_keeps_existing_maps_witness :
  exists h' r c d,
    MakeContiguousMaps sample_heap scattered_matrix = Ok (h', (r, c, d))
    /\ (forall l mp, sample_heap !! l = Some mp -> h' !! l = Some mp)
    /\ (r = getRowMap scattered_matrix \/ sample_heap !! r = None)
    /\ (c = getColMap scattered_matrix \/ sample_heap !! c = None)
    /\ (d = getDomainMap scattered_matrix \/ sample_heap !! d = None)
    /\ is_Some (h' !! r) /\ is_Some (h' !! c) /\ is_Some (h' !! d).
Proof.
  apply (builder_keeps_existing_maps sample_heap scattered_matrix
           scattered_rows scattered_rows scattered_columns);
    reflexivity.
Defined.

(** X14: the builder is idempotent: run on a matrix that carries the
    maps it returned, it returns the same three pointers and creates
    nothing. *)
Theorem builder_idempotent (h : heap) (Matrix : crs_matrix_type)
    (rowmap domainmap columnmap : map_type) :
  h !! getRowMap Matrix = Some rowmap ->
  h !! getDomainMap Matrix = Some domainmap ->
  h !! getColMap Matrix = Some columnmap ->
  exists h' r c d,
    MakeContiguousMaps h Matrix = Ok (h', (r, c, d))
    /\ MakeContiguousMaps h'
         {| getRowMap := r; getDomainMap := d; getColMap := c;
            getImporter := getImporter Matrix |}
       = Ok (h', (r, c, d)).
Proof.
  intros Hr Hd Hc.
  destruct (MakeContiguousMaps_spec h Matrix _ _ _ Hr Hd Hc)
    as (h' & r & c & d & Hrun & Hsub & Hrow & Hdom).
  exists h', r, c, d. split; [done|].
  assert (exists rm, h' !! r = Some rm /\ isContiguous rm = true)
    as (rm & Hrm & Hrc).
  { destruct (isContiguous rowmap) eqn:E.
    - subst r. exists rowmap. split; [by eapply lookup_weaken|done].
    - destruct Hrow as [_ ?]. by eexists. }
  assert (exists dm, h' !! d = Some dm /\ isContiguous dm = true)
    as (dm & Hdm & Hdc).
  { destruct (isContiguous domainmap) eqn:E.
    - destruct Hdom as [-> _]. exists domainmap.
      split; [by eapply lookup_weaken|done].
    - cbn zeta in Hdom. destruct Hdom as (_ & ? & _). by eexists. }
  unfold MakeContiguousMaps. cbn [getRowMap getDomainMap getColMap].
  rewrite (deref_lookup _ _ _ Hrm), result_bind_Ok, Hrc.
  by rewrite (deref_lookup _ _ _ Hdm), result_bind_Ok, Hdc.
Qed.

Lemma builder_idempotent_witness :
  exists h' r c d,
    MakeContiguousMaps sample_heap scattered_matrix = Ok (h', (r, c, d))
    /\ MakeContiguousMaps h'
         {| getRowMap := r; getDomainMap := d; getColMap := c;
            getImporter := getImporter scattered_matrix |}
       = Ok (h', (r, c, d)).
Proof.
  apply (builder_idempotent sample_heap scattered_matrix
           scattered_rows scattered_rows scattered_columns);
    reflexivity.
Defined.

(** X15: for a matrix whose row map and domain map are one object that
    is not contiguous, the builder makes two objects: the new row map and
    the new domain map are the same map at different addresses, so a
    comparison of the pointers no longer finds them equal. *)
Theorem shared_map_is_split (h : heap) (Matrix : crs_matrix_type)
    (rowmap columnmap : map_type) :
  getDomainMap Matrix = getRowMap Matrix ->
  h !! getRowMap Matrix = Some rowmap ->
  h !! getColMap Matrix = Some columnmap ->
  isContiguous rowmap = false ->
  exists h' r c d,
    MakeContiguousMaps h Matrix = Ok (h', (r, c, d))
    /\ r <> d
    /\ h' !! r = Some (new_contiguous_map (getGlobalNumElements rowmap)
                         (getLocalNumElements rowmap) 0)
    /\ h' !! d = h' !! r.
Proof.
  intros Hsame Hr Hc Hcont. unfold MakeContiguousMaps.
  rewrite Hsame, (deref_lookup h _ _ Hr), result_bind_Ok, Hcont.
  allocate h1 l1.
  rewrite (deref_lookup h1 _ rowmap), result_bind_Ok, Hcont
    by (by eapply lookup_weaken).
  allocate h2 l2.
  rewrite (deref_lookup h2 _ columnmap), result_bind_Ok
    by (eapply lookup_weaken; [done|by etrans]).
  destruct (getImporter Matrix); allocate h3 l3.
  all: eexists _, _, _, _; split; [done|].
  all: assert (h3 !! l1 = Some (new_contiguous_map
                                  (getGlobalNumElements rowmap)
                                  (getLocalNumElements rowmap) 0))
         by (eapply lookup_weaken; [done|by etrans]).
  all: assert (h3 !! l2 = Some (new_contiguous_map
                                  (getGlobalNumElements rowmap)
                                  (getLocalNumElements rowmap) 0))
         by (by eapply lookup_weaken).
  all: split_and!; [|done|congruence].
  all: intros ->; congruence.
Qed.

Lemma shared_map_is_split_witness :
  exists h' r c d,
    MakeContiguousMaps sample_heap scattered_matrix = Ok (h', (r, c, d))
    /\ r <> d
    /\ h' !! r = Some (new_contiguous_map
                         (getGlobalNumElements scattered_rows)
                         (getLocalNumElements scattered_rows) 0)
    /\ h' !! d = h' !! r.
Proof.
  apply (shared_map_is_split sample_heap scattered_matrix
           scattered_rows scattered_columns);
    reflexivity.
Defined.

(** X24: the two decisions of the builder are taken separately.  With a
    contiguous row map and a domain map that is not contiguous, the row map
    is returned as it is while a new domain map and a new column map are
    created; the rows then keep their identifiers and only the columns are
    renumbered. *)
Theorem row_kept_columns_renumbered (h : heap) (Matrix : crs_matrix_type)
    (rowmap domainmap columnmap : map_type) :
  h !! getRowMap Matrix = Some rowmap ->
  h !! getDomainMap Matrix = Some domainmap ->
  h !! getColMap Matrix = Some columnmap ->
  isContiguous rowmap = true ->
  isContiguous domainmap = false ->
  exists h' c d dm,
    MakeContiguousMaps h Matrix = Ok (h', (getRowMap Matrix, c, d))
    /\ h' !! getRowMap Matrix = Some rowmap
    /\ h !! d = None /\ h !! c = None
    /\ h' !! d = Some dm
    /\ isContiguous dm = true
    /\ all_identifiers dm
       = seqZ 0 (Z.of_nat (length (all_identifiers domainmap)))
    /\ is_Some (h' !! c).
Proof.
  intros Hr Hd Hc Hrow Hdom.
  destruct (MakeContiguousMaps_spec h Matrix _ _ _ Hr Hd Hc)
    as (h' & r & c & d & Hrun & Hsub & Hr' & Hd').
  rewrite Hrow in Hr'. rewrite Hdom in Hd'. cbn zeta in Hd'. subst r.
  destruct Hd' as (Hdf & Hdn & Hcf & Hcn).
  destruct (new_contiguous_map_spec domainmap) as (_ & _ & _ & Hall).
  cbn zeta in Hall.
  eexists h', c, d, _. split_and!; [done| |done|done|done|done|done|by eexists].
  by eapply lookup_weaken.
Qed.

Lemma row_kept_columns_renumbered_witness :
  let Matrix :=
    {| getRowMap := 3%positive; getDomainMap := 1%positive;
       getColMap := 2%positive; getImporter := Some domain_to_column |} in
  exists h' c d dm,
    MakeContiguousMaps sample_heap Matrix = Ok (h', (getRowMap Matrix, c, d))
    /\ h' !! getRowMap Matrix = Some linear_rows
    /\ sample_heap !! d = None /\ sample_heap !! c = None
    /\ h' !! d = Some dm
    /\ isContiguous dm = true
    /\ all_identifiers dm
       = seqZ 0 (Z.of_nat (length (all_identifiers scattered_rows)))
    /\ is_Some (h' !! c).
Proof.
  cbv zeta.
  eapply (row_kept_columns_renumbered sample_heap _ linear_rows
            scattered_rows scattered_columns);
    reflexivity.
Defined.

End ContiguousMapsEdges.

(** ** Backend selection in closed form *)

Module DriverEdges.
Import Driver DriverFacts.

(** Each block in closed form: the flag it leaves and what it writes. *)
Lemma check_kk_closed (np : Z) (f : Flags) (out : list string) :
  check_kk np (f, out)
  = (set_do_kk (do_kk f && negb (bool_decide (np > 1))) f,
     out ++ (if do_kk f && bool_decide (np > 1) then [kk_warning] else [])).
Proof.
  unfold check_kk. destruct f as [? ? fkk ? ? ? ? ?]. cbn.
  destruct fkk, (bool_decide (np > 1)); cbn; by rewrite ?app_nil_r.
Qed.

Lemma check_mkl_closed (b : Build) (f : Flags) (out : list string) :
  check_mkl b (f, out)
  = (set_do_mkl (do_mkl f && HAVE_MUELU_MKL b) f,
     out ++ (if negb (HAVE_MUELU_MKL b) && do_mkl f
             then [mkl_warning] else [])).
Proof.
  unfold check_mkl. destruct f as [fmkl ? ? ? ? ? ? ?]. cbn.
  destruct (HAVE_MUELU_MKL b), fmkl; cbn; by rewrite ?app_nil_r.
Qed.

Lemma check_cusparse_closed (b : Build) (f : Flags) (out : list string) :
  check_cusparse b (f, out)
  = (set_do_cusparse
       (do_cusparse f && HAVE_MUELU_CUSPARSE b && node_is_cuda b) f,
     out ++ (if negb (HAVE_MUELU_CUSPARSE b) && do_cusparse f
             then [cusparse_warning] else [])).
Proof.
  unfold check_cusparse. destruct f as [? ? ? fcu ? ? ? ?]. cbn.
  destruct (HAVE_MUELU_CUSPARSE b), (node_is_cuda b), fcu; cbn;
    by rewrite ?app_nil_r.
Qed.

Lemma check_magmasparse_closed (b : Build) (f : Flags) (out : list string) :
  check_magmasparse b (f, out)
  = (set_do_magmasparse (do_magmasparse f && HAVE_MUELU_MAGMASPARSE b) f,
     out ++ (if negb (HAVE_MUELU_MAGMASPARSE b) && do_magmasparse f
             then [magmasparse_warning] else [])).
Proof.
  unfold check_magmasparse. destruct f as [? ? ? ? fma ? ? ?]. cbn.
  destruct (HAVE_MUELU_MAGMASPARSE b), fma; cbn; by rewrite ?app_nil_r.
Qed.

Lemma check_hypre_closed (b : Build) (f : Flags) (out : list string) :
  check_hypre b (f, out)
  = (set_do_hypre (do_hypre f && HAVE_MUELU_HYPRE b) f,
     out ++ (if negb (HAVE_MUELU_HYPRE b) && do_hypre f
             then [hypre_warning] else [])).
Proof.
  unfold check_hypre. destruct f as [? ? ? ? ? fhy ? ?]. cbn.
  destruct (HAVE_MUELU_HYPRE b), fhy; cbn; by rewrite ?app_nil_r.
Qed.

Lemma check_petsc_closed (b : Build) (f : Flags) (out : list string) :
  check_petsc b (f, out)
  = (set_do_petsc (do_petsc f && (HAVE_MUELU_PETSC b || negb (do_hypre f))) f,
     out ++ (if negb (HAVE_MUELU_PETSC b) && do_hypre f
             then [petsc_warning] else [])).
Proof.
  unfold check_petsc. destruct f as [? ? ? ? ? fhy fpe ?]. cbn.
  destruct (HAVE_MUELU_PETSC b), fhy, fpe; cbn; by rewrite ?app_nil_r.
Qed.

Lemma disable_unavailable_closed (b : Build) (np : Z) (f0 : Flags) :
  disable_unavailable b np f0
  = ({| do_mkl := do_mkl f0 && HAVE_MUELU_MKL b;
        do_tpetra := do_tpetra f0;
        do_kk := do_kk f0 && negb (bool_decide (np > 1));
        do_cusparse := do_cusparse f0 && HAVE_MUELU_CUSPARSE b
                       && node_is_cuda b;
        do_magmasparse := do_magmasparse f0 && HAVE_MUELU_MAGMASPARSE b;
        do_hypre := do_hypre f0 && HAVE_MUELU_HYPRE b;
        do_petsc := do_petsc f0
                    && (HAVE_MUELU_PETSC b
                        || negb (do_hypre f0 && HAVE_MUELU_HYPRE b));
        report_error_norms := report_error_norms f0 |},
     (if do_kk f0 && bool_decide (np > 1) then [kk_warning] else [])
     ++ (if negb (HAVE_MUELU_MKL b) && do_mkl f0 then [mkl_warning] else [])
     ++ (if negb (HAVE_MUELU_CUSPARSE b) && do_cusparse f0
         then [cusparse_warning] else [])
     ++ (if negb (HAVE_MUELU_MAGMASPARSE b) && do_magmasparse f0
         then [magmasparse_warning] else [])
     ++ (if negb (HAVE_MUELU_HYPRE b) && do_hypre f0
         then [hypre_warning] else [])
     ++ (if negb (HAVE_MUELU_PETSC b) && HAVE_MUELU_HYPRE b && do_hypre f0
         then [petsc_warning] else [])).
Proof.
  unfold disable_unavailable.
  rewrite check_kk_closed, check_mkl_closed, check_cusparse_closed,
    check_magmasparse_closed, check_hypre_closed, check_petsc_closed.
  destruct f0 as [fmkl ftp fkk fcu fma fhy fpe fno].
  cbn [set_do_kk set_do_mkl set_do_cusparse set_do_magmasparse set_do_hypre
       set_do_petsc do_kk do_mkl do_cusparse do_magmasparse do_hypre do_petsc
       do_tpetra report_error_norms].
  rewrite app_nil_l, <- !app_assoc.
  f_equal.
  do 5 f_equal.
  by destruct (HAVE_MUELU_PETSC b), (HAVE_MUELU_HYPRE b), fhy.
Qed.

(** X16: the warnings of the set-up phase, in the order they are
    written: the KK warning when KK is selected on more than one process;
    the MKL, CuSparse, MagmaSparse and Hypre warnings when that backend is
    selected and not built; and the Petsc warning exactly when Petsc is not
    built while Hypre is built and selected, whether or not Petsc itself is
    selected.  Nothing else is written. *)
Theorem warnings_in_order (b : Build) (cl : CommandLine) (np : Z) :
  warnings (setup b cl np)
  = (if do_kk (parse cl (default_flags b)) && bool_decide (np > 1)
     then [kk_warning] else [])
    ++ (if negb (HAVE_MUELU_MKL b) && do_mkl (parse cl (default_flags b))
        then [mkl_warning] else [])
    ++ (if negb (HAVE_MUELU_CUSPARSE b)
           && do_cusparse (parse cl (default_flags b))
        then [cusparse_warning] else [])
    ++ (if negb (HAVE_MUELU_MAGMASPARSE b)
           && do_magmasparse (parse cl (default_flags b))
        then [magmasparse_warning] else [])
    ++ (if negb (HAVE_MUELU_HYPRE b)
           && do_hypre (parse cl (default_flags b))
        then [hypre_warning] else [])
    ++ (if negb (HAVE_MUELU_PETSC b) && HAVE_MUELU_HYPRE b
           && do_hypre (parse cl (default_flags b))
        then [petsc_warning] else []).
Proof. unfold setup. by rewrite disable_unavailable_closed. Qed.

Lemma final_flags (b : Build) (cl : CommandLine) (np : Z) :
  flags (setup b cl np)
  = {| do_mkl := do_mkl (parse cl (default_flags b)) && HAVE_MUELU_MKL b;
       do_tpetra := do_tpetra (parse cl (default_flags b));
       do_kk := do_kk (parse cl (default_flags b))
                && negb (bool_decide (np > 1));
       do_cusparse := do_cusparse (parse cl (default_flags b))
                      && HAVE_MUELU_CUSPARSE b && node_is_cuda b;
       do_magmasparse := do_magmasparse (parse cl (default_flags b))
                         && HAVE_MUELU_MAGMASPARSE b;
       do_hypre := do_hypre (parse cl (default_flags b))
                   && HAVE_MUELU_HYPRE b;
       do_petsc := do_petsc (parse cl (default_flags b))
                   && (HAVE_MUELU_PETSC b
                       || negb (do_hypre (parse cl (default_flags b))
                                && HAVE_MUELU_HYPRE b));
       report_error_norms :=
         report_error_norms (parse cl (default_flags b)) |}.
Proof. unfold setup. by rewrite disable_unavailable_closed. Qed.

Lemma make_experiments_cat (b : Build) (f : Flags) :
  make_experiments b f
  = (if HAVE_MUELU_MKL b && do_mkl f then [MKL] else [])
    ++ (if HAVE_MUELU_CUSPARSE b && do_cusparse f then [CUSPARSE] else [])
    ++ (if HAVE_MUELU_MAGMASPARSE b && do_magmasparse f
        then [MAGMASPARSE] else [])
    ++ (if HAVE_MUELU_HYPRE b && HAVE_MPI b && do_hypre f
        then [HYPRE] else [])
    ++ (if HAVE_MUELU_PETSC b && HAVE_MPI b && do_petsc f
        then [PETSC] else [])
    ++ (if do_tpetra f then [TPETRA] else [])
    ++ (if do_kk f then [KK] else []).
Proof.
  unfold make_experiments, push_back_if. cbn zeta.
  destruct (HAVE_MUELU_MKL b && do_mkl f),
    (HAVE_MUELU_CUSPARSE b && do_cusparse f),
    (HAVE_MUELU_MAGMASPARSE b && do_magmasparse f),
    (HAVE_MUELU_HYPRE b && HAVE_MPI b && do_hypre f),
    (HAVE_MUELU_PETSC b && HAVE_MPI b && do_petsc f),
    (do_tpetra f), (do_kk f); reflexivity.
Qed.

Lemma filter_candidate (P : Experiments -> bool) (e : Experiments)
    (rest : list Experiments) :
  filter (fun e => P e = true) (e :: rest)
  = (if P e then [e] else []) ++ filter (fun e => P e = true) rest.
Proof.
  destruct (P e) eqn:E.
  - by rewrite filter_cons_True.
  - rewrite filter_cons_False; [done|]. by rewrite E.
Qed.

(** X17: the experiment list in closed form: it holds, in the order MKL,
    CuSparse, MagmaSparse, Hypre, Petsc, Tpetra, KK, exactly the backends
    that are selected (by option, or by default) and built, CuSparse only
    on the Cuda node, Hypre and Petsc only with MPI, and KK only on a
    single process. *)
Theorem experiment_list_in_order (b : Build) (cl : CommandLine) (np : Z) :
  my_experiments (setup b cl np)
  = filter (fun e => Selection.runs b cl np e = true) Selection.candidates.
Proof.
  assert (my_experiments (setup b cl np)
          = make_experiments b (flags (setup b cl np))) as ->.
  { unfold setup. by destruct (disable_unavailable _ _ _). }
  rewrite final_flags, make_experiments_cat.
  unfold Selection.candidates. rewrite !filter_candidate, filter_nil.
  unfold Selection.runs.
  cbn [flag_of do_kk do_mkl do_cusparse do_magmasparse do_hypre do_petsc
       do_tpetra].
  generalize (parse cl (default_flags b)). intros f0.
  rewrite app_nil_r.
  repeat f_equal.
  all: destruct b as [bmkl bcu bma bhy bpe bmpi btp bcuda];
    destruct f0 as [fmkl ftp fkk fcu fma fhy fpe fno];
    cbn [do_kk do_mkl do_cusparse do_magmasparse do_hypre do_petsc do_tpetra
         HAVE_MUELU_MKL HAVE_MUELU_CUSPARSE HAVE_MUELU_MAGMASPARSE
         HAVE_MUELU_HYPRE HAVE_MUELU_PETSC HAVE_MPI node_is_cuda].
  all: try (by destruct fmkl, bmkl).
  all: try (by destruct fcu, bcu, bcuda).
  all: try (by destruct fma, bma).
  all: try (by destruct fhy, bhy, bmpi).
  all: try (by destruct fpe, bpe, bmpi, fhy, bhy).
  all: try (by destruct ftp).
  all: try (by destruct fkk, (bool_decide (np > 1))).
Qed.

(** *** What the loop calls *)

Lemma foldl_run_experiment (env : Env) (l : list Experiments) (p : Process) :
  dispatched (foldl (run_experiment env) p l) = dispatched p ++ l
  /\ invoked (foldl (run_experiment env) p l)
     = invoked p
       ++ filter (fun e => case_compiled (build env) e = true) l
  /\ (error_check_y env && norms_wanted env = false ->
      output (foldl (run_experiment env) p l)
      = output p
        ++ (unknown_experiment <$>
              (experiment_id <$>
                 filter (fun e => case_compiled (build env) e = false) l))).
Proof.
  revert p. induction l as [|e l IH]; intros p.
  - cbn [foldl]. rewrite !filter_nil, !app_nil_r. done.
  - cbn [foldl]. destruct (IH (run_experiment env p e)) as (Hd & Hi & Ho).
    rewrite Hd, Hi. clear Hd Hi.
    unfold run_experiment, check_norms in *.
    destruct (error_check_y env && norms_wanted env) eqn:Hn.
    + cbn [dispatched invoked]. unfold dispatch.
      destruct (case_compiled (build env) e) eqn:Hc; cbn [dispatched invoked].
      * rewrite filter_cons_True by done. by rewrite <- !app_assoc.
      * rewrite filter_cons_False by (by rewrite Hc). by rewrite <- !app_assoc.
    + rewrite (Ho eq_refl). clear Ho. unfold dispatch.
      destruct (case_compiled (build env) e) eqn:Hc;
        cbn [dispatched invoked output].
      * rewrite filter_cons_True by done.
        rewrite (filter_cons_False _ e) by (by rewrite Hc).
        by rewrite <- !app_assoc.
      * rewrite filter_cons_False by (by rewrite Hc).
        rewrite (filter_cons_True _ e) by done.
        by rewrite <- !app_assoc.
Qed.

(** X18: one pass over the experiment list enters the [switch] once for
    every listed experiment, in order, and calls the kernel of exactly
    those that have a [case] in this build; with the norm report off, each
    of the others writes its numeric id as an unknown experiment and
    nothing else is written. *)
Theorem kernels_invoked (env : Env) (p : Process) :
  dispatched (run_experiments env p) = dispatched p ++ experiments p
  /\ invoked (run_experiments env p)
     = invoked p
       ++ filter (fun e => case_compiled (build env) e = true) (experiments p)
  /\ (error_check_y env && norms_wanted env = false ->
      output (run_experiments env p)
      = output p
        ++ (unknown_experiment <$>
              (experiment_id <$>
                 filter (fun e => case_compiled (build env) e = false)
                   (experiments p)))).
Proof. apply foldl_run_experiment. Qed.

(** *** The NaN sentinel *)

(** X19: the sentinel works.  With the norm report on, a backend whose
    kernel writes nothing into the output buffer is exposed whenever it
    runs after another experiment: the norm of [y] it is reported with is
    NaN, and the comparison of the two norms of [y] prints false. *)
Theorem silent_backend_is_flagged (env : Env) (p : Process)
    (e1 e2 : Experiments) (k : nat) :
  error_check_y env && norms_wanted env = true ->
  length (y (dispatch env e1 p)) = S k ->
  case_compiled (build env) e2 = true ->
  (forall y0, kernel env e2 (x env) y0 = y0) ->
  exists y_err y_baseline_norm2 next,
    output (run_experiment env (run_experiment env p e1) e2)
    = output (run_experiment env p e1)
      ++ [norm_report e2 y_err nan y_baseline_norm2 false next].
Proof.
  intros Hon Hlen Hc Hsilent.
  assert (y (run_experiment env p e1) = replicate (S k) nan) as Hy.
  { unfold run_experiment, check_norms. rewrite Hon. cbn [y].
    unfold putScalar. by rewrite length_update, Hlen. }
  destruct (sentinel_detected env (run_experiment env p e1) e2 k Hon)
    as (y_err & bn & next & Hout).
  { unfold dispatch. rewrite Hc. cbn [y]. by rewrite Hsilent. }
  exists y_err, bn, next. rewrite Hout. f_equal.
  unfold dispatch. by rewrite Hc.
Qed.

Lemma silent_backend_is_flagged_witness :
  let env :=
    {| build := plain_build; norms_wanted := true; num_rows := 2;
       x := [1; 1]%float;
       kernel := fun e x y => match e with
                              | KK => y
                              | _ => [3; 4]%float
                              end |} in
  exists y_err y_baseline_norm2 next,
    output (run_experiment env
              (run_experiment env (initial_process env [TPETRA; KK]) TPETRA)
              KK)
    = output (run_experiment env (initial_process env [TPETRA; KK]) TPETRA)
      ++ [norm_report KK y_err nan y_baseline_norm2 false next].
Proof.
  cbv zeta.
  eapply (silent_backend_is_flagged _ _ TPETRA KK 1); reflexivity.
Defined.

(** *** How often each kernel is called *)

Lemma calls_of_NoDup (e : Experiments) (v : list Experiments) :
  NoDup v ->
  Selection.calls_of e v = if decide (e ∈ v) then 1%nat else 0%nat.
Proof.
  unfold Selection.calls_of. induction 1 as [|e' v Hnot Hnd IH]; [done|].
  destruct (decide (e' = e)) as [->|Hne].
  - rewrite filter_cons_True by done. cbn [length]. rewrite IH.
    rewrite decide_False by done.
    by rewrite decide_True by apply list_elem_of_here.
  - rewrite filter_cons_False by done. rewrite IH.
    destruct (decide (e ∈ v)) as [Hin|Hin].
    + by rewrite decide_True by by apply list_elem_of_further.
    + rewrite decide_False; [done|].
      intros [?|?]%elem_of_cons; [congruence|done].
Qed.

Lemma calls_of_orders (e : Experiments) (v : list Experiments)
    (orders : list (list Experiments)) :
  NoDup v -> Forall (fun o => o ≡ₚ v) orders ->
  Selection.calls_of e (concat orders)
  = if decide (e ∈ v) then length orders else 0%nat.
Proof.
  intros Hnd. induction 1 as [|o orders Ho _ IH].
  - by destruct (decide (e ∈ v)).
  - unfold Selection.calls_of in *. cbn [concat].
    rewrite filter_app, length_app, IH.
    assert (length (filter (fun e' => e' = e) o)
            = Selection.calls_of e v) as ->.
    { unfold Selection.calls_of. by rewrite Ho. }
    rewrite calls_of_NoDup by done.
    by destruct (decide (e ∈ v)).
Qed.

(** X20: in a whole run of the loop on a Tpetra build, every process
    calls the kernel of each listed backend exactly [nrepeat] times and the
    kernel of any other backend not at all. *)
Theorem kernel_call_counts (env : Env) (f : Flags) (n_others : nat)
    (g : URBG) (nrepeat : Z) (e : Experiments) :
  HAVE_MUELU_TPETRA (build env) = true ->
  exists w,
    experiment_loop env (make_experiments (build env) f) n_others g nrepeat
    = Some w
    /\ length (processes w) = S n_others
    /\ Forall (fun p =>
                 Selection.calls_of e (invoked p)
                 = if decide (e ∈ make_experiments (build env) f)
                   then Z.to_nat nrepeat else 0%nat)
         (processes w).
Proof.
  intros Htp.
  pose proof (make_experiments_length (build env) f) as Hlen.
  destruct (experiment_loop_orders env _ n_others g nrepeat Hlen)
    as (w & cur & orders & Hrun & Hn & Hp & Ho & Hw).
  exists w. split; [done|]. split; [unfold processes; simpl; lia|].
  eapply Forall_impl; [exact Hw|].
  intros p (_ & Hd & _ & Hi). cbn beta.
  rewrite Hi by by apply make_experiments_compiled.
  rewrite Hd, (calls_of_orders e _ orders (make_experiments_NoDup _ _) Hp).
  by rewrite Hn.
Qed.

Lemma kernel_call_counts_witness :
  exists w,
    experiment_loop quiet_env
      (make_experiments (build quiet_env) (default_flags plain_build))
      2 counting_source 5
    = Some w
    /\ length (processes w) = 3%nat
    /\ Forall (fun p =>
                 Selection.calls_of KK (invoked p)
                 = if decide (KK ∈ make_experiments (build quiet_env)
                                      (default_flags plain_build))
                   then Z.to_nat 5 else 0%nat)
         (processes w).
Proof.
  apply (kernel_call_counts quiet_env (default_flags plain_build) 2
           counting_source 5 KK).
  reflexivity.
Defined.

(** *** The loop and the table of timers *)

Lemma timer_of_inj (e1 e2 : Experiments) :
  Timers.timer_of e1 = Timers.timer_of e2 -> e1 = e2.
Proof. by destruct e1, e2. Qed.

Lemma lookupCounter_calls (seconds : string -> double)
    (invoked : list Experiments) (e : Experiments) :
  Timers.lookupCounter seconds invoked (Timers.timer_of e)
  = if decide (Selection.calls_of e invoked = 0%nat) then None
    else Some {| ReportTable.totalElapsedTime := seconds (Timers.timer_of e);
                 ReportTable.numCalls :=
                   to_int (Z.of_nat (Selection.calls_of e invoked)) |}.
Proof.
  unfold Timers.lookupCounter, Selection.calls_of. cbn zeta.
  assert (filter (fun e' => Timers.timer_of e' = Timers.timer_of e) invoked
          = filter (fun e' => e' = e) invoked) as ->; [|done].
  apply list_filter_iff. intros e'. split; [apply timer_of_inj|by intros ->].
Qed.

Lemma filter_fmap_list {X Y : Type} (f : X -> Y) (P : Y -> Prop)
    `{!forall y, Decision (P y)} (l : list X) :
  filter P (f <$> l) = f <$> filter (fun x => P (f x)) l.
Proof.
  induction l as [|x l IH]; [done|]. csimpl.
  destruct (decide (P (f x))).
  - rewrite !filter_cons_True by done. csimpl. by rewrite IH.
  - by rewrite !filter_cons_False by done.
Qed.

(** X25: the loop and the table agree.  After a run of the loop with
    [nrepeat] between 1 and 2^31-1 on a Tpetra build, the table that rank 0
    prints has a line for exactly the listed backends, in the order MKL, KK,
    Tpetra, CuSparse, MagmaSparse, HYPRE, Petsc, and the timer of each
    listed backend has counted [nrepeat] calls. *)
Theorem table_lists_backends_run (env : Env) (f : Flags) (n_others : nat)
    (g : URBG) (nrepeat : Z) (seconds : string -> double)
    (rep : PerfReport.Report) :
  HAVE_MUELU_TPETRA (build env) = true ->
  0 < nrepeat < 2 ^ 31 ->
  exists w,
    experiment_loop env (make_experiments (build env) f) n_others g nrepeat
    = Some w
    /\ ReportTable.timers_shown
         (ReportTable.print_report 0 (Some ())
            (Timers.lookupCounter seconds (invoked (root w))) rep)
       = Timers.timer_of
           <$> filter (fun e => e ∈ make_experiments (build env) f)
                 Timers.timed_backends
    /\ forall e, e ∈ make_experiments (build env) f ->
         exists t,
           Timers.lookupCounter seconds (invoked (root w)) (Timers.timer_of e)
           = Some t
           /\ ReportTable.numCalls t = nrepeat.
Proof.
  intros Htp Hn.
  pose proof (make_experiments_length (build env) f) as Hlen.
  destruct (experiment_loop_orders env _ n_others g nrepeat Hlen)
    as (w & cur & orders & Hrun & Hlo & Hp & Ho & Hw).
  apply Forall_cons in Hw as [(_ & Hd & _ & Hi) _].
  specialize (Hi (make_experiments_compiled _ f Htp)).
  assert (forall e,
            Selection.calls_of e (invoked (root w))
            = if decide (e ∈ make_experiments (build env) f)
              then Z.to_nat nrepeat else 0%nat) as Hcalls.
  { intros e. rewrite Hi, Hd.
    rewrite (calls_of_orders e _ orders (make_experiments_NoDup _ _) Hp).
    by rewrite Hlo. }
  exists w. split; [done|]. split.
  - unfold ReportTable.print_report. cbn zeta.
    rewrite !decide_True by done.
    rewrite ReportEdges.timers_shown_app, ReportEdges.timers_shown_table.
    unfold ReportTable.timers_shown. cbn [omap list_omap app].
    change ReportTable.timer_names
      with (Timers.timer_of <$> Timers.timed_backends).
    rewrite filter_fmap_list. f_equal.
    apply list_filter_iff. intros e.
    rewrite lookupCounter_calls, Hcalls.
    destruct (decide (e ∈ make_experiments (build env) f)).
    + rewrite decide_False by lia. split; [done|by eexists].
    + rewrite decide_True by done. split; [by intros [? ?]|done].
  - intros e He. rewrite lookupCounter_calls, Hcalls.
    destruct (decide (e ∈ make_experiments (build env) f)); [|done].
    rewrite decide_False by lia.
    eexists. split; [done|]. cbn [ReportTable.numCalls].
    rewrite Z2Nat.id by lia. apply to_int_small. lia.
Qed.

Lemma table_lists_backends_run_witness :
  exists w,
    experiment_loop quiet_env
      (make_experiments (build quiet_env) (default_flags plain_build))
      2 counting_source 5
    = Some w
    /\ ReportTable.timers_shown
         (ReportTable.print_report 0 (Some ())
            (Timers.lookupCounter (fun _ => 1%float) (invoked (root w)))
            {| PerfReport.pm_calls := [];
               PerfReport.minimum_time_composite := 1%float;
               PerfReport.minimum_time_all := 1%float;
               PerfReport.remote := PerfReport.no_remote |})
       = Timers.timer_of
           <$> filter (fun e => e ∈ make_experiments (build quiet_env)
                                      (default_flags plain_build))
                 Timers.timed_backends
    /\ forall e,
         e ∈ make_experiments (build quiet_env) (default_flags plain_build) ->
         exists t,
           Timers.lookupCounter (fun _ => 1%float) (invoked (root w))
             (Timers.timer_of e)
           = Some t
           /\ ReportTable.numCalls t = 5.
Proof.
  apply (table_lists_backends_run quiet_env (default_flags plain_build) 2
           counting_source 5).
  - reflexivity.
  - lia.
Defined.

End DriverEdges.
